(** * BolcsiPlan: the staff data hook

    A shallow embedding of [src/hooks/useStaffData.js]: the roster
    mutations, the weekly override store, the merge engine
    [getStaffByUnit] and the schedule copy [copyScheduleFromWeek],
    followed by the properties of the specification that concern them.
    The rest of the hook (the category handlers, the snapshot
    listeners, [getShiftColor]), the date helpers of
    [src/utils/helpers.js] and the list handlers of the application and
    its dialogs are embedded after it, with further properties of the
    code at the end of the file.

    Conventions of the embedding.
    - A JavaScript value that is a string or nullish ([undefined], [null]
      or a missing key) is an [option string]; [None] is the nullish
      case, the only distinction [??] and [?.] make.
    - A [sortOrder], a number that may be [Infinity], is an [option]
      whose [None] is [Infinity]; the index of a unit, group or job title
      is a [Js.Index].
    - Strings are byte strings (the UTF-8 encoding of the source's
      literals); only equality and concatenation are used on them.
    - A comparator returns the sign of the number the source returns
      ([Lt] negative, [Eq] zero or [NaN], [Gt] positive), which is all
      [Array.prototype.sort] looks at.
    - The plain objects the merge engine uses as maps keep their own
      keys in creation order (module [JsObject]). A read goes through
      the prototype chain: at the name of a member of [Object.prototype]
      that the object does not own it finds the inherited member.
    - A [shifts] object, keyed by ISO dates, and the [timeSlots] object,
      keyed by shift codes, are finite maps; a week is named by the ISO
      date of its Monday. *)

From Stdlib Require Import ZArith NArith Ascii String List.
From Stdlib Require Import Sorting.Sorted Sorting.Permutation.
From Stdlib Require Import Structures.OrderedTypeEx.
From stdpp Require Import base option list gmap strings pretty.

#[local] Open Scope string_scope.

(** ** JavaScript primitives *)

Module Js.

(** [x ?? d] *)
Definition nullish {A : Type} (x : option A) (d : A) : A := default d x.

(** [x || ""] for [x] a string or nullish: the empty string is falsy
    too, and is replaced by itself. *)
Definition orEmpty (x : option string) : string := default "" x.

(** [!!x] for [x] a string or nullish. *)
Definition truthy (x : option string) : bool :=
  match x with
  | Some s => bool_decide (s ≠ "")
  | None => false
  end.

(** [new Set(items).has(x)] *)
Definition has (items : list string) (x : string) : bool :=
  bool_decide (x ∈ items).

(** [a - b] on numbers that may be [Infinity], reduced to its sign;
    [Infinity - Infinity] is [NaN], which [sort] treats as zero. *)
Definition subSign {A : Type} (cmp : A → A → comparison)
    (a b : option A) : comparison :=
  match a, b with
  | Some x, Some y => cmp x y
  | Some _, None => Lt
  | None, Some _ => Gt
  | None, None => Eq
  end.

(** The value of [orderMap[x] ?? Infinity]: a position, [Infinity], or
    the member of [Object.prototype] named [k], which the order map
    inherits when [x] is [k] and the map has no property of its own
    there. Two members are the same value when they have the same
    name. *)
Inductive Index : Type :=
  | Position (n : nat)
  | Infinity
  | Member (k : string).

#[global] Instance Index_eq_dec : EqDecision Index.
Proof. solve_decision. Defined.

(** [a - b] on indices, reduced to its sign: [NaN], which [sort] treats
    as zero, when a member of [Object.prototype] is involved or both are
    [Infinity]. *)
Definition minus (a b : Index) : comparison :=
  match a, b with
  | Position i, Position j => Nat.compare i j
  | Position _, Infinity => Lt
  | Infinity, Position _ => Gt
  | _, _ => Eq
  end.

(** [Array.prototype.sort(cmp)]: a stable sort. The element [x] is
    placed before the first element of the sorted tail that it does not
    follow strictly. For a consistent comparator every stable sort
    returns this list. *)
Fixpoint sortInsert {A : Type} (cmp : A → A → comparison)
    (x : A) (l : list A) : list A :=
  match l with
  | [] => [x]
  | y :: l' =>
      match cmp x y with
      | Gt => y :: sortInsert cmp x l'
      | _ => x :: y :: l'
      end
  end.

Definition sort {A : Type} (cmp : A → A → comparison)
    (l : list A) : list A :=
  foldr (sortInsert cmp) [] l.

End Js.

(** ** Plain objects used as string-keyed maps *)

Module JsObject.

(** The own properties in creation order; keys are unique. *)
Definition t (V : Type) : Type := list (string * V).

Definition empty {V : Type} : t V := [].

(** The own property [k]. *)
Fixpoint get {V : Type} (o : t V) (k : string) : option V :=
  match o with
  | [] => None
  | (k', v) :: o' => if decide (k' = k) then Some v else get o' k
  end.

(** [o[k] = v] for a key other than [__proto__]: an existing property
    keeps its place. *)
Fixpoint set {V : Type} (o : t V) (k : string) (v : V) : t V :=
  match o with
  | [] => [(k, v)]
  | (k', v') :: o' =>
      if decide (k' = k) then (k', v) :: o' else (k', v') :: set o' k v
  end.

Definition created {V : Type} (o : t V) : list string := o.*1.

(** The functions of [Object.prototype]. *)
Definition prototypeFunctions : list string :=
  ["constructor"; "hasOwnProperty"; "isPrototypeOf"; "propertyIsEnumerable";
   "toLocaleString"; "toString"; "valueOf"; "__defineGetter__";
   "__defineSetter__"; "__lookupGetter__"; "__lookupSetter__"].

(** The names every plain object inherits: the functions, and the
    accessor [__proto__], which reads and replaces the prototype. *)
Definition inherited (k : string) : bool :=
  bool_decide (k = "__proto__" ∨ k ∈ prototypeFunctions).

(** The [name] of the member inherited at [k]:
    [Object.prototype.constructor] is the function [Object], a method
    is named after its property, and the prototype has no [name]. *)
Definition inheritedName (k : string) : option string :=
  if decide (k = "constructor") then Some "Object"
  else if decide (k ∈ prototypeFunctions) then Some k
  else None.

(** What a read finds: a value the program stored, the member of
    [Object.prototype] named [k], or [undefined]. *)
Inductive Value (V : Type) : Type :=
  | Stored (v : V)
  | Inherited (k : string)
  | Undefined.
Arguments Stored {V} v.
Arguments Inherited {V} k.
Arguments Undefined {V}.

(** [o[k]] *)
Definition read {V : Type} (o : t V) (k : string) : Value V :=
  match get o k with
  | Some v => Stored v
  | None => if inherited k then Inherited k else Undefined
  end.

(** [o[k] = v]. At [__proto__] the assignment runs the setter of the
    accessor, which creates no property: it ignores a primitive [v] and
    makes an object [v] the prototype, which is not part of [t]. *)
Definition assign {V : Type} (o : t V) (k : string) (v : V) : t V :=
  if decide (k = "__proto__") then o else set o k v.

(** An object together with the prototype an assignment to
    [__proto__] has given it. *)
Record Chained (V : Type) : Type := {
  own : t V;
  proto : option V
}.
Arguments own {V} c.
Arguments proto {V} c.

Definition emptyChained {V : Type} : Chained V :=
  {| own := empty; proto := None |}.

(** [o[k] = v] for an object [v]. *)
Definition assignObject {V : Type} (o : Chained V) (k : string) (v : V)
    : Chained V :=
  if decide (k = "__proto__") then {| own := own o; proto := Some v |}
  else {| own := set (own o) k v; proto := proto o |}.

(** [o[k]]. [__proto__] reads the prototype. The properties of a
    replaced prototype are read through it as well; those of a weekly
    record are its strings and its [shifts] object, on which the fields
    the merge asks for are [undefined], so that the read counts as
    [Undefined]. *)
Definition readChained {V : Type} (o : Chained V) (k : string) : Value V :=
  match get (own o) k with
  | Some v => Stored v
  | None =>
      if decide (k = "__proto__") then
        match proto o with
        | Some p => Stored p
        | None => Inherited k
        end
      else if inherited k then Inherited k
      else Undefined
  end.

Definition digit (c : ascii) : option N :=
  let n := N_of_ascii c in
  if ((48 <=? n) && (n <=? 57))%N then Some (n - 48)%N else None.

Fixpoint digits (s : string) (acc : N) : option N :=
  match s with
  | EmptyString => Some acc
  | String c r =>
      match digit c with
      | Some d => digits r (10 * acc + d)%N
      | None => None
      end
  end.

(** A key is an array index when it is the canonical decimal form of
    an integer below [2^32 - 1]. *)
Definition arrayIndex (s : string) : option N :=
  match s with
  | EmptyString => None
  | String "0"%char EmptyString => Some 0%N
  | String "0"%char _ => None
  | _ =>
      match digits s 0 with
      | Some n => if (n <? 4294967295)%N then Some n else None
      | None => None
      end
  end.

Definition isIndex (s : string) : Prop := is_Some (arrayIndex s).

Definition compareIndex (a b : string) : comparison :=
  Js.subSign N.compare (arrayIndex a) (arrayIndex b).

(** [Object.keys(o)]: array indices in ascending numeric order, then
    the other keys in creation order. *)
Definition keys {V : Type} (o : t V) : list string :=
  (Js.sort compareIndex (filter isIndex (created o))
     ++ filter (λ k, ¬ isIndex k) (created o))%list.

(** [Object.entries(o)] *)
Definition entries {V : Type} (o : t V) : list (string * option V) :=
  (λ k, (k, get o k)) <$> keys o.

End JsObject.

(** ** Data model *)

Module Staff.
(** An entry of [globalSettings.staffList]. *)
Record t : Type := mk {
  id : string;
  name : option string;
  employeeNumber : option string;
  defaultUnit : option string;
  defaultGroup : option string;
  defaultJobTitle : option string;
  isActive : bool;
  sortOrder : option Z
}.
End Staff.

Module Weekly.
(** An entry of a weekly schedule's [staff] array. *)
Record t : Type := mk {
  staffId : string;
  name : option string;
  unit : option string;
  group : option string;
  jobTitle : option string;
  shifts : option (gmap string string)
}.
End Weekly.

Module Entry.
(** The object [getStaffByUnit] builds for an active staff member. *)
Record t : Type := mk {
  staffId : string;
  name : option string;
  unit : string;
  displayUnit : string;
  isOrphanedUnit : bool;
  group : string;
  displayGroup : string;
  isOrphanedGroup : bool;
  jobTitle : string;
  displayJobTitle : string;
  isOrphanedJobTitle : bool;
  shifts : gmap string string;
  sortOrder : option Z;
  employeeNumber : string
}.
End Entry.

Record ShiftType : Type := {
  code : string;
  shiftName : string;
  color : string
}.

Record Settings : Type := {
  units : option (list string);
  groups : option (list string);
  jobTitles : option (list string);
  shiftTypes : option (list ShiftType);
  timeSlots : option (gmap string string);
  staffList : option (list Staff.t)
}.

Record WeeklySchedule : Type := {
  weekStartDate : string;
  staff : list Weekly.t
}.

Definition blankGlobalSettings : Settings :=
  {| units := Some []; groups := Some []; jobTitles := Some [];
     shiftTypes := Some []; timeSlots := Some ∅; staffList := Some [] |}.

(** [defaultWeeklySchedule], on the ISO date of the week's Monday. *)
Definition defaultWeeklySchedule (startDate : string) : WeeklySchedule :=
  {| weekStartDate := startDate; staff := [] |}.

(** ** The merge engine: [getStaffByUnit] *)

Section Merge.

(** [String.prototype.localeCompare], reduced to its sign. *)
Context (localeCompare : string → string → comparison).

(** The [reduce] that indexes the week's records by [staffId]. *)
Definition weeklyStaffDataMap (sched : option WeeklySchedule)
    : JsObject.Chained Weekly.t :=
  foldl (λ map weeklyStaff,
           JsObject.assignObject map (Weekly.staffId weeklyStaff) weeklyStaff)
        JsObject.emptyChained
        (default [] (staff <$> sched)).

(** [weeklyData?.unit], and likewise [group], [jobTitle] and [shifts]:
    no member of [Object.prototype] has such a property. *)
Definition weeklyField {A : Type} (field : Weekly.t → option A)
    (weeklyData : JsObject.Value Weekly.t) : option A :=
  match weeklyData with
  | JsObject.Stored r => field r
  | _ => None
  end.

(** [weeklyData?.name]: a function has a [name]. *)
Definition weeklyName (weeklyData : JsObject.Value Weekly.t)
    : option string :=
  match weeklyData with
  | JsObject.Stored r => Weekly.name r
  | JsObject.Inherited k => JsObject.inheritedName k
  | JsObject.Undefined => None
  end.

(** [weekly ?? global] *)
Definition effective (weekly : option string) (global : string) : string :=
  Js.nullish weekly global.

(** [!!weekly && !valid.has(weekly)] *)
Definition isOrphaned (valid : list string) (weekly : option string) : bool :=
  Js.truthy weekly && negb (Js.has valid (Js.orEmpty weekly)).

Definition deletedSuffix : string := " (törölt)".

Definition display (orphaned : bool) (value : string) : string :=
  if orphaned then value +:+ deletedSuffix else value.

Definition combineStaff (validUnits validGroups validJobTitles : list string)
    (weeklyMap : JsObject.Chained Weekly.t) (globalStaff : Staff.t)
    : Entry.t :=
  let weeklyData := JsObject.readChained weeklyMap (Staff.id globalStaff) in
  let weeklyUnit := weeklyField Weekly.unit weeklyData in
  let globalUnit := Js.nullish (Staff.defaultUnit globalStaff) "" in
  let effectiveUnit := effective weeklyUnit globalUnit in
  let isOrphanedUnit := isOrphaned validUnits weeklyUnit in
  let weeklyGroup := weeklyField Weekly.group weeklyData in
  let globalGroup := Js.nullish (Staff.defaultGroup globalStaff) "" in
  let effectiveGroup := effective weeklyGroup globalGroup in
  let isOrphanedGroup := isOrphaned validGroups weeklyGroup in
  let weeklyJobTitle := weeklyField Weekly.jobTitle weeklyData in
  let globalJobTitle := Js.nullish (Staff.defaultJobTitle globalStaff) "" in
  let effectiveJobTitle := effective weeklyJobTitle globalJobTitle in
  let isOrphanedJobTitle := isOrphaned validJobTitles weeklyJobTitle in
  {| Entry.staffId := Staff.id globalStaff;
     Entry.name :=
       match weeklyName weeklyData with
       | Some n => Some n
       | None => Staff.name globalStaff
       end;
     Entry.unit := effectiveUnit;
     Entry.displayUnit := display isOrphanedUnit effectiveUnit;
     Entry.isOrphanedUnit := isOrphanedUnit;
     Entry.group := effectiveGroup;
     Entry.displayGroup := display isOrphanedGroup effectiveGroup;
     Entry.isOrphanedGroup := isOrphanedGroup;
     Entry.jobTitle := effectiveJobTitle;
     Entry.displayJobTitle := display isOrphanedJobTitle effectiveJobTitle;
     Entry.isOrphanedJobTitle := isOrphanedJobTitle;
     Entry.shifts := Js.nullish (weeklyField Weekly.shifts weeklyData) ∅;
     Entry.sortOrder := Staff.sortOrder globalStaff;
     Entry.employeeNumber := Js.nullish (Staff.employeeNumber globalStaff) "" |}.

(** One step of the [reduce] that groups the combined entries by
    [staff.unit || ""]: a bucket is created where [acc[unitKey]] is
    falsy, then the entry is pushed. Where [unitKey] names a member of
    [Object.prototype] the read finds that member, no bucket is created,
    and [push], which the member does not have, is not a function: the
    call throws a [TypeError], which is [None]. *)
Definition groupStep (acc : JsObject.t (list Entry.t)) (staff : Entry.t)
    : option (JsObject.t (list Entry.t)) :=
  let unitKey := Entry.unit staff in
  let acc' :=
    match JsObject.read acc unitKey with
    | JsObject.Undefined => JsObject.set acc unitKey []
    | _ => acc
    end in
  match JsObject.read acc' unitKey with
  | JsObject.Stored bucket =>
      Some (JsObject.set acc' unitKey (bucket ++ [staff])%list)
  | _ => None
  end.

Definition groupByUnit (combinedStaffList : list Entry.t)
    : option (JsObject.t (list Entry.t)) :=
  foldl (λ acc staff, acc ≫= λ acc, groupStep acc staff)
        (Some JsObject.empty) combinedStaffList.

(** [createOrderMap]; the default [items = []] stands in for a list
    that is [undefined], which is what [None] is for the lists of the
    settings. *)
Definition createOrderMap (items : option (list string)) : JsObject.t nat :=
  foldl (λ map '(index, item), JsObject.assign map item index)
        JsObject.empty
        (imap pair (default [] items)).

(** [orderMap[value] ?? Infinity] *)
Definition orderIndex (orderMap : JsObject.t nat) (value : string)
    : Js.Index :=
  match JsObject.read orderMap value with
  | JsObject.Stored index => Js.Position index
  | JsObject.Inherited k => Js.Member k
  | JsObject.Undefined => Js.Infinity
  end.

(** The sort index of a unit key: [Infinity] for the empty key and for a
    key outside the units. *)
Definition unitIndex (validUnits : list string)
    (unitOrderMap : JsObject.t nat) (a : string) : Js.Index :=
  if decide (a = "") then Js.Infinity
  else if Js.has validUnits a then orderIndex unitOrderMap a
  else Js.Infinity.

Definition compareUnitKeys (validUnits : list string)
    (unitOrderMap : JsObject.t nat) (a b : string) : comparison :=
  let indexA := unitIndex validUnits unitOrderMap a in
  let indexB := unitIndex validUnits unitOrderMap b in
  if decide (a = "") then Gt
  else if decide (b = "") then Lt
  else if decide (indexA = Js.Infinity ∧ indexB ≠ Js.Infinity) then Gt
  else if decide (indexA ≠ Js.Infinity ∧ indexB = Js.Infinity) then Lt
  else if decide (indexA = Js.Infinity ∧ indexB = Js.Infinity) then
    localeCompare a b
  else Js.minus indexA indexB.

(** The sort index of a group or job title: [Infinity] when flagged
    orphaned or missing from the order map. *)
Definition categoryIndex (orphaned : bool) (orderMap : JsObject.t nat)
    (value : string) : Js.Index :=
  if orphaned then Js.Infinity else orderIndex orderMap value.

(** One sort key of the entry comparator; [None] means that the
    comparator goes on to its next key. *)
Definition compareCategory (orderMap : JsObject.t nat)
    (orphanedA orphanedB : bool) (valueA valueB : string)
    : option comparison :=
  let indexA := categoryIndex orphanedA orderMap valueA in
  let indexB := categoryIndex orphanedB orderMap valueB in
  if decide (indexA ≠ indexB) then
    if decide (indexA = Js.Infinity ∧ indexB ≠ Js.Infinity) then Some Gt
    else if decide (indexA ≠ Js.Infinity ∧ indexB = Js.Infinity) then Some Lt
    else Some (Js.minus indexA indexB)
  else if orphanedA && orphanedB then
    match localeCompare valueA valueB with
    | Eq => None
    | c => Some c
    end
  else None.

Definition compareEntries (groupOrderMap jobTitleOrderMap : JsObject.t nat)
    (a b : Entry.t) : comparison :=
  match compareCategory groupOrderMap
          (Entry.isOrphanedGroup a) (Entry.isOrphanedGroup b)
          (Entry.group a) (Entry.group b) with
  | Some c => c
  | None =>
  match compareCategory jobTitleOrderMap
          (Entry.isOrphanedJobTitle a) (Entry.isOrphanedJobTitle b)
          (Entry.jobTitle a) (Entry.jobTitle b) with
  | Some c => c
  | None =>
      if decide (Entry.sortOrder a ≠ Entry.sortOrder b) then
        Js.subSign Z.compare (Entry.sortOrder a) (Entry.sortOrder b)
      else
        localeCompare (Js.orEmpty (Entry.name a)) (Js.orEmpty (Entry.name b))
  end
  end.

Definition combinedStaffList (gs : Settings) (sched : option WeeklySchedule)
    (activeGlobalStaff : list Staff.t) : list Entry.t :=
  combineStaff (default [] (units gs)) (default [] (groups gs))
               (default [] (jobTitles gs)) (weeklyStaffDataMap sched)
    <$> activeGlobalStaff.

Definition sortedUnitKeys (gs : Settings)
    (groupedByUnit : JsObject.t (list Entry.t)) : list string :=
  Js.sort (compareUnitKeys (default [] (units gs)) (createOrderMap (units gs)))
          (JsObject.keys groupedByUnit).

(** The [forEach] that sorts each bucket and stores it in the result. *)
Definition finalSortedResult (gs : Settings)
    (groupedByUnit : JsObject.t (list Entry.t)) (unitKeys : list string)
    : JsObject.t (list Entry.t) :=
  foldl (λ result unitKey,
           JsObject.assign result unitKey
             (Js.sort (compareEntries (createOrderMap (groups gs))
                                      (createOrderMap (jobTitles gs)))
                      (default [] (JsObject.get groupedByUnit unitKey))))
        JsObject.empty unitKeys.

(** [getStaffByUnit], on the pieces of hook state it reads; [None] is
    the [TypeError] of the grouping. *)
Definition getStaffByUnit (settingsLoading scheduleLoading : bool)
    (globalSettings : option Settings)
    (currentWeeklySchedule : option WeeklySchedule)
    : option (JsObject.t (list Entry.t)) :=
  if settingsLoading || scheduleLoading then Some JsObject.empty
  else match globalSettings with
  | None => Some JsObject.empty
  | Some gs =>
      let activeGlobalStaff :=
        filter (λ s, Staff.isActive s = true) (default [] (staffList gs)) in
      if decide (length activeGlobalStaff = 0) then Some JsObject.empty
      else
        groupedByUnit ←
          groupByUnit (combinedStaffList gs currentWeeklySchedule
                         activeGlobalStaff);
        Some (finalSortedResult gs groupedByUnit
                (sortedUnitKeys gs groupedByUnit))
  end.

End Merge.


(** ** Hook state and the document store *)

(** The React state of the hook, the two documents of the signed-in user
    it reads and writes, and the outcomes of the coming [setDoc] calls
    ([Some message] is a rejected write; a missing outcome is a
    successful one). *)
Record World : Type := {
  currentUser : option string;
  currentWeekStartDate : string;
  globalSettings : option Settings;
  currentWeeklySchedule : option WeeklySchedule;
  settingsLoading : bool;
  scheduleLoading : bool;
  saveError : option string;
  settingsDoc : option Settings;
  weeklyDocs : gmap string WeeklySchedule;
  setDocOutcomes : list (option string)
}.

Definition Hook (A : Type) : Type := World → A * World.

Definition ret {A : Type} (a : A) : Hook A := λ w, (a, w).

Definition bind {A B : Type} (m : Hook A) (k : A → Hook B) : Hook B :=
  λ w, let (a, w') := m w in k a w'.

Notation "'let!' x ':=' m 'in' k" := (bind m (λ x, k))
  (at level 10, x name, m at level 100, k at level 200).

Notation "m ';;' k" := (bind m (λ _, k))
  (at level 100, k at level 200, right associativity).

Definition getWorld : Hook World := λ w, (w, w).

Definition setSaveError (e : option string) : Hook () := λ w,
  (tt, {| currentUser := currentUser w;
          currentWeekStartDate := currentWeekStartDate w;
          globalSettings := globalSettings w;
          currentWeeklySchedule := currentWeeklySchedule w;
          settingsLoading := settingsLoading w;
          scheduleLoading := scheduleLoading w;
          saveError := e;
          settingsDoc := settingsDoc w;
          weeklyDocs := weeklyDocs w;
          setDocOutcomes := setDocOutcomes w |}).

Definition setCurrentWeeklySchedule (s : option WeeklySchedule) : Hook () := λ w,
  (tt, {| currentUser := currentUser w;
          currentWeekStartDate := currentWeekStartDate w;
          globalSettings := globalSettings w;
          currentWeeklySchedule := s;
          settingsLoading := settingsLoading w;
          scheduleLoading := scheduleLoading w;
          saveError := saveError w;
          settingsDoc := settingsDoc w;
          weeklyDocs := weeklyDocs w;
          setDocOutcomes := setDocOutcomes w |}).

Definition setScheduleLoading (b : bool) : Hook () := λ w,
  (tt, {| currentUser := currentUser w;
          currentWeekStartDate := currentWeekStartDate w;
          globalSettings := globalSettings w;
          currentWeeklySchedule := currentWeeklySchedule w;
          settingsLoading := settingsLoading w;
          scheduleLoading := b;
          saveError := saveError w;
          settingsDoc := settingsDoc w;
          weeklyDocs := weeklyDocs w;
          setDocOutcomes := setDocOutcomes w |}).

(** A [setDoc] call takes the next outcome; [write] is applied to the
    documents when the outcome is a success, and the rejection message is
    returned otherwise. *)
Definition setDoc
    (write : option Settings * gmap string WeeklySchedule →
             option Settings * gmap string WeeklySchedule)
    : Hook (option string) := λ w,
  let outcome := default None (head (setDocOutcomes w)) in
  let docs :=
    match outcome with
    | None => write (settingsDoc w, weeklyDocs w)
    | Some _ => (settingsDoc w, weeklyDocs w)
    end in
  (outcome,
   {| currentUser := currentUser w;
      currentWeekStartDate := currentWeekStartDate w;
      globalSettings := globalSettings w;
      currentWeeklySchedule := currentWeeklySchedule w;
      settingsLoading := settingsLoading w;
      scheduleLoading := scheduleLoading w;
      saveError := saveError w;
      settingsDoc := docs.1;
      weeklyDocs := docs.2;
      setDocOutcomes := tail (setDocOutcomes w) |}).

(** [setDoc(ref, data, { merge: true })] on the settings document: the
    fields of [data] replace those of the stored document, the keys of the
    [timeSlots] map are merged. *)
Definition mergeSettings (old : option Settings) (data : Settings) : Settings :=
  match old with
  | None => data
  | Some o =>
      {| units := from_option Some (units o) (units data);
         groups := from_option Some (groups o) (groups data);
         jobTitles := from_option Some (jobTitles o) (jobTitles data);
         shiftTypes := from_option Some (shiftTypes o) (shiftTypes data);
         timeSlots :=
           match timeSlots data, timeSlots o with
           | Some new, Some cur => Some (new ∪ cur)
           | Some new, None => Some new
           | None, cur => cur
           end;
         staffList := from_option Some (staffList o) (staffList data) |}
  end.

(** ** Core save operations *)

Definition isEmpty {A : Type} (arr : list A) : bool :=
  bool_decide (length arr = 0).

Definition isEmptyObj (obj : gmap string string) : bool :=
  bool_decide (size obj = 0).

Definition missingDataMessage : string :=
  "Mentési hiba: Hiányzó adatok vagy referencia.".

Definition categoriesDeletedMessage : string :=
  "Biztonsági figyelmeztetés: Minden kategória (egységek, csoportok, munkakörök) törlésre kerülne, de a személyzet és műszakok megmaradnának. Ez valószínűleg nem szándékos. Ellenőrizze az adatokat.".

Definition everythingDeletedMessage : string :=
  "Biztonsági figyelmeztetés: Az összes beállítás törlésre kerülne (egységek, csoportok, munkakörök, személyzet, műszaktípusok). Ez valószínűleg nem szándékos. Ha valóban törölni szeretné az összes adatot, használja a 'Demó adatok' funkciót a beállítások újbóli feltöltéséhez.".

(** The safety check of [saveGlobalSettings]: the message of the blocked
    save, or [None] when the save may go on. *)
Definition safetyCheck (globalSettings : option Settings)
    (newSettings : Settings) : option string :=
  let newUnits := default [] (units newSettings) in
  let newGroups := default [] (groups newSettings) in
  let newJobTitles := default [] (jobTitles newSettings) in
  let newStaffList := default [] (staffList newSettings) in
  let newShiftTypes := default [] (shiftTypes newSettings) in
  let newTimeSlots := default ∅ (timeSlots newSettings) in
  let allCategoriesEmpty :=
    isEmpty newUnits && isEmpty newGroups && isEmpty newJobTitles in
  let allDataEmpty :=
    allCategoriesEmpty && isEmpty newStaffList && isEmpty newShiftTypes
    && isEmptyObj newTimeSlots in
  match globalSettings with
  | Some gs =>
      if negb allDataEmpty then
        let currentUnits := default [] (units gs) in
        let currentGroups := default [] (groups gs) in
        let currentJobTitles := default [] (jobTitles gs) in
        let currentStaffList := default [] (staffList gs) in
        let currentShiftTypes := default [] (shiftTypes gs) in
        let hadData :=
          bool_decide (0 < length currentUnits)
          || bool_decide (0 < length currentGroups)
          || bool_decide (0 < length currentJobTitles)
          || bool_decide (0 < length currentStaffList)
          || bool_decide (0 < length currentShiftTypes) in
        if hadData && allCategoriesEmpty
           && (negb (isEmpty newStaffList) || negb (isEmpty newShiftTypes))
        then Some categoriesDeletedMessage
        else if hadData && allDataEmpty then Some everythingDeletedMessage
        else None
      else None
  | None => None
  end.

(** [(a.sortOrder ?? Infinity) - (b.sortOrder ?? Infinity)] *)
Definition compareSortOrder (a b : Staff.t) : comparison :=
  Js.subSign Z.compare (Staff.sortOrder a) (Staff.sortOrder b).

Definition settingsToSave (newSettings : Settings) : Settings :=
  {| units := units newSettings;
     groups := groups newSettings;
     jobTitles := jobTitles newSettings;
     shiftTypes := shiftTypes newSettings;
     timeSlots := timeSlots newSettings;
     staffList :=
       Some (Js.sort compareSortOrder (default [] (staffList newSettings))) |}.

Definition saveGlobalSettings (newSettings : option Settings)
    (bypassSafetyChecks : bool) : Hook bool :=
  let! w := getWorld in
  match currentUser w, newSettings with
  | Some _, Some newSettings =>
      setSaveError None ;;
      match (if bypassSafetyChecks then None
             else safetyCheck (globalSettings w) newSettings) with
      | Some message => setSaveError (Some message) ;; ret false
      | None =>
          let! thrown :=
            setDoc (λ docs,
              (Some (mergeSettings docs.1 (settingsToSave newSettings)),
               docs.2)) in
          match thrown with
          | None => ret true
          | Some message =>
              setSaveError
                (Some ("Globális beállítások mentése sikertelen: " +:+ message)) ;;
              ret false
          end
      end
  | _, _ => setSaveError (Some missingDataMessage) ;; ret false
  end.

(** The record [saveWeeklySchedule] and [updateStaffInWeeklySchedule]
    store for a staff member: every field defaulted with [||]. *)
Definition cleanRecord (s : Weekly.t) : Weekly.t :=
  {| Weekly.staffId := Weekly.staffId s;
     Weekly.name := Some (Js.orEmpty (Weekly.name s));
     Weekly.unit := Some (Js.orEmpty (Weekly.unit s));
     Weekly.group := Some (Js.orEmpty (Weekly.group s));
     Weekly.jobTitle := Some (Js.orEmpty (Weekly.jobTitle s));
     Weekly.shifts := Some (default ∅ (Weekly.shifts s)) |}.

(** [saveWeeklySchedule]. The week is named by a string of the form
    [YYYY-MM-DD], which [getWeeklyScheduleRef] takes as the name of the
    document as it is. *)
Definition saveWeeklySchedule (weekStartDateStr : string)
    (newScheduleData : WeeklySchedule) : Hook bool :=
  let! w := getWorld in
  match currentUser w with
  | None => ret false
  | Some _ =>
      let scheduleToSave :=
        {| weekStartDate := weekStartDate newScheduleData;
           staff := cleanRecord <$> staff newScheduleData |} in
      setSaveError None ;;
      let! thrown :=
        setDoc (λ docs, (docs.1, <[weekStartDateStr := scheduleToSave]> docs.2)) in
      match thrown with
      | None => ret true
      | Some message =>
          setSaveError (Some ("Heti beosztás mentése sikertelen: " +:+ message)) ;;
          ret false
      end
  end.

(** ** Global settings: the staff list *)

Module StaffPatch.
(** The argument of [updateStaffInList]: the [id] and the keys that the
    object carries ([Some v] is a key present with value [v]). *)
Record t : Type := mk {
  id : string;
  name : option (option string);
  employeeNumber : option (option string);
  defaultUnit : option (option string);
  defaultGroup : option (option string);
  defaultJobTitle : option (option string);
  isActive : option bool;
  sortOrder : option (option Z)
}.
End StaffPatch.

(** [{ ...staff, ...staffMemberCoreData }] *)
Definition spread (staff : Staff.t) (data : StaffPatch.t) : Staff.t :=
  {| Staff.id := StaffPatch.id data;
     Staff.name := default (Staff.name staff) (StaffPatch.name data);
     Staff.employeeNumber :=
       default (Staff.employeeNumber staff) (StaffPatch.employeeNumber data);
     Staff.defaultUnit :=
       default (Staff.defaultUnit staff) (StaffPatch.defaultUnit data);
     Staff.defaultGroup :=
       default (Staff.defaultGroup staff) (StaffPatch.defaultGroup data);
     Staff.defaultJobTitle :=
       default (Staff.defaultJobTitle staff) (StaffPatch.defaultJobTitle data);
     Staff.isActive := default (Staff.isActive staff) (StaffPatch.isActive data);
     Staff.sortOrder := default (Staff.sortOrder staff) (StaffPatch.sortOrder data) |}.

(** [{ ...staff, sortOrder }] *)
Definition withSortOrder (staff : Staff.t) (sortOrder : option Z) : Staff.t :=
  {| Staff.id := Staff.id staff;
     Staff.name := Staff.name staff;
     Staff.employeeNumber := Staff.employeeNumber staff;
     Staff.defaultUnit := Staff.defaultUnit staff;
     Staff.defaultGroup := Staff.defaultGroup staff;
     Staff.defaultJobTitle := Staff.defaultJobTitle staff;
     Staff.isActive := Staff.isActive staff;
     Staff.sortOrder := sortOrder |}.

(** [{ ...globalSettings, staffList }] *)
Definition withStaffList (gs : Settings) (newStaffList : list Staff.t) : Settings :=
  {| units := units gs;
     groups := groups gs;
     jobTitles := jobTitles gs;
     shiftTypes := shiftTypes gs;
     timeSlots := timeSlots gs;
     staffList := Some newStaffList |}.

(** [.map((staff, index) => ({ ...staff, sortOrder: index }))] *)
Definition reindex (l : list Staff.t) : list Staff.t :=
  imap (λ index staff, withSortOrder staff (Some (Z.of_nat index))) l.

(** The list [addStaffToList] passes to [saveGlobalSettings]. A missing
    [sortOrder] of the new member becomes the length of the list. *)
Definition addedStaffList (gs : Settings) (staffMemberCoreData : Staff.t)
    : list Staff.t :=
  let current := default [] (staffList gs) in
  Js.sort compareSortOrder
    (current ++
     [withSortOrder staffMemberCoreData
        (Some (Js.nullish (Staff.sortOrder staffMemberCoreData)
                          (Z.of_nat (length current))))])%list.

Definition addStaffToList (staffMemberCoreData : Staff.t) : Hook bool :=
  let! w := getWorld in
  match globalSettings w with
  | Some gs =>
      if decide (Staff.id staffMemberCoreData = "") then
        setSaveError (Some "Érvénytelen dolgozói adat a hozzáadáshoz.") ;;
        ret false
      else if bool_decide (Exists (λ s, Staff.id s = Staff.id staffMemberCoreData)
                             (default [] (staffList gs))) then
        setSaveError
          (Some ("Hiba: " +:+ Staff.id staffMemberCoreData
                 +:+ " azonosítójú dolgozó már létezik.")) ;;
        ret false
      else
        saveGlobalSettings
          (Some (withStaffList gs (addedStaffList gs staffMemberCoreData))) false
  | None =>
      setSaveError (Some "Érvénytelen dolgozói adat a hozzáadáshoz.") ;;
      ret false
  end.

(** The list [updateStaffInList] passes to [saveGlobalSettings]. *)
Definition updatedStaffList (gs : Settings) (staffMemberCoreData : StaffPatch.t)
    : list Staff.t :=
  Js.sort compareSortOrder
    ((λ staff,
        if decide (Staff.id staff = StaffPatch.id staffMemberCoreData)
        then spread staff staffMemberCoreData
        else staff)
     <$> default [] (staffList gs)).

Definition updateStaffInList (staffMemberCoreData : StaffPatch.t) : Hook bool :=
  let! w := getWorld in
  match globalSettings w with
  | Some gs =>
      if decide (StaffPatch.id staffMemberCoreData = "") then
        setSaveError (Some "Érvénytelen dolgozói adat a frissítéshez.") ;;
        ret false
      else
        saveGlobalSettings
          (Some (withStaffList gs (updatedStaffList gs staffMemberCoreData))) false
  | None =>
      setSaveError (Some "Érvénytelen dolgozói adat a frissítéshez.") ;;
      ret false
  end.

(** The list [deleteStaffFromList] passes to [saveGlobalSettings]. *)
Definition remainingStaffList (gs : Settings) (staffId : string) : list Staff.t :=
  reindex (filter (λ staff, Staff.id staff ≠ staffId) (default [] (staffList gs))).

(** The list [updateStaffListOrder] passes to [saveGlobalSettings]. *)
Definition reorderedStaffList (orderedStaffList : list Staff.t) : list Staff.t :=
  reindex orderedStaffList.

Definition updateStaffListOrder (orderedStaffList : list Staff.t) : Hook bool :=
  let! w := getWorld in
  match globalSettings w with
  | Some gs =>
      saveGlobalSettings
        (Some (withStaffList gs (reorderedStaffList orderedStaffList))) false
  | None => ret false
  end.

(** ** The weekly schedule of the current week *)

(** [{ ...schedule, staff }] *)
Definition withStaff (schedule : WeeklySchedule) (newStaff : list Weekly.t)
    : WeeklySchedule :=
  {| weekStartDate := weekStartDate schedule; staff := newStaff |}.

Definition hasStaff (schedule : WeeklySchedule) (staffId : string) : bool :=
  bool_decide (Exists (λ s, Weekly.staffId s = staffId) (staff schedule)).

Definition updateStaffInWeeklySchedule (staffMemberWeeklyData : Weekly.t)
    : Hook () :=
  let! w := getWorld in
  if decide (Weekly.staffId staffMemberWeeklyData = "") then
    setSaveError (Some "Hiba: Érvénytelen heti dolgozói adat a frissítéshez.")
  else
    let baseSchedule :=
      default (defaultWeeklySchedule (currentWeekStartDate w))
              (currentWeeklySchedule w) in
    let existingIndex :=
      list_find (λ s, Weekly.staffId s = Weekly.staffId staffMemberWeeklyData)
                (staff baseSchedule) in
    let dataToStore := cleanRecord staffMemberWeeklyData in
    let newStaffArray :=
      match existingIndex with
      | Some (index, _) => <[index := dataToStore]> (staff baseSchedule)
      | None => (staff baseSchedule ++ [dataToStore])%list
      end in
    let newSchedule := withStaff baseSchedule newStaffArray in
    setCurrentWeeklySchedule (Some newSchedule) ;;
    let! _ := saveWeeklySchedule (currentWeekStartDate w) newSchedule in
    ret tt.

Definition removeStaffFromWeeklySchedule (staffId : string) : Hook () :=
  let! w := getWorld in
  match currentWeeklySchedule w with
  | Some schedule =>
      if hasStaff schedule staffId then
        let newSchedule :=
          withStaff schedule
            (filter (λ s, Weekly.staffId s ≠ staffId) (staff schedule)) in
        setCurrentWeeklySchedule (Some newSchedule) ;;
        let! _ := saveWeeklySchedule (currentWeekStartDate w) newSchedule in
        ret tt
      else ret tt
  | None => ret tt
  end.

Definition deleteStaffFromList (staffId : string) : Hook bool :=
  let! w := getWorld in
  match globalSettings w with
  | Some gs =>
      if decide (staffId = "") then
        setSaveError (Some "Érvénytelen dolgozói ID a törléshez.") ;;
        ret false
      else
        let! success :=
          saveGlobalSettings
            (Some (withStaffList gs (remainingStaffList gs staffId))) false in
        (if success
            && from_option (λ s, hasStaff s staffId) false (currentWeeklySchedule w)
         then removeStaffFromWeeklySchedule staffId
         else ret tt) ;;
        ret success
  | None =>
      setSaveError (Some "Érvénytelen dolgozói ID a törléshez.") ;;
      ret false
  end.

(** ** Copying a week *)

Section Copy.

(** Dates: [addDays d i] is [d] after [setDate(getDate() + i)], and
    [isoDate d] is [d.toISOString().split("T")[0]]. *)
Context {Date : Type}.
Context (addDays : Date → nat → Date).
Context (isoDate : Date → string).

(** [getWeekDates] of [utils/helpers.js]: Monday to Saturday. *)
Definition getWeekDates (startDate : Date) : list Date :=
  (λ index, addDays startDate index) <$> seq 0 6.

(** The [forEach] that fills [newShifts] for one source record. *)
Definition newShifts (sourceWeekDate : Date) (targetWeekDates : list Date)
    (sourceStaff : Weekly.t) : gmap string string :=
  foldl (λ acc '(dayIndex, targetDate),
           let targetDateStr := isoDate targetDate in
           let sourceDayDateStr := isoDate (addDays sourceWeekDate dayIndex) in
           <[targetDateStr :=
               Js.orEmpty (Weekly.shifts sourceStaff ≫= (.!! sourceDayDateStr))]> acc)
        ∅ (imap pair targetWeekDates).

(** The callback of the [map] over the source records; [None] is the
    [null] of a skipped record. *)
Definition copyStaff (gs : Settings) (sourceWeekDate : Date)
    (targetWeekDates : list Date) (sourceStaff : Weekly.t) : option Weekly.t :=
  let globalStaffInfo :=
    staffList gs ≫=
      (λ l, snd <$> list_find (λ s, Staff.id s = Weekly.staffId sourceStaff) l) in
  match globalStaffInfo with
  | None => None
  | Some info =>
      if negb (Staff.isActive info) then None
      else
        Some {| Weekly.staffId := Weekly.staffId sourceStaff;
                Weekly.name :=
                  from_option Some (Staff.name info) (Weekly.name sourceStaff);
                Weekly.unit :=
                  from_option Some (Staff.defaultUnit info) (Weekly.unit sourceStaff);
                Weekly.group :=
                  from_option Some (Staff.defaultGroup info) (Weekly.group sourceStaff);
                Weekly.jobTitle :=
                  from_option Some (Staff.defaultJobTitle info)
                              (Weekly.jobTitle sourceStaff);
                Weekly.shifts :=
                  Some (newShifts sourceWeekDate targetWeekDates sourceStaff) |}
  end.

Definition newTargetStaff (gs : Settings) (sourceWeekDate targetWeekDate : Date)
    (sourceData : WeeklySchedule) : list Weekly.t :=
  omap (copyStaff gs sourceWeekDate (getWeekDates targetWeekDate))
       (staff sourceData).

Definition copyScheduleFromWeek (sourceWeekDate targetWeekDate : Date)
    : Hook bool :=
  let! w := getWorld in
  match currentUser w, globalSettings w with
  | Some _, Some gs =>
      setScheduleLoading true ;;
      setSaveError None ;;
      let sourceWeekStr := isoDate sourceWeekDate in
      let targetWeekStr := isoDate targetWeekDate in
      match weeklyDocs w !! sourceWeekStr with
      | None => setScheduleLoading false ;; ret false
      | Some sourceData =>
          let newTargetSchedule :=
            {| weekStartDate := targetWeekStr;
               staff := newTargetStaff gs sourceWeekDate targetWeekDate sourceData |} in
          let! thrown :=
            setDoc (λ docs, (docs.1, <[targetWeekStr := newTargetSchedule]> docs.2)) in
          match thrown with
          | None =>
              (if decide (targetWeekStr = currentWeekStartDate w)
               then setCurrentWeeklySchedule (Some newTargetSchedule)
               else ret tt) ;;
              setScheduleLoading false ;;
              ret true
          | Some message =>
              setSaveError (Some ("Másolás sikertelen: " +:+ message)) ;;
              setScheduleLoading false ;;
              ret false
          end
      end
  | _, _ => ret false
  end.

End Copy.

(** ** Global settings: categories and shift types *)

(** The key of a category list in the settings: ['units'], ['groups'] or
    ['jobTitles']. *)
Inductive Category : Type :=
  | UnitsKey
  | GroupsKey
  | JobTitlesKey.

Definition categoryName (categoryKey : Category) : string :=
  match categoryKey with
  | UnitsKey => "units"
  | GroupsKey => "groups"
  | JobTitlesKey => "jobTitles"
  end.

(** [globalSettings[categoryKey]] *)
Definition categoryItems (gs : Settings) (categoryKey : Category)
    : option (list string) :=
  match categoryKey with
  | UnitsKey => units gs
  | GroupsKey => groups gs
  | JobTitlesKey => jobTitles gs
  end.

(** [{ ...globalSettings, [categoryKey]: items }] *)
Definition withCategory (gs : Settings) (categoryKey : Category)
    (items : list string) : Settings :=
  {| units := if categoryKey is UnitsKey then Some items else units gs;
     groups := if categoryKey is GroupsKey then Some items else groups gs;
     jobTitles := if categoryKey is JobTitlesKey then Some items else jobTitles gs;
     shiftTypes := shiftTypes gs;
     timeSlots := timeSlots gs;
     staffList := staffList gs |}.

(** The double quote character, as a string. *)
Definition quote : string := String (ascii_of_nat 34) EmptyString.

Section Categories.

(** [String.prototype.trim] and [String.prototype.toLowerCase]. *)
Context (trim toLowerCase : string → string).

Definition addCategoryItem (item : string) (categoryKey : Category) : Hook bool :=
  let! w := getWorld in
  let trimmedItem := trim item in
  match globalSettings w with
  | Some gs =>
      if decide (trimmedItem = "") then ret false
      else if bool_decide
                (Exists (λ existing, toLowerCase existing = toLowerCase trimmedItem)
                        (default [] (categoryItems gs categoryKey))) then
        setSaveError
          (Some (quote +:+ trimmedItem +:+ quote +:+ " már létezik a(z) "
                 +:+ categoryName categoryKey +:+ " listában.")) ;;
        ret false
      else
        saveGlobalSettings
          (Some (withCategory gs categoryKey
                   (default [] (categoryItems gs categoryKey) ++ [trimmedItem])%list))
          false
  | None => ret false
  end.

Definition handleAddUnit (unit : string) : Hook bool :=
  addCategoryItem unit UnitsKey.

Definition handleAddGroup (group : string) : Hook bool :=
  addCategoryItem group GroupsKey.

Definition handleAddJobTitle (jobTitle : string) : Hook bool :=
  addCategoryItem jobTitle JobTitlesKey.

End Categories.

Definition removeCategoryItem (item : string) (categoryKey : Category) : Hook bool :=
  let! w := getWorld in
  match globalSettings w with
  | None =>
      setSaveError (Some "Hiba: Beállítások nincsenek betöltve a törléshez.") ;;
      ret false
  | Some gs =>
      if decide (item = "") then ret false
      else
        let currentItems := default [] (categoryItems gs categoryKey) in
        if negb (bool_decide (item ∈ currentItems)) then ret false
        else
          saveGlobalSettings
            (Some (withCategory gs categoryKey
                     (filter (λ i, i ≠ item) currentItems)))
            false
  end.

Definition handleRemoveUnit (unit : string) : Hook bool :=
  removeCategoryItem unit UnitsKey.

Definition handleRemoveGroup (group : string) : Hook bool :=
  removeCategoryItem group GroupsKey.

Definition handleRemoveJobTitle (jobTitle : string) : Hook bool :=
  removeCategoryItem jobTitle JobTitlesKey.


(** ** Utility: [getShiftColor] *)

Definition getShiftColor (globalSettings : option Settings) (shiftCode : string)
    : string :=
  match globalSettings ≫= shiftTypes with
  | None => "#ffffff"
  | Some types =>
      match list_find (λ type, code type = shiftCode) types with
      | Some (_, shiftType) =>
          if decide (color shiftType = "") then "#ffffff" else color shiftType
      | None => "#ffffff"
      end
  end.

(** ** The snapshot listeners *)

Module StoredStaff.
(** A staff member as the settings document holds it: the [isActive] key
    may be missing. *)
Record t : Type := mk {
  id : string;
  name : option string;
  employeeNumber : option string;
  defaultUnit : option string;
  defaultGroup : option string;
  defaultJobTitle : option string;
  isActive : option bool;
  sortOrder : option Z
}.
End StoredStaff.

(** The data of a snapshot of the settings document. *)
Record StoredSettings : Type := {
  storedUnits : option (list string);
  storedGroups : option (list string);
  storedJobTitles : option (list string);
  storedShiftTypes : option (list ShiftType);
  storedTimeSlots : option (gmap string string);
  storedStaffList : option (list StoredStaff.t)
}.

(** [{ isActive: true, sortOrder: Infinity, ...staff }] *)
Definition withDefaults (staff : StoredStaff.t) : Staff.t :=
  {| Staff.id := StoredStaff.id staff;
     Staff.name := StoredStaff.name staff;
     Staff.employeeNumber := StoredStaff.employeeNumber staff;
     Staff.defaultUnit := StoredStaff.defaultUnit staff;
     Staff.defaultGroup := StoredStaff.defaultGroup staff;
     Staff.defaultJobTitle := StoredStaff.defaultJobTitle staff;
     Staff.isActive := default true (StoredStaff.isActive staff);
     Staff.sortOrder := StoredStaff.sortOrder staff |}.

(** The settings the listener puts in the state for the data of a
    snapshot. *)
Definition loadedSettings (data : StoredSettings) : Settings :=
  {| units := storedUnits data;
     groups := storedGroups data;
     jobTitles := storedJobTitles data;
     shiftTypes := storedShiftTypes data;
     timeSlots := storedTimeSlots data;
     staffList :=
       Some (Js.sort compareSortOrder
               (withDefaults <$> default [] (storedStaffList data))) |}.

Definition setGlobalSettings (s : option Settings) : Hook () := λ w,
  (tt, {| currentUser := currentUser w;
          currentWeekStartDate := currentWeekStartDate w;
          globalSettings := s;
          currentWeeklySchedule := currentWeeklySchedule w;
          settingsLoading := settingsLoading w;
          scheduleLoading := scheduleLoading w;
          saveError := saveError w;
          settingsDoc := settingsDoc w;
          weeklyDocs := weeklyDocs w;
          setDocOutcomes := setDocOutcomes w |}).

Definition setSettingsLoading (b : bool) : Hook () := λ w,
  (tt, {| currentUser := currentUser w;
          currentWeekStartDate := currentWeekStartDate w;
          globalSettings := globalSettings w;
          currentWeeklySchedule := currentWeeklySchedule w;
          settingsLoading := b;
          scheduleLoading := scheduleLoading w;
          saveError := saveError w;
          settingsDoc := settingsDoc w;
          weeklyDocs := weeklyDocs w;
          setDocOutcomes := setDocOutcomes w |}).

(** The success callback of the settings listener; [None] is a snapshot
    of a document that does not exist. *)
Definition onGlobalSettingsSnapshot (docSnap : option StoredSettings) : Hook () :=
  match docSnap with
  | Some data =>
      setGlobalSettings (Some (loadedSettings data)) ;;
      setSettingsLoading false
  | None =>
      setGlobalSettings (Some blankGlobalSettings) ;;
      let! _ := saveGlobalSettings (Some blankGlobalSettings) true in
      setSettingsLoading false
  end.


(** The success callback of the listener of the current week. *)
Definition onWeeklyScheduleSnapshot (docSnap : option WeeklySchedule) : Hook () :=
  let! w := getWorld in
  match docSnap with
  | Some weeklyData => setCurrentWeeklySchedule (Some weeklyData)
  | None =>
      setCurrentWeeklySchedule
        (Some (defaultWeeklySchedule (currentWeekStartDate w)))
  end ;;
  setScheduleLoading false.

(** The error callback of the listener of the current week. *)
Definition onWeeklyScheduleError (message : string) : Hook () :=
  let! w := getWorld in
  setSaveError
    (Some ("Hiba a " +:+ currentWeekStartDate w
           +:+ " heti beosztás betöltésekor: " +:+ message)) ;;
  setCurrentWeeklySchedule None ;;
  setScheduleLoading false.

(** The view of the hook state, as the application reads it; [None]
    when [getStaffByUnit] throws. *)
Definition viewOf (localeCompare : string → string → comparison) (w : World)
    : option (JsObject.t (list Entry.t)) :=
  getStaffByUnit localeCompare (settingsLoading w) (scheduleLoading w)
                 (globalSettings w) (currentWeeklySchedule w).

(** ** Dates: [utils/helpers.js] and the week of the application

    A valid [Date] is modelled by its calendar day, the number of days
    from 1 January 1970 to the date: the local calendar day where the
    source reads the date with [getDay], [getDate] and [setDate], and the
    same day in UTC where [getWeekNumber] has moved it there with
    [Date.UTC(getFullYear(), getMonth(), getDate())]. The time of day a
    [Date] carries is not modelled; no result below depends on it.
    [None] is a value that is not a [Date] object. An invalid [Date]
    object, whose time is [NaN], is [None] as well for
    [getCurrentMonday], which treats the two alike; the other helpers
    test [instanceof Date] only, and an invalid [Date] object is not an
    input of their embedding. *)

(** [Date.prototype.getDay] and [getUTCDay]: 0 is Sunday, and 1 January
    1970 was a Thursday. *)
Definition getDay (date : Z) : Z := ((date + 4) mod 7)%Z.

(** [Math.ceil(a / b)] on integers. *)
Definition ceilDiv (a b : Z) : Z := (- ((- a) / b))%Z.

Section LocalDates.

(** [Date.prototype.getDate]: the day of the month. *)
Context (getDate : Z → Z).

(** [date.setDate(dayValue)]: the day of the month is set, a value
    outside the month rolling over into the neighbouring months. *)
Definition setDate (date dayValue : Z) : Z := (date + (dayValue - getDate date))%Z.

(** [getCurrentMonday]; [today] is the [new Date()] of the default
    argument and of the fallback for an input that is not a valid
    [Date]. *)
Definition getCurrentMonday (today : Z) (dateInput : option Z) : Z :=
  let now := default today dateInput in
  let currentDay := getDay now in
  let diffToMonday :=
    (getDate now - currentDay + (if decide (currentDay = 0%Z) then -6 else 1))%Z in
  setDate now diffToMonday.

(** The state update of [changeWeek] in the application. *)
Definition changeWeek (direction : Z) (prevWeek : Z) : Z :=
  let newDate := prevWeek in
  setDate newDate (getDate newDate + direction * 7)%Z.

(** [date.setDate(date.getDate() + index)], the step of [getWeekDates]. *)
Definition addDays (date : Z) (index : nat) : Z :=
  setDate date (getDate date + Z.of_nat index)%Z.

End LocalDates.

Definition days : list string :=
  ["Vasárnap"; "Hétfő"; "Kedd"; "Szerda"; "Csütörtök"; "Péntek"; "Szombat"].

(** [getDayName]; the index [getDay] yields for a valid date is always
    one of [days]. *)
Definition getDayName (date : option Z) : string :=
  match date with
  | None => ""
  | Some date => default "" (days !! Z.to_nat (getDay date))
  end.

Section WeekNumber.

(** [Date.prototype.getUTCFullYear], and the day of [Date.UTC(year, 0, 1)]. *)
Context (getUTCFullYear : Z → Z) (utcYearStart : Z → Z).

(** The Thursday of the week of a day, where [getWeekNumber] moves its
    copy of the date. *)
Definition thursdayOf (date : Z) : Z :=
  let d := date in
  let dayNum := if decide (getDay d = 0%Z) then 7%Z else getDay d in
  (d + 4 - dayNum)%Z.

(** [getWeekNumber]. The difference of two UTC midnights is a whole
    number of days, so the division by 86400000 is exact. *)
Definition getWeekNumber (date : option Z) : Z :=
  match date with
  | None => 0%Z
  | Some date =>
      let d := thursdayOf date in
      let yearStart := utcYearStart (getUTCFullYear d) in
      ceilDiv (d - yearStart + 1) 7
  end.

Definition isEvenWeek (date : option Z) : bool :=
  match date with
  | None => false
  | Some _ =>
      let weekNumber := getWeekNumber date in
      bool_decide (0 < weekNumber)%Z && bool_decide (Z.rem weekNumber 2 = 0%Z)
  end.

End WeekNumber.

(** ** The weekly editor: [handleEditStaff] and [handleSaveStaffWeeklyData]

    The application opens the editor of a week on an entry of the view
    and hands what the editor returns to [updateStaffInWeeklySchedule]. *)

(** [staffDataForModal]: the object the editor is opened with. Its
    [employeeNumber] key is shown by the editor and is not among the keys
    [updateStaffInWeeklySchedule] stores. *)
Definition handleEditStaff (staffWeeklyData : Entry.t) : Weekly.t :=
  {| Weekly.staffId := Entry.staffId staffWeeklyData;
     Weekly.name := Entry.name staffWeeklyData;
     Weekly.unit := Some (Entry.unit staffWeeklyData);
     Weekly.group := Some (Entry.group staffWeeklyData);
     Weekly.jobTitle := Some (Entry.jobTitle staffWeeklyData);
     Weekly.shifts := Some (Entry.shifts staffWeeklyData) |}.

(** [handleSaveStaffWeeklyData]: a missing or blank name is refused with
    an alert, and nothing is updated. *)
Definition handleSaveStaffWeeklyData (trim : string → string)
    (updatedStaffWeeklyData : Weekly.t) : Hook () :=
  if negb (Js.truthy (trim <$> Weekly.name updatedStaffWeeklyData)) then ret tt
  else updateStaffInWeeklySchedule updatedStaffWeeklyData.

(** ** The settings dialog: [components/SettingsModal.jsx]

    The handlers of the dialog work on its local lists; each is given
    here as the list it sets, the list it was given when it returns
    without setting one. *)

Section Reorder.

Context {A K : Type} `{EqDecision K}.

(** What identifies an item: [item[idField]] for the staff list, the
    item itself for a category list. *)
Context (idOf : A → K).

(** What is done to the reordered list before it is set: the staff list
    gets its [sortOrder] renumbered, a category list is set as it is. *)
Context (renumber : list A → list A).

(** [handleDrop] on the list of the dragged item; [None] is no dragged
    item. *)
Definition handleDrop (currentList : list A) (draggedItem : option A)
    (targetIndex : nat) : list A :=
  match draggedItem with
  | None => currentList
  | Some draggedItem =>
      match list_find (λ item, idOf item = idOf draggedItem) currentList with
      | None => currentList
      | Some (draggedItemIndex, movedItem) =>
          if decide (draggedItemIndex = targetIndex) then currentList
          else
            let currentListCopy := delete draggedItemIndex currentList in
            let insertAtIndex :=
              if decide (draggedItemIndex < targetIndex)%nat
              then (targetIndex - 1)%nat else targetIndex in
            let finalInsertIndex :=
              (0 `max` (insertAtIndex `min` length currentListCopy))%nat in
            renumber (take finalInsertIndex currentListCopy
                      ++ movedItem :: drop finalInsertIndex currentListCopy)%list
      end
  end.

(** [handleDropList]: a drop on the list itself is a drop at its end. *)
Definition handleDropList (currentList : list A) (draggedItem : option A)
    : list A :=
  handleDrop currentList draggedItem (length currentList).

End Reorder.

(** [handleDeleteStaffMember]; [confirmed] is the answer to
    [window.confirm]. *)
Definition handleDeleteStaffMember (staffList : list Staff.t) (staffId : string)
    (confirmed : bool) : list Staff.t :=
  match list_find (λ s, Staff.id s = staffId) staffList with
  | None => staffList
  | Some _ =>
      if confirmed then
        reindex (filter (λ s, Staff.id s ≠ staffId) staffList)
      else staffList
  end.

(** [handleSaveStaffSubModal] *)
Definition handleSaveStaffSubModal (staffList : list Staff.t)
    (savedStaffData : Staff.t) : list Staff.t :=
  let isEditingExisting :=
    bool_decide (Exists (λ s, Staff.id s = Staff.id savedStaffData) staffList) in
  let updatedList :=
    if isEditingExisting then
      (λ staff, if decide (Staff.id staff = Staff.id savedStaffData)
                then savedStaffData else staff) <$> staffList
    else
      (staffList
       ++ [withSortOrder savedStaffData (Some (Z.of_nat (length staffList)))])%list in
  reindex updatedList.

(** ** The shift type dialog: [ShiftTypesModal] *)

(** The form of the dialog: [editingShift]. *)
Record EditingShift : Type := {
  formCode : string;
  formName : string;
  formColor : string;
  formTimeSlot : string
}.

(** The local state of the dialog the handlers set. *)
Record ShiftForm : Type := {
  localShifts : list ShiftType;
  localTimes : gmap string string
}.

(** [handleDeleteShift]; [None] is the [TypeError] of an index outside
    the list, [confirmed] the answer to [window.confirm]. *)
Definition handleDeleteShift (state : ShiftForm) (indexToDelete : nat)
    (confirmed : bool) : option ShiftForm :=
  if confirmed then
    match localShifts state !! indexToDelete with
    | None => None
    | Some shift =>
        let shiftCodeToDelete := code shift in
        let newShifts :=
          (filter (λ p, p.1 ≠ indexToDelete)
                  (imap pair (localShifts state))).*2 in
        Some {| localShifts := newShifts;
                localTimes :=
                  if Js.truthy (localTimes state !! shiftCodeToDelete)
                  then delete shiftCodeToDelete (localTimes state)
                  else localTimes state |}
    end
  else Some state.

Section ShiftForm.

(** [String.prototype.trim], [toUpperCase] and [toLowerCase]. *)
Context (trim toUpperCase toLowerCase : string → string).

(** [handleSaveShiftForm]; [editingIndex] is [None] when a shift type is
    added. The result [None] is the [TypeError] of an [editingIndex]
    outside the list. *)
Definition handleSaveShiftForm (state : ShiftForm) (editingShift : EditingShift)
    (editingIndex : option nat) : option ShiftForm :=
  if decide (trim (formCode editingShift) = "") then Some state
  else if decide (trim (formName editingShift) = "") then Some state
  else
    let code' := toUpperCase (trim (formCode editingShift)) in
    let name := trim (formName editingShift) in
    let color' := formColor editingShift in
    let timeSlot := trim (formTimeSlot editingShift) in
    let isDuplicate :=
      bool_decide
        (Exists (λ p, toLowerCase (code p.2) = toLowerCase code'
                      ∧ Some p.1 ≠ editingIndex)
                (imap pair (localShifts state))) in
    if isDuplicate then Some state
    else
      let saved := {| code := code'; shiftName := name; color := color' |} in
      let edited :=
        match editingIndex with
        | Some index =>
            match localShifts state !! index with
            | None => None
            | Some old =>
                let oldCode := code old in
                Some (<[index := saved]> (localShifts state),
                      if bool_decide (oldCode ≠ code')
                         && Js.truthy (localTimes state !! oldCode)
                      then delete oldCode (localTimes state)
                      else localTimes state)
            end
        | None => Some ((localShifts state ++ [saved])%list, localTimes state)
        end in
      match edited with
      | None => None
      | Some (newShifts, newTimes) =>
          Some {| localShifts := newShifts;
                  localTimes :=
                    if decide (timeSlot = "") then
                      if Js.truthy (newTimes !! code')
                      then delete code' newTimes else newTimes
                    else <[code' := timeSlot]> newTimes |}
      end.

End ShiftForm.

(** ** Notions of the specification *)

(** The weekly override record of a staff member: the last record of the
    week that carries the member's id. *)
Definition overrideOf (sched : option WeeklySchedule) (staffId : string)
    : option Weekly.t :=
  last (filter (λ r, Weekly.staffId r = staffId) (default [] (staff <$> sched))).

(** [orderIndexOf]: the position of a name in a category set, the last one
    when the name is listed more than once; [None] for a name outside the
    set. *)
Fixpoint orderIndexOf (items : list string) (name : string) : option nat :=
  match items with
  | [] => None
  | x :: rest =>
      match orderIndexOf rest name with
      | Some i => Some (S i)
      | None => if decide (x = name) then Some 0 else None
      end
  end.

(** The property names that every plain object answers to: the members
    of [Object.prototype]. *)
Definition objectPrototypeNames : list string :=
  ["__proto__"; "__defineGetter__"; "__defineSetter__"; "__lookupGetter__";
   "__lookupSetter__"; "constructor"; "hasOwnProperty"; "isPrototypeOf";
   "propertyIsEnumerable"; "toLocaleString"; "toString"; "valueOf"].

(** The active members of the roster. *)
Definition activeStaff (gs : Settings) : list Staff.t :=
  filter (λ s, Staff.isActive s = true) (default [] (staffList gs)).

(** The effective value of an overridable field: the override's value
    when the record exists and sets the field, the roster default (or the
    empty string without one) otherwise. *)
Definition effectiveValue (override : option Weekly.t)
    (field : Weekly.t → option string) (rosterDefault : option string) : string :=
  match override with
  | Some w =>
      match field w with
      | Some v => v
      | None => default "" rosterDefault
      end
  | None => default "" rosterDefault
  end.

(** The override record exists and supplies a value for the field that is
    not in the category set. *)
Definition overrideOutsideSet (valid : list string) (override : option Weekly.t)
    (field : Weekly.t → option string) : Prop :=
  ∃ w v, override = Some w ∧ field w = Some v ∧ v ∉ valid.

(** The entry the merge engine builds for a member of the roster. *)
Definition entryOf (gs : Settings) (sched : option WeeklySchedule)
    (g : Staff.t) : Entry.t :=
  combineStaff (default [] (units gs)) (default [] (groups gs))
               (default [] (jobTitles gs)) (weeklyStaffDataMap sched) g.

(** The effective name and shifts of a member. *)
Definition effectiveName (override : option Weekly.t)
    (rosterName : option string) : option string :=
  match override with
  | Some w =>
      match Weekly.name w with
      | Some n => Some n
      | None => rosterName
      end
  | None => rosterName
  end.

Definition effectiveShifts (override : option Weekly.t) : gmap string string :=
  match override with
  | Some w => default ∅ (Weekly.shifts w)
  | None => ∅
  end.

(** A stored field: the value of the field, or the empty string when the
    field is missing or empty. *)
Definition orBlank (field : option string) : string :=
  match field with
  | Some s => if decide (s = "") then "" else s
  | None => ""
  end.

(** [e] carries the id of the member [g] and its effective unit, group,
    job title and shifts in the week. *)
Definition hasEffectiveFields (sched : option WeeklySchedule)
    (g : Staff.t) (e : Entry.t) : Prop :=
  let override := overrideOf sched (Staff.id g) in
  Entry.staffId e = Staff.id g
  ∧ Entry.unit e = effectiveValue override Weekly.unit (Staff.defaultUnit g)
  ∧ Entry.group e = effectiveValue override Weekly.group (Staff.defaultGroup g)
  ∧ Entry.jobTitle e
    = effectiveValue override Weekly.jobTitle (Staff.defaultJobTitle g)
  ∧ Entry.shifts e = effectiveShifts override.

(** The effective unit of a member in the week. *)
Definition effectiveUnit (sched : option WeeklySchedule) (g : Staff.t)
    : string :=
  effectiveValue (overrideOf sched (Staff.id g)) Weekly.unit
                 (Staff.defaultUnit g).

(** [e] carries the effective values of the member [g] in the week. *)
Definition isEffectiveEntry (sched : option WeeklySchedule)
    (g : Staff.t) (e : Entry.t) : Prop :=
  let override := overrideOf sched (Staff.id g) in
  Entry.staffId e = Staff.id g
  ∧ Entry.unit e = effectiveValue override Weekly.unit (Staff.defaultUnit g)
  ∧ Entry.group e = effectiveValue override Weekly.group (Staff.defaultGroup g)
  ∧ Entry.jobTitle e
    = effectiveValue override Weekly.jobTitle (Staff.defaultJobTitle g)
  ∧ Entry.name e = effectiveName override (Staff.name g)
  ∧ Entry.shifts e = effectiveShifts override.

(** The override record exists and supplies a non-empty value for the
    field that is not in the category set. *)
Definition orphanedByOverride (valid : list string) (override : option Weekly.t)
    (field : Weekly.t → option string) : Prop :=
  ∃ w v, override = Some w ∧ field w = Some v ∧ v ≠ "" ∧ v ∉ valid.

(** The flag and the display string of one category field. *)
Definition isAnnotatedField (valid : list string) (override : option Weekly.t)
    (field : Weekly.t → option string)
    (flag : bool) (value shown : string) : Prop :=
  (flag = true ↔ orphanedByOverride valid override field)
  ∧ (override ≫= field = None → flag = false)
  ∧ shown = (if flag then value +:+ " (törölt)" else value).

Definition isAnnotatedEntry (gs : Settings) (sched : option WeeklySchedule)
    (g : Staff.t) (e : Entry.t) : Prop :=
  let override := overrideOf sched (Staff.id g) in
  Entry.staffId e = Staff.id g
  ∧ isAnnotatedField (default [] (units gs)) override Weekly.unit
      (Entry.isOrphanedUnit e) (Entry.unit e) (Entry.displayUnit e)
  ∧ isAnnotatedField (default [] (groups gs)) override Weekly.group
      (Entry.isOrphanedGroup e) (Entry.group e) (Entry.displayGroup e)
  ∧ isAnnotatedField (default [] (jobTitles gs)) override Weekly.jobTitle
      (Entry.isOrphanedJobTitle e) (Entry.jobTitle e) (Entry.displayJobTitle e).

(** What the ordering properties need of [localeCompare]: the signs it
    returns are those of a total preorder. *)
Record Collation (localeCompare : string → string → comparison) : Prop := {
  collation_antisym : ∀ a b, localeCompare b a = CompOpp (localeCompare a b);
  collation_trans :
    ∀ a b c, localeCompare a b ≠ Gt → localeCompare b c ≠ Gt →
             localeCompare a c ≠ Gt
}.

(** The order of the unit buckets: the units of the category set by
    their index, then the other names alphabetically, then the empty
    name. *)
Definition unitBefore (localeCompare : string → string → comparison)
    (units : list string) (a b : string) : Prop :=
  b = "" ∨
  (a ≠ "" ∧ b ≠ "" ∧
   match orderIndexOf units a, orderIndexOf units b with
   | Some i, Some j => (i ≤ j)%nat
   | Some _, None => True
   | None, Some _ => False
   | None, None => localeCompare a b ≠ Gt
   end).

(** The rank of a group or job title in the entry comparator: a name of
    the category set with its index, a name flagged orphaned, or a name
    outside the set that is not flagged (a roster default whose category
    was deleted, or an empty value). *)
Inductive CategoryKey : Type :=
  | Listed (index : nat)
  | Orphaned (name : string)
  | Unlisted.

Definition categoryKey (items : list string) (flagged : bool) (value : string)
    : CategoryKey :=
  if flagged then Orphaned value
  else match orderIndexOf items value with
       | Some i => Listed i
       | None => Unlisted
       end.

(** Listed names by index, before all others; two orphaned names
    alphabetically; an unlisted name ties with every name outside the
    set. *)
Definition compareKeys (localeCompare : string → string → comparison)
    (a b : CategoryKey) : comparison :=
  match a, b with
  | Listed i, Listed j => Nat.compare i j
  | Listed _, _ => Lt
  | _, Listed _ => Gt
  | Orphaned s, Orphaned t => localeCompare s t
  | _, _ => Eq
  end.

Definition lexicographic (first next : comparison) : comparison :=
  match first with
  | Eq => next
  | c => c
  end.

(** The active members that the week places in the unit [k]. *)
Definition unitMembers (gs : Settings) (sched : option WeeklySchedule)
    (k : string) : list Staff.t :=
  filter (λ g, effectiveUnit sched g = k) (activeStaff gs).

(** The rank of a member's group or job title: flagged orphaned when
    the override supplies a non-empty value outside the set. *)
Definition memberKey (items : list string) (override : option Weekly.t)
    (field : Weekly.t → option string) (rosterDefault : option string)
    : CategoryKey :=
  let value := effectiveValue override field rosterDefault in
  match override ≫= field with
  | Some v =>
      if decide (v ≠ "" ∧ v ∉ items) then Orphaned value
      else match orderIndexOf items value with
           | Some i => Listed i
           | None => Unlisted
           end
  | None =>
      match orderIndexOf items value with
      | Some i => Listed i
      | None => Unlisted
      end
  end.

Definition memberGroupKey (gs : Settings) (sched : option WeeklySchedule)
    (g : Staff.t) : CategoryKey :=
  memberKey (default [] (groups gs)) (overrideOf sched (Staff.id g))
            Weekly.group (Staff.defaultGroup g).

Definition memberJobTitleKey (gs : Settings) (sched : option WeeklySchedule)
    (g : Staff.t) : CategoryKey :=
  memberKey (default [] (jobTitles gs)) (overrideOf sched (Staff.id g))
            Weekly.jobTitle (Staff.defaultJobTitle g).

(** Roster [sortOrder] ascending, a member without one last. *)
Definition sortOrderSign (a b : option Z) : comparison :=
  match a, b with
  | Some x, Some y => (x ?= y)%Z
  | Some _, None => Lt
  | None, Some _ => Gt
  | None, None => Eq
  end.

(** The order of the members of a bucket: (a) group, (b) job title,
    (c) roster [sortOrder], (d) effective name. *)
Definition memberOrder (localeCompare : string → string → comparison)
    (gs : Settings) (sched : option WeeklySchedule) (a b : Staff.t)
    : comparison :=
  lexicographic
    (compareKeys localeCompare (memberGroupKey gs sched a)
                               (memberGroupKey gs sched b))
    (lexicographic
       (compareKeys localeCompare (memberJobTitleKey gs sched a)
                                  (memberJobTitleKey gs sched b))
       (lexicographic
          (sortOrderSign (Staff.sortOrder a) (Staff.sortOrder b))
          (localeCompare
             (orBlank (effectiveName (overrideOf sched (Staff.id a))
                                     (Staff.name a)))
             (orBlank (effectiveName (overrideOf sched (Staff.id b))
                                     (Staff.name b)))))).

(** Neither the id of the member nor its effective group or job title
    is the name of a member of [Object.prototype]. *)
Definition plainlyNamed (sched : option WeeklySchedule) (g : Staff.t) : Prop :=
  let override := overrideOf sched (Staff.id g) in
  (Staff.id g ∉ objectPrototypeNames)
  ∧ (effectiveValue override Weekly.group (Staff.defaultGroup g)
     ∉ objectPrototypeNames)
  ∧ (effectiveValue override Weekly.jobTitle (Staff.defaultJobTitle g)
     ∉ objectPrototypeNames).

(** The keys do not hold both an orphaned and an unlisted name. *)
Definition unmixed (keys : list CategoryKey) : Prop :=
  ¬ (Unlisted ∈ keys ∧ ∃ name, Orphaned name ∈ keys).

(** The order as the specification words it: a name outside the category
    set is orphaned, and the orphaned names are ordered alphabetically. *)
Definition statedKey (items : list string) (value : string) : CategoryKey :=
  match orderIndexOf items value with
  | Some i => Listed i
  | None => Orphaned value
  end.

Definition statedOrder (localeCompare : string → string → comparison)
    (gs : Settings) (sched : option WeeklySchedule) (a b : Staff.t)
    : comparison :=
  let group g :=
    effectiveValue (overrideOf sched (Staff.id g)) Weekly.group
                   (Staff.defaultGroup g) in
  let jobTitle g :=
    effectiveValue (overrideOf sched (Staff.id g)) Weekly.jobTitle
                   (Staff.defaultJobTitle g) in
  lexicographic
    (compareKeys localeCompare (statedKey (default [] (groups gs)) (group a))
                               (statedKey (default [] (groups gs)) (group b)))
    (lexicographic
       (compareKeys localeCompare
          (statedKey (default [] (jobTitles gs)) (jobTitle a))
          (statedKey (default [] (jobTitles gs)) (jobTitle b)))
       (lexicographic
          (sortOrderSign (Staff.sortOrder a) (Staff.sortOrder b))
          (localeCompare
             (orBlank (effectiveName (overrideOf sched (Staff.id a))
                                     (Staff.name a)))
             (orBlank (effectiveName (overrideOf sched (Staff.id b))
                                     (Staff.name b)))))).

(** A comparator whose signs are those of a total preorder on the
    elements [P] holds of. *)
Definition consistentOn {A : Type} (P : A → Prop) (cmp : A → A → comparison)
    : Prop :=
  (∀ x y, P x → P y → cmp y x = CompOpp (cmp x y))
  ∧ (∀ x y z, P x → P y → P z → cmp x y ≠ Gt → cmp y z ≠ Gt → cmp x z ≠ Gt).

(** A source record is retained by the copy when its staff member is in
    the roster and active. *)
Definition retained (gs : Settings) (r : Weekly.t) : Prop :=
  Exists (λ g, Staff.id g = Weekly.staffId r ∧ Staff.isActive g = true)
         (default [] (staffList gs)).

(** The shift of a record on a day: the code assigned on that day, or
    the empty string when the record has no shifts map or the map has
    no code for the day. *)
Definition shiftOn (r : Weekly.t) (day : string) : string :=
  match Weekly.shifts r with
  | Some m =>
      match m !! day with
      | Some code => code
      | None => ""
      end
  | None => ""
  end.

(** [r'] is the copy of the source record [r]: the same staff member,
    with a shifts map over the six target days that holds, on the i-th
    target day, the shift of the i-th source day. *)
Definition copiedFrom {Date : Type} (addDays : Date → nat → Date)
    (isoDate : Date → string) (sourceWeekDate targetWeekDate : Date)
    (r r' : Weekly.t) : Prop :=
  Weekly.staffId r' = Weekly.staffId r
  ∧ ∃ m, Weekly.shifts r' = Some m
         ∧ (∀ day, is_Some (m !! day) ↔
                   ∃ i, i < 6 ∧ day = isoDate (addDays targetWeekDate i))
         ∧ ∀ i, i < 6 →
             m !! isoDate (addDays targetWeekDate i)
             = Some (shiftOn r (isoDate (addDays sourceWeekDate i))).

#[global] Instance retained_dec gs r : Decision (retained gs r).
Proof. unfold retained. apply _. Defined.

(** The loaded settings contain data. *)
Definition containsData (s : Settings) : Prop :=
  default [] (units s) ≠ [] ∨ default [] (groups s) ≠ []
  ∨ default [] (jobTitles s) ≠ [] ∨ default [] (staffList s) ≠ []
  ∨ default [] (shiftTypes s) ≠ [].

(** The new settings have no category left while staff or shift types
    remain. *)
Definition deletesAllCategories (s : Settings) : Prop :=
  default [] (units s) = [] ∧ default [] (groups s) = []
  ∧ default [] (jobTitles s) = []
  ∧ (default [] (staffList s) ≠ [] ∨ default [] (shiftTypes s) ≠ []).

(** The [sortOrder] values of a staff list are dense and strictly
    increasing in list order: the member at position [i] has
    [sortOrder] [i]. *)
Definition dense (l : list Staff.t) : Prop :=
  Staff.sortOrder <$> l = (λ i, Some (Z.of_nat i)) <$> seq 0 (length l).

(** No two members share an id. *)
Definition uniqueIds (l : list Staff.t) : Prop := NoDup (Staff.id <$> l).

(** A patch that changes nothing but the [sortOrder]. *)
Definition sortOrderPatch (id : string) (sortOrder : Z) : StaffPatch.t :=
  {| StaffPatch.id := id; StaffPatch.name := None;
     StaffPatch.employeeNumber := None; StaffPatch.defaultUnit := None;
     StaffPatch.defaultGroup := None; StaffPatch.defaultJobTitle := None;
     StaffPatch.isActive := None; StaffPatch.sortOrder := Some (Some sortOrder) |}.

(** A patch that changes nothing but the name. *)
Definition namePatch (id name : string) : StaffPatch.t :=
  {| StaffPatch.id := id; StaffPatch.name := Some (Some name);
     StaffPatch.employeeNumber := None; StaffPatch.defaultUnit := None;
     StaffPatch.defaultGroup := None; StaffPatch.defaultJobTitle := None;
     StaffPatch.isActive := None; StaffPatch.sortOrder := None |}.

(** [r'] is the record written for [r]: the four fields are strings and
    the shifts a map, a missing or falsy field replaced by the empty
    string or the empty map. *)
Definition writtenFor (r r' : Weekly.t) : Prop :=
  Weekly.staffId r' = Weekly.staffId r
  ∧ Weekly.name r' = Some (orBlank (Weekly.name r))
  ∧ Weekly.unit r' = Some (orBlank (Weekly.unit r))
  ∧ Weekly.group r' = Some (orBlank (Weekly.group r))
  ∧ Weekly.jobTitle r' = Some (orBlank (Weekly.jobTitle r))
  ∧ Weekly.shifts r'
    = Some (match Weekly.shifts r with Some m => m | None => ∅ end).

(** [r] with its unit override replaced. *)
Definition withUnit (r : Weekly.t) (unit : option string) : Weekly.t :=
  {| Weekly.staffId := Weekly.staffId r; Weekly.name := Weekly.name r;
     Weekly.unit := unit; Weekly.group := Weekly.group r;
     Weekly.jobTitle := Weekly.jobTitle r; Weekly.shifts := Weekly.shifts r |}.

(** Nothing was written and no write was attempted between [w] and [w']:
    the two documents and the coming write outcomes are the same, and so
    are the loaded settings and week. *)
Definition nothingWritten (w w' : World) : Prop :=
  settingsDoc w' = settingsDoc w
  ∧ weeklyDocs w' = weeklyDocs w
  ∧ setDocOutcomes w' = setDocOutcomes w
  ∧ globalSettings w' = globalSettings w
  ∧ currentWeeklySchedule w' = currentWeeklySchedule w.

(** The records of a week after the upsert of
    [updateStaffInWeeklySchedule]: the array the function binds to
    [newStaffArray]. *)
Definition upserted (records : list Weekly.t) (data : Weekly.t)
    : list Weekly.t :=
  match list_find (λ s, Weekly.staffId s = Weekly.staffId data) records with
  | Some (index, _) => <[index := cleanRecord data]> records
  | None => (records ++ [cleanRecord data])%list
  end.

(** The week [updateStaffInWeeklySchedule] starts from: the loaded week,
    or the default week when none is loaded. *)
Definition baseSchedule (w : World) : WeeklySchedule :=
  default (defaultWeeklySchedule (currentWeekStartDate w))
          (currentWeeklySchedule w).

(** The ids of the records of a week. *)
Definition recordIds (records : list Weekly.t) : list string :=
  Weekly.staffId <$> records.

(** [a] is not after [b] by [sortOrder], a missing [sortOrder] last. *)
Definition sortOrderLe (a b : Staff.t) : Prop :=
  match Staff.sortOrder a, Staff.sortOrder b with
  | Some x, Some y => (x ≤ y)%Z
  | _, None => True
  | None, Some _ => False
  end.

(** The document data that holds the settings [s]: every staff member
    with its [isActive] key. *)
Definition storedStaffOf (s : Staff.t) : StoredStaff.t :=
  {| StoredStaff.id := Staff.id s;
     StoredStaff.name := Staff.name s;
     StoredStaff.employeeNumber := Staff.employeeNumber s;
     StoredStaff.defaultUnit := Staff.defaultUnit s;
     StoredStaff.defaultGroup := Staff.defaultGroup s;
     StoredStaff.defaultJobTitle := Staff.defaultJobTitle s;
     StoredStaff.isActive := Some (Staff.isActive s);
     StoredStaff.sortOrder := Staff.sortOrder s |}.

Definition storedOf (s : Settings) : StoredSettings :=
  {| storedUnits := units s;
     storedGroups := groups s;
     storedJobTitles := jobTitles s;
     storedShiftTypes := shiftTypes s;
     storedTimeSlots := timeSlots s;
     storedStaffList :=
       match staffList s with
       | Some l => Some (storedStaffOf <$> l)
       | None => None
       end |}.

(** The year of the Thursday of a week starts on or before that
    Thursday and is at most 366 days long. *)
Definition yearHolds (getUTCFullYear utcYearStart : Z → Z) (date : Z) : Prop :=
  (utcYearStart (getUTCFullYear (thursdayOf date)) ≤ thursdayOf date)%Z
  ∧ (thursdayOf date < utcYearStart (getUTCFullYear (thursdayOf date)) + 366)%Z.

(** No two shift types of the dialog have the same code up to case. *)
Definition distinctCodes (toLowerCase : string → string) (state : ShiftForm)
    : Prop :=
  NoDup ((λ s, toLowerCase (code s)) <$> localShifts state).

(** Every time slot of the dialog that is not empty belongs to one of
    its shift types. *)
Definition timesOfShifts (state : ShiftForm) : Prop :=
  ∀ k v, localTimes state !! k = Some v → v ≠ "" →
         ∃ s, s ∈ localShifts state ∧ code s = k.


(** ** Sample data

    The settings and the week of [useStaffData.test.js], used to run the
    definitions. *)

Definition sampleMember (id name unit group jobTitle : string)
    (isActive : bool) (sortOrder : Z) (employeeNumber : string) : Staff.t :=
  {| Staff.id := id; Staff.name := Some name;
     Staff.employeeNumber := Some employeeNumber;
     Staff.defaultUnit := Some unit; Staff.defaultGroup := Some group;
     Staff.defaultJobTitle := Some jobTitle;
     Staff.isActive := isActive; Staff.sortOrder := Some sortOrder |}.

Definition sampleCook : Staff.t :=
  sampleMember "s3" "Kovács István" "Konyha" "" "szakács" true 2 "K1".

Definition sampleStaffList : list Staff.t :=
  [ sampleMember "s1" "Nagy Mária" "I." "Süni (A)" "k.gy.n." true 0 "1";
    sampleMember "s2" "Kiss Józsefné" "I." "Süni (A)" "dajka" true 1 "2";
    sampleCook;
    sampleMember "s4" "Inactive User" "II." "Csibe (A)" "k.gy.n." false 3 "4";
    sampleMember "s5" "Varga Pál" "I." "Maci (B)" "k.gy.n." true 4 "5";
    sampleMember "s6" "Orphan Test" "Orphaned Unit" "Orphaned Group"
                 "Orphaned Job" true 5 "6";
    sampleMember "s7" "Job Title Sort Test 1" "II." "Csibe (A)" "szakács" true 6 "7";
    sampleMember "s8" "Job Title Sort Test 2" "II." "Csibe (A)" "dajka" true 7 "8" ].

Definition sampleSettings : Settings :=
  {| units := Some ["I."; "II."; "Konyha"];
     groups := Some ["Süni (A)"; "Maci (B)"; "Csibe (A)"];
     jobTitles := Some ["k.gy.n."; "dajka"; "szakács"];
     shiftTypes :=
       Some [ {| code := "DE"; shiftName := "Délelőtt"; color := "#cce6ff" |};
              {| code := "DU"; shiftName := "Délután"; color := "#ffcc99" |};
              {| code := "TP"; shiftName := "Táppénz"; color := "#ff9999" |} ];
     timeSlots := Some {[ "DE" := "6:30-13:50"; "DU" := "9:40-17:00" ]};
     staffList := Some sampleStaffList |}.

Definition sampleRecord (staffId name unit group jobTitle : string)
    (shifts : gmap string string) : Weekly.t :=
  {| Weekly.staffId := staffId; Weekly.name := Some name;
     Weekly.unit := Some unit; Weekly.group := Some group;
     Weekly.jobTitle := Some jobTitle; Weekly.shifts := Some shifts |}.

Definition sampleWeek : WeeklySchedule :=
  {| weekStartDate := "2024-06-10";
     staff :=
       [ sampleRecord "s1" "Nagy Mária" "I." "Süni (A)" "k.gy.n."
           {[ "2024-06-10" := "DE"; "2024-06-11" := "DU" ]};
         sampleRecord "s2" "Kiss Józsefné Weekly" "II." "Csibe (A)" "k.gy.n."
           {[ "2024-06-10" := "TP"; "2024-06-14" := "DE" ]};
         sampleRecord "s6" "Orphan Test" "Orphaned Unit" "Orphaned Group"
           "Orphaned Job" {[ "2024-06-10" := "DE" ]} ] |}.

(** Code-unit order stands in for a collation where one has to be run. *)
Definition sampleView : option (JsObject.t (list Entry.t)) :=
  getStaffByUnit String.compare false false (Some sampleSettings) (Some sampleWeek).

(** A record that only names its staff member. *)
Definition bareRecord (staffId : string) : Weekly.t :=
  {| Weekly.staffId := staffId; Weekly.name := None; Weekly.unit := None;
     Weekly.group := None; Weekly.jobTitle := None; Weekly.shifts := None |}.

(** A member with an id, a sort order and no other key. *)
Definition bareMember (id : string) (sortOrder : option Z) : Staff.t :=
  {| Staff.id := id; Staff.name := None; Staff.employeeNumber := None;
     Staff.defaultUnit := None; Staff.defaultGroup := None;
     Staff.defaultJobTitle := None; Staff.isActive := true;
     Staff.sortOrder := sortOrder |}.

(** Scenario B of the specification, and the same roster with an override
    that sets the unit to the empty string. *)
Definition scenarioMember : Staff.t :=
  {| Staff.id := "s1"; Staff.name := Some "X"; Staff.employeeNumber := None;
     Staff.defaultUnit := Some "I"; Staff.defaultGroup := None;
     Staff.defaultJobTitle := None;
     Staff.isActive := true; Staff.sortOrder := Some 0%Z |}.

Definition scenarioSettings : Settings :=
  {| units := Some ["I"; "II"]; groups := None; jobTitles := None;
     shiftTypes := None; timeSlots := None;
     staffList := Some [scenarioMember] |}.

Definition unitOverride (unit : string) : WeeklySchedule :=
  {| weekStartDate := "2024-06-10";
     staff := [ {| Weekly.staffId := "s1"; Weekly.name := None;
                   Weekly.unit := Some unit; Weekly.group := None;
                   Weekly.jobTitle := None; Weekly.shifts := None |} ] |}.

Definition scenarioView (unit : string) : option (JsObject.t (list Entry.t)) :=
  getStaffByUnit String.compare false false (Some scenarioSettings)
                 (Some (unitOverride unit)).

(** A settings document without any of its keys. *)
Definition missingSettings : Settings :=
  {| units := None; groups := None; jobTitles := None;
     shiftTypes := None; timeSlots := None; staffList := None |}.

(** Two units named by numbers, listed as "2" then "1", each with one
    active member. *)
Definition numberedSettings : Settings :=
  {| units := Some ["2"; "1"]; groups := Some []; jobTitles := Some [];
     shiftTypes := Some []; timeSlots := Some ∅;
     staffList :=
       Some [ sampleMember "a" "Anna" "2" "" "" true 0 "1";
              sampleMember "b" "Bea" "1" "" "" true 1 "2" ] |}.

(** A unit named like a member of [Object.prototype], with one active
    member in it. *)
Definition constructorUnit : Settings :=
  {| units := Some ["constructor"]; groups := Some []; jobTitles := Some [];
     shiftTypes := Some []; timeSlots := Some ∅;
     staffList := Some [sampleMember "a" "Anna" "constructor" "" "" true 0 "1"] |}.

(** A member whose id is such a name. *)
Definition constructorMember : Staff.t :=
  sampleMember "constructor" "Anna" "I." "" "" true 0 "1".

Definition constructorId : Settings :=
  {| units := Some ["I."]; groups := Some []; jobTitles := Some [];
     shiftTypes := Some []; timeSlots := Some ∅;
     staffList := Some [constructorMember] |}.

(** One unit and one group; the members [a], [b] and [c] take their group
    from the given defaults. *)
Definition groupMember (id group : string) (sortOrder : Z) : Staff.t :=
  {| Staff.id := id; Staff.name := Some id; Staff.employeeNumber := None;
     Staff.defaultUnit := Some "I."; Staff.defaultGroup := Some group;
     Staff.defaultJobTitle := None;
     Staff.isActive := true; Staff.sortOrder := Some sortOrder |}.

Definition groupSettings (members : list Staff.t) : Settings :=
  {| units := Some ["I."]; groups := Some ["G"]; jobTitles := Some [];
     shiftTypes := Some []; timeSlots := Some ∅; staffList := Some members |}.

Definition groupOverride (staffId group : string) : Weekly.t :=
  {| Weekly.staffId := staffId; Weekly.name := None; Weekly.unit := None;
     Weekly.group := Some group; Weekly.jobTitle := None; Weekly.shifts := None |}.

(** Two roster defaults that name deleted groups. *)
Definition deletedDefaults : Settings :=
  groupSettings [groupMember "a" "Old2" 0; groupMember "b" "Old1" 1].

(** Overrides to the deleted groups "B" and "A" around a member without
    a group. *)
Definition mixedSettings : Settings :=
  groupSettings [groupMember "a" "G" 0; groupMember "b" "" 1; groupMember "c" "G" 2].

Definition mixedWeek : WeeklySchedule :=
  {| weekStartDate := "2024-06-10";
     staff := [groupOverride "a" "B"; groupOverride "c" "A"] |}.

(** A calendar that numbers the days, for running the copy: a date is
    its day number and its ISO form the decimal of the number. *)
Definition dayAfter (d : Z) (i : nat) : Z := (d + Z.of_nat i)%Z.

Definition dayName (d : Z) : string := pretty d.

(** The sample settings are loaded, the user is signed in, and the week
    of day 0 is stored with a shift of "s1" on its Monday and one of the
    inactive "s4" on its Tuesday. *)
Definition copySource : WeeklySchedule :=
  {| weekStartDate := dayName 0;
     staff :=
       [ sampleRecord "s1" "Nagy Mária" "I." "Süni (A)" "k.gy.n."
           {[ dayName 0 := "DE" ]};
         sampleRecord "s4" "Inactive User" "II." "Csibe (A)" "k.gy.n."
           {[ dayName 1 := "DU" ]} ] |}.

Definition copyWorld : World :=
  {| currentUser := Some "user";
     currentWeekStartDate := dayName 7;
     globalSettings := Some sampleSettings;
     currentWeeklySchedule := None;
     settingsLoading := false;
     scheduleLoading := false;
     saveError := None;
     settingsDoc := Some sampleSettings;
     weeklyDocs := {[ dayName 0 := copySource ]};
     setDocOutcomes := [] |}.

(** The sample settings loaded and stored, and the same settings with
    their three category lists emptied. *)
Definition loadedWorld : World :=
  {| currentUser := Some "user";
     currentWeekStartDate := "2024-06-10";
     globalSettings := Some sampleSettings;
     currentWeeklySchedule := Some sampleWeek;
     settingsLoading := false;
     scheduleLoading := false;
     saveError := None;
     settingsDoc := Some sampleSettings;
     weeklyDocs := {[ "2024-06-10" := sampleWeek; "2024-06-03" := sampleWeek ]};
     setDocOutcomes := [] |}.

Definition wipedCategories : Settings :=
  {| units := Some []; groups := Some []; jobTitles := Some [];
     shiftTypes := shiftTypes sampleSettings;
     timeSlots := timeSlots sampleSettings;
     staffList := staffList sampleSettings |}.

(** A roster of two members in dense order. *)
Definition pairRoster : list Staff.t :=
  [bareMember "a" (Some 0%Z); bareMember "b" (Some 1%Z)].

Definition pairSettings : Settings :=
  {| units := Some ["I."]; groups := Some []; jobTitles := Some [];
     shiftTypes := Some []; timeSlots := Some ∅; staffList := Some pairRoster |}.

(** A week whose only record names "s1" and sets nothing. *)
Definition bareWeek : WeeklySchedule :=
  {| weekStartDate := "2024-06-10"; staff := [bareRecord "s1"] |}.

(** Scenario C of the specification: two members without a unit and one
    in the unit "I". *)
Definition unassignedSettings : Settings :=
  {| units := Some ["I"; "II"]; groups := None; jobTitles := None;
     shiftTypes := None; timeSlots := None;
     staffList :=
       Some [ sampleMember "u1" "Una" "" "" "" true 0 "1";
              sampleMember "u2" "Ulla" "" "" "" true 1 "2";
              sampleMember "u3" "Ida" "I" "" "" true 2 "3" ] |}.

(** What the scenarios show of a view: for each bucket in enumeration
    order, the id, display unit and unit flag of its entries. *)
Definition unitSummary (view : JsObject.t (list Entry.t))
    : list (string * list (string * string * bool)) :=
  map (λ p : string * option (list Entry.t),
         (p.1, map (λ e, (Entry.staffId e, Entry.displayUnit e,
                          Entry.isOrphanedUnit e))
                   (default [] p.2)))
      (JsObject.entries view).

(** ASCII stand-ins for [toLowerCase], [toUpperCase] and [trim], for
    running the definitions that take them. *)
Definition lowerChar (c : ascii) : ascii :=
  let n := nat_of_ascii c in
  if (65 <=? n)%nat && (n <=? 90)%nat then ascii_of_nat (n + 32) else c.

Definition upperChar (c : ascii) : ascii :=
  let n := nat_of_ascii c in
  if (97 <=? n)%nat && (n <=? 122)%nat then ascii_of_nat (n - 32) else c.

Fixpoint mapChars (f : ascii → ascii) (s : string) : string :=
  match s with
  | EmptyString => EmptyString
  | String c r => String (f c) (mapChars f r)
  end.

Definition asciiLower : string → string := mapChars lowerChar.

Definition asciiUpper : string → string := mapChars upperChar.

Fixpoint dropSpaces (s : string) : string :=
  match s with
  | String " "%char r => dropSpaces r
  | _ => s
  end.

Fixpoint dropTrailingSpaces (s : string) : string :=
  match s with
  | EmptyString => EmptyString
  | String c r =>
      match c, dropTrailingSpaces r with
      | " "%char, EmptyString => EmptyString
      | _, r' => String c r'
      end
  end.

Definition trimSpaces (s : string) : string :=
  dropTrailingSpaces (dropSpaces s).

(** The scenario settings loaded for a signed-in user, with nothing
    stored for the week. *)
Definition scenarioWorld : World :=
  {| currentUser := Some "user";
     currentWeekStartDate := "2024-06-10";
     globalSettings := Some scenarioSettings;
     currentWeeklySchedule := None;
     settingsLoading := false;
     scheduleLoading := false;
     saveError := None;
     settingsDoc := Some scenarioSettings;
     weeklyDocs := ∅;
     setDocOutcomes := [] |}.

(** The loaded world with its next write rejected. *)
Definition offlineWorld : World :=
  {| currentUser := Some "user";
     currentWeekStartDate := "2024-06-10";
     globalSettings := Some sampleSettings;
     currentWeeklySchedule := Some sampleWeek;
     settingsLoading := false;
     scheduleLoading := false;
     saveError := None;
     settingsDoc := Some sampleSettings;
     weeklyDocs := {[ "2024-06-10" := sampleWeek ]};
     setDocOutcomes := [Some "offline"] |}.

(** One unit, no group or job title, and one member. *)
Definition lastUnitSettings : Settings :=
  {| units := Some ["I."]; groups := Some []; jobTitles := Some [];
     shiftTypes := Some []; timeSlots := Some ∅;
     staffList := Some [bareMember "a" (Some 0%Z)] |}.

Definition lastUnitWorld : World :=
  {| currentUser := Some "user";
     currentWeekStartDate := "2024-06-10";
     globalSettings := Some lastUnitSettings;
     currentWeeklySchedule := None;
     settingsLoading := false;
     scheduleLoading := false;
     saveError := None;
     settingsDoc := Some lastUnitSettings;
     weeklyDocs := ∅;
     setDocOutcomes := [] |}.

(** A signed-in user without a settings document. *)
Definition newUserWorld : World :=
  {| currentUser := Some "user";
     currentWeekStartDate := "2024-06-10";
     globalSettings := None;
     currentWeeklySchedule := None;
     settingsLoading := true;
     scheduleLoading := true;
     saveError := None;
     settingsDoc := None;
     weeklyDocs := ∅;
     setDocOutcomes := [] |}.

(** The Gregorian calendar, for running the definitions that take the
    year of a day and the first day of a year: the civil year of a day
    number and the day number of a civil date. *)
Definition civilYear (day : Z) : Z :=
  let z := (day + 719468)%Z in
  let era := (z / 146097)%Z in
  let doe := (z - era * 146097)%Z in
  let yoe := ((doe - doe / 1460 + doe / 36524 - doe / 146096) / 365)%Z in
  let doy := (doe - (365 * yoe + yoe / 4 - yoe / 100))%Z in
  let mp := ((5 * doy + 2) / 153)%Z in
  let m := (if mp <? 10 then mp + 3 else mp - 9)%Z in
  (yoe + era * 400 + (if m <=? 2 then 1 else 0))%Z.

Definition daysFromCivil (year month day : Z) : Z :=
  let y := (if month <=? 2 then year - 1 else year)%Z in
  let era := (y / 400)%Z in
  let yoe := (y - era * 400)%Z in
  let doy := ((153 * (if 2 <? month then month - 3 else month + 9) + 2) / 5
              + day - 1)%Z in
  let doe := (yoe * 365 + yoe / 4 - yoe / 100 + doy)%Z in
  (era * 146097 + doe - 719468)%Z.

Definition firstOfYear (year : Z) : Z := daysFromCivil year 1 1.

(** The day of the month, for running the definitions that take it. *)
Definition civilDayOfMonth (day : Z) : Z :=
  let z := (day + 719468)%Z in
  let era := (z / 146097)%Z in
  let doe := (z - era * 146097)%Z in
  let yoe := ((doe - doe / 1460 + doe / 36524 - doe / 146096) / 365)%Z in
  let doy := (doe - (365 * yoe + yoe / 4 - yoe / 100))%Z in
  let mp := ((5 * doy + 2) / 153)%Z in
  (doy - (153 * mp + 2) / 5 + 1)%Z.

(** A member whose default unit is no longer among the units, in a week
    without a stored schedule. *)
Definition movedMember : Staff.t :=
  {| Staff.id := "a"; Staff.name := Some "Anna"; Staff.employeeNumber := None;
     Staff.defaultUnit := Some "Old"; Staff.defaultGroup := None;
     Staff.defaultJobTitle := None;
     Staff.isActive := true; Staff.sortOrder := Some 0%Z |}.

Definition movedSettings : Settings :=
  {| units := Some ["I"]; groups := Some []; jobTitles := Some [];
     shiftTypes := Some []; timeSlots := Some ∅;
     staffList := Some [movedMember] |}.

Definition movedWorld : World :=
  {| currentUser := Some "user";
     currentWeekStartDate := "2024-06-10";
     globalSettings := Some movedSettings;
     currentWeeklySchedule := Some (defaultWeeklySchedule "2024-06-10");
     settingsLoading := false;
     scheduleLoading := false;
     saveError := None;
     settingsDoc := Some movedSettings;
     weeklyDocs := ∅;
     setDocOutcomes := [] |}.

(** The shift type dialog opened on the sample settings, and a form that
    renames the shift type "DU" to "ej". *)
Definition sampleShiftForm : ShiftForm :=
  {| localShifts := default [] (shiftTypes sampleSettings);
     localTimes := default ∅ (timeSlots sampleSettings) |}.

Definition nightShift : EditingShift :=
  {| formCode := " ej "; formName := "Éjszaka"; formColor := "#000000";
     formTimeSlot := "" |}.

(** ** Tactics *)

(** Closes a decidable goal on closed terms by evaluation. *)
Ltac by_compute := apply (bool_decide_unpack _); vm_compute; exact I.

(** Arithmetic of days: the goals are linear once the divisions are
    named. *)
Ltac days_lia := Z.to_euclidean_division_equations; lia.

(** * Properties *)

(** ** Strings *)

Lemma orEmpty_orBlank (field : option string) : Js.orEmpty field = orBlank field.
Proof.
  destruct field as [s|]; [|done]. simpl. by destruct (decide (s = "")).
Qed.

(** ** Sorting *)

Section SortFacts.
Context {A : Type} (cmp : A → A → comparison).

Lemma sortInsert_Permutation x l : Js.sortInsert cmp x l ≡ₚ x :: l.
Proof.
  induction l as [|y l IH]; simpl; [done|].
  destruct (cmp x y); try done.
  rewrite IH. apply Permutation_swap.
Qed.

Lemma sort_Permutation l : Js.sort cmp l ≡ₚ l.
Proof.
  induction l as [|x l IH]; simpl; [done|].
  unfold Js.sort in IH. by rewrite sortInsert_Permutation, IH.
Qed.

Lemma elem_of_sort x l : x ∈ Js.sort cmp l ↔ x ∈ l.
Proof. by rewrite sort_Permutation. Qed.

Lemma sort_nil_inv l : Js.sort cmp l = [] → l = [].
Proof.
  intros H. apply Permutation_nil_r. rewrite <- H. symmetry. apply sort_Permutation.
Qed.

(** A relation [R] that the comparator decides on the elements [P] holds
    of and that is transitive there is established by the sort. *)
Context (R : A → A → Prop) (P : A → Prop).
Context (R_le : ∀ x y, P x → P y → cmp x y ≠ Gt → R x y).
Context (R_gt : ∀ x y, P x → P y → cmp x y = Gt → R y x).
Context (R_trans : ∀ x y z, P x → P y → P z → R x y → R y z → R x z).

Lemma sortInsert_sorted x l :
  P x → Forall P l → StronglySorted R l → StronglySorted R (Js.sortInsert cmp x l).
Proof.
  intros Px Pl Hl. induction Hl as [|y l Hl IH Hy]; simpl.
  - repeat constructor.
  - apply Forall_cons in Pl as [Py Pl].
    destruct (cmp x y) eqn:E.
    + assert (R x y) by (apply R_le; [done..|congruence]).
      constructor; [by constructor|]. constructor; [done|].
      rewrite Forall_forall in *. intros z Hz. eapply (R_trans x y z); eauto.
    + assert (R x y) by (apply R_le; [done..|congruence]).
      constructor; [by constructor|]. constructor; [done|].
      rewrite Forall_forall in *. intros z Hz. eapply (R_trans x y z); eauto.
    + constructor; [by apply IH|].
      rewrite Forall_forall. intros z Hz.
      rewrite sortInsert_Permutation in Hz.
      apply elem_of_cons in Hz as [->|Hz]; [by apply R_gt|].
      rewrite Forall_forall in Hy. by apply Hy.
Qed.

Lemma sort_sorted l : Forall P l → StronglySorted R (Js.sort cmp l).
Proof.
  induction 1 as [|x l Px Pl IH]; simpl; [constructor|].
  apply sortInsert_sorted; [done| |done].
  rewrite Forall_forall in *. intros z Hz. apply Pl. by apply elem_of_sort.
Qed.

End SortFacts.

(** ** Objects *)

Section ObjectFacts.
Context {V : Type}.
Implicit Types (o : JsObject.t V) (k : string) (v : V).

Lemma get_set o k v k' :
  JsObject.get (JsObject.set o k v) k'
  = if decide (k = k') then Some v else JsObject.get o k'.
Proof.
  induction o as [|[k0 v0] o IH]; simpl.
  - destruct (decide (k = k')); [done|done].
  - destruct (decide (k0 = k)) as [E|E]; simpl;
      destruct (decide (k = k')), (decide (k0 = k')); congruence.
Qed.

Lemma get_None o k : JsObject.get o k = None ↔ k ∉ JsObject.created o.
Proof.
  unfold JsObject.created. induction o as [|[k0 v0] o IH]; simpl.
  - split; [intros _; apply not_elem_of_nil|done].
  - rewrite not_elem_of_cons. case_decide; subst.
    + split; [done|]. by intros [? _].
    + rewrite IH. split; [by intros ?|by intros [_ ?]].
Qed.

Lemma get_is_Some o k : is_Some (JsObject.get o k) ↔ k ∈ JsObject.created o.
Proof.
  pose proof (get_None o k) as H.
  destruct (JsObject.get o k) as [v|]; split.
  - intros _. destruct (decide (k ∈ JsObject.created o)) as [|Hn]; [done|].
    by apply H in Hn.
  - by eexists.
  - by intros [? ?].
  - intros Hin. by destruct (proj1 H).
Qed.

Lemma created_set o k v :
  JsObject.created (JsObject.set o k v)
  = if decide (k ∈ JsObject.created o) then JsObject.created o
    else (JsObject.created o ++ [k])%list.
Proof.
  unfold JsObject.created. induction o as [|[k0 v0] o IH].
  - destruct (decide (k ∈ ([] : JsObject.t V).*1)) as [H|H]; [|done].
    by apply elem_of_nil in H.
  - cbn [JsObject.set]. destruct (decide (k0 = k)) as [->|Hne].
    + rewrite decide_True by apply list_elem_of_here. done.
    + rewrite !fmap_cons, IH. cbn [fst].
      destruct (decide (k ∈ o.*1)) as [Hin|Hnin].
      * rewrite decide_True by (by apply list_elem_of_further). done.
      * rewrite decide_False; [done|]. rewrite elem_of_cons.
        intros [?|?]; [congruence|done].
Qed.

Lemma keys_Permutation o : JsObject.keys o ≡ₚ JsObject.created o.
Proof.
  unfold JsObject.keys. rewrite sort_Permutation.
  induction (JsObject.created o) as [|k l IH]; [done|].
  rewrite !filter_cons. destruct (decide (JsObject.isIndex k)).
  - rewrite decide_False by tauto. simpl. by rewrite IH.
  - rewrite decide_True by done. rewrite <- Permutation_middle. by rewrite IH.
Qed.

Lemma elem_of_keys o k : k ∈ JsObject.keys o ↔ is_Some (JsObject.get o k).
Proof. by rewrite keys_Permutation, get_is_Some. Qed.

(** Without array-index keys, [Object.keys] is the creation order. *)
Lemma keys_created o :
  Forall (λ k, ¬ JsObject.isIndex k) (JsObject.created o) →
  JsObject.keys o = JsObject.created o.
Proof.
  unfold JsObject.keys. induction 1 as [|k l Hk Hl IH]; [done|].
  rewrite !filter_cons. rewrite decide_False by done.
  rewrite decide_True by done. simpl.
  assert (filter JsObject.isIndex l = []) as E.
  { clear IH. induction Hl as [|k' l' Hk' Hl' IH']; [done|].
    rewrite filter_cons, decide_False by done. done. }
  rewrite E in *. simpl in *. by rewrite IH.
Qed.

End ObjectFacts.

Lemma set_set {V : Type} (o : JsObject.t V) k v v' :
  JsObject.set (JsObject.set o k v) k v' = JsObject.set o k v'.
Proof.
  induction o as [|[k0 v0] o IH]; simpl.
  - by rewrite decide_True.
  - destruct (decide (k0 = k)) as [->|]; simpl.
    + by rewrite decide_True.
    + rewrite decide_False by done. by rewrite IH.
Qed.

(** ** Names inherited from [Object.prototype] *)

Lemma inherited_true k :
  JsObject.inherited k = true ↔ k ∈ objectPrototypeNames.
Proof.
  unfold JsObject.inherited, JsObject.prototypeFunctions, objectPrototypeNames.
  rewrite bool_decide_eq_true, !elem_of_cons, !elem_of_nil. tauto.
Qed.

Lemma inherited_false k :
  JsObject.inherited k = false ↔ k ∉ objectPrototypeNames.
Proof.
  rewrite <- inherited_true. by destruct (JsObject.inherited k).
Qed.

Lemma read_plain {V : Type} (o : JsObject.t V) k :
  k ∉ objectPrototypeNames →
  JsObject.read o k
  = match JsObject.get o k with
    | Some v => JsObject.Stored v
    | None => JsObject.Undefined
    end.
Proof.
  intros H%inherited_false. unfold JsObject.read. by rewrite H.
Qed.

(** ** Grouping *)

Lemma groupStep_eq acc x :
  groupStep acc x
  = match JsObject.get acc (Entry.unit x) with
    | Some bucket =>
        Some (JsObject.set acc (Entry.unit x) (bucket ++ [x])%list)
    | None =>
        if JsObject.inherited (Entry.unit x) then None
        else Some (JsObject.set acc (Entry.unit x) [x])
    end.
Proof.
  unfold groupStep, JsObject.read.
  destruct (JsObject.get acc (Entry.unit x)) as [b|] eqn:E.
  - by rewrite E.
  - destruct (JsObject.inherited (Entry.unit x)) eqn:I.
    + by rewrite E, ?I.
    + rewrite get_set, decide_True by done. simpl. by rewrite set_set.
Qed.

Lemma groupByUnit_snoc l x :
  groupByUnit (l ++ [x]) = groupByUnit l ≫= λ acc, groupStep acc x.
Proof. unfold groupByUnit. by rewrite foldl_app. Qed.

(** The grouping throws when the unit of an entry names a member of
    [Object.prototype]; otherwise a bucket holds the entries of its
    unit, in the order of the list. *)
Lemma groupByUnit_cases l :
  match groupByUnit l with
  | Some grouped =>
      Forall (λ e, Entry.unit e ∉ objectPrototypeNames) l
      ∧ (∀ k, JsObject.get grouped k
              = let bucket := filter (λ e, Entry.unit e = k) l in
                if decide (bucket = []) then None else Some bucket)
      ∧ NoDup (JsObject.created grouped)
  | None => Exists (λ e, Entry.unit e ∈ objectPrototypeNames) l
  end.
Proof.
  induction l as [|x l IH] using rev_ind.
  - simpl. split_and!; [constructor|done|constructor].
  - rewrite groupByUnit_snoc.
    destruct (groupByUnit l) as [g|]; simpl;
      [|apply Exists_app; by left].
    destruct IH as (Hplain & Hget & Hnd). rewrite groupStep_eq.
    assert (∀ g' b,
      (∀ k', JsObject.get g' k'
             = if decide (Entry.unit x = k') then Some (b ++ [x])%list
               else JsObject.get g k') →
      (JsObject.get g (Entry.unit x) = Some b
       ∨ (JsObject.get g (Entry.unit x) = None ∧ b = [])) →
      ∀ k, JsObject.get g' k
           = let bucket := filter (λ e, Entry.unit e = k) (l ++ [x])%list in
             if decide (bucket = []) then None else Some bucket) as Hstep.
    { intros g' b Hg' Hb k. simpl. rewrite Hg'.
      rewrite filter_app, filter_cons, filter_nil.
      destruct (decide (Entry.unit x = k)) as [<-|Hne].
      - rewrite decide_False by (intros H; by apply app_eq_nil in H as [_ ?]).
        specialize (Hget (Entry.unit x)). simpl in Hget.
        destruct Hb as [Hb|[Hb ->]]; rewrite Hb in Hget;
          destruct (decide (filter _ l = [])) as [E|]; try done.
        + by injection Hget as ->.
        + by rewrite E.
      - rewrite app_nil_r. apply Hget. }
    destruct (JsObject.get g (Entry.unit x)) as [b|] eqn:E.
    + split_and!.
      * apply Forall_app. split; [done|]. constructor; [|constructor].
        specialize (Hget (Entry.unit x)). simpl in Hget. rewrite E in Hget.
        destruct (decide (filter _ l = [])) as [|Hne]; [done|].
        destruct (filter (λ e, Entry.unit e = Entry.unit x) l) as [|y r] eqn:F;
          [done|].
        assert (y ∈ filter (λ e, Entry.unit e = Entry.unit x) l) as Hy
          by (rewrite F; apply list_elem_of_here).
        apply list_elem_of_filter in Hy as [<- Hy].
        rewrite Forall_forall in Hplain. by apply Hplain.
      * apply (Hstep _ b); [|by left]. intros k'. apply get_set.
      * rewrite created_set. rewrite decide_True; [done|].
        apply get_is_Some. by rewrite E.
    + destruct (JsObject.inherited (Entry.unit x)) eqn:I.
      * apply Exists_app. right. constructor. by apply inherited_true.
      * split_and!.
        -- apply Forall_app. split; [done|]. constructor; [|constructor].
           by apply inherited_false.
        -- apply (Hstep _ []); [|by right]. intros k'. apply get_set.
        -- rewrite created_set. rewrite decide_False by (by apply get_None).
           apply NoDup_app. split_and!; [done| |apply NoDup_singleton].
           intros y Hy Hx. apply list_elem_of_singleton in Hx. subst.
           by apply get_None in E.
Qed.

Lemma groupByUnit_Some l grouped :
  groupByUnit l = Some grouped →
  Forall (λ e, Entry.unit e ∉ objectPrototypeNames) l
  ∧ (∀ k, JsObject.get grouped k
          = let bucket := filter (λ e, Entry.unit e = k) l in
            if decide (bucket = []) then None else Some bucket)
  ∧ NoDup (JsObject.created grouped).
Proof. intros E. pose proof (groupByUnit_cases l) as H. by rewrite E in H. Qed.

Lemma groupByUnit_None l :
  groupByUnit l = None ↔ Exists (λ e, Entry.unit e ∈ objectPrototypeNames) l.
Proof.
  pose proof (groupByUnit_cases l) as H.
  destruct (groupByUnit l) as [g|]; [|done].
  split; [done|]. destruct H as (H & _). intros Hex.
  apply Exists_exists in Hex as (e & He & Hin).
  rewrite Forall_forall in H. by destruct (H e He).
Qed.

(** ** Lookups built by [reduce] *)

Lemma orderIndexOf_snoc items x name :
  orderIndexOf (items ++ [x]) name
  = if decide (x = name) then Some (length items) else orderIndexOf items name.
Proof.
  induction items as [|y items IH]; simpl.
  - by destruct (decide (x = name)).
  - rewrite IH. destruct (decide (x = name)); [done|].
    by destruct (orderIndexOf items name).
Qed.

Lemma orderIndexOf_None items name :
  orderIndexOf items name = None ↔ name ∉ items.
Proof.
  induction items as [|x items IH]; simpl.
  - split; [intros _; apply not_elem_of_nil|done].
  - rewrite not_elem_of_cons. destruct (orderIndexOf items name) as [i|].
    + split; [done|]. intros [_ H]. by apply IH in H.
    + destruct (decide (x = name)) as [->|Hne].
      * split; [done|]. by intros [? _].
      * split; [|done]. intros _. split; [congruence|by apply IH].
Qed.

(** The index is a position of the name, and the last one. *)
Lemma orderIndexOf_Some items name i :
  orderIndexOf items name = Some i ↔
  items !! i = Some name ∧ ∀ j, i < j → items !! j ≠ Some name.
Proof.
  revert i. induction items as [|x items IH]; intros i; simpl.
  - split; [done|]. by intros [? _].
  - destruct (orderIndexOf items name) as [i'|] eqn:E.
    + split.
      * intros [= <-]. destruct (proj1 (IH i') eq_refl) as [H1 H2].
        split; [done|]. intros [|j] Hj; [lia|]. simpl. apply H2. lia.
      * intros [H1 H2]. destruct i as [|i].
        -- destruct (proj1 (IH i') eq_refl) as [H3 _].
           exfalso. apply (H2 (S i')); [lia|done].
        -- assert (Some i' = Some i) as [= ->]; [|done].
           apply IH. split; [done|].
           intros j Hj. apply (H2 (S j)). lia.
    + apply orderIndexOf_None in E.
      destruct (decide (x = name)) as [->|Hne].
      * split.
        -- intros [= <-]. split; [done|]. intros [|j] Hj; [lia|]. simpl.
           intros H. apply E. by eapply list_elem_of_lookup_2.
        -- intros [H1 _]. destruct i as [|i]; [done|]. simpl in H1.
           exfalso. apply E. by eapply list_elem_of_lookup_2.
      * split; [done|]. intros [H1 _]. destruct i as [|i]; simpl in H1.
        -- congruence.
        -- exfalso. apply E. by eapply list_elem_of_lookup_2.
Qed.

(** The order map has the index of every listed name but [__proto__],
    whose assignment is ignored. *)
Lemma get_createOrderMap items name :
  JsObject.get (createOrderMap items) name
  = if decide (name = "__proto__") then None
    else orderIndexOf (default [] items) name.
Proof.
  unfold createOrderMap.
  induction (default [] items) as [|x l IH] using rev_ind.
  - by destruct (decide _).
  - rewrite imap_app, foldl_app. simpl. unfold JsObject.assign at 1.
    rewrite orderIndexOf_snoc, Nat.add_0_r.
    destruct (decide (x = "__proto__")) as [->|Hx].
    + rewrite IH. destruct (decide (name = "__proto__")) as [->|Hn]; [done|].
      by rewrite decide_False.
    + rewrite get_set, IH.
      destruct (decide (x = name)) as [->|]; [|done].
      by rewrite decide_False.
Qed.

Lemma orderIndex_createOrderMap items value :
  value ∉ objectPrototypeNames →
  orderIndex (createOrderMap items) value
  = match orderIndexOf (default [] items) value with
    | Some i => Js.Position i
    | None => Js.Infinity
    end.
Proof.
  intros H. unfold orderIndex. rewrite read_plain, get_createOrderMap by done.
  rewrite decide_False; [by destruct (orderIndexOf _ _)|]. intros ->. apply H.
  apply list_elem_of_here.
Qed.

(** The map of the week's records: the last record of an id is stored
    under it, the one of the id [__proto__] as the prototype. *)
Lemma own_weeklyStaffDataMap sched staffId :
  JsObject.get (JsObject.own (weeklyStaffDataMap sched)) staffId
  = if decide (staffId = "__proto__") then None else overrideOf sched staffId.
Proof.
  unfold weeklyStaffDataMap, overrideOf.
  induction (default [] (staff <$> sched)) as [|r l IH] using rev_ind.
  - by destruct (decide _).
  - rewrite foldl_app. simpl. unfold JsObject.assignObject at 1.
    rewrite filter_app, filter_cons, filter_nil.
    destruct (decide (Weekly.staffId r = "__proto__")) as [Er|Er]; simpl.
    + rewrite IH. destruct (decide (staffId = "__proto__")) as [|Hs]; [done|].
      rewrite decide_False by congruence. by rewrite app_nil_r.
    + rewrite get_set, IH.
      destruct (decide (Weekly.staffId r = staffId)) as [E|E].
      * rewrite decide_False by congruence. by rewrite last_snoc.
      * by rewrite app_nil_r.
Qed.

Lemma proto_weeklyStaffDataMap sched :
  JsObject.proto (weeklyStaffDataMap sched) = overrideOf sched "__proto__".
Proof.
  unfold weeklyStaffDataMap, overrideOf.
  induction (default [] (staff <$> sched)) as [|r l IH] using rev_ind; [done|].
  rewrite foldl_app. simpl. unfold JsObject.assignObject at 1.
  rewrite filter_app, filter_cons, filter_nil.
  destruct (decide (Weekly.staffId r = "__proto__")) as [Er|Er]; simpl.
  - by rewrite last_snoc.
  - by rewrite IH, app_nil_r.
Qed.

Lemma read_weeklyStaffDataMap sched staffId :
  JsObject.readChained (weeklyStaffDataMap sched) staffId
  = match overrideOf sched staffId with
    | Some r => JsObject.Stored r
    | None =>
        if JsObject.inherited staffId then JsObject.Inherited staffId
        else JsObject.Undefined
    end.
Proof.
  unfold JsObject.readChained.
  rewrite own_weeklyStaffDataMap, proto_weeklyStaffDataMap.
  destruct (decide (staffId = "__proto__")) as [->|Hne].
  - by destruct (overrideOf sched "__proto__").
  - by destruct (overrideOf sched staffId).
Qed.

(** ** The result object *)

Section ResultFacts.
Context (localeCompare : string → string → comparison).
Context (gs : Settings) (grouped : JsObject.t (list Entry.t)).

Lemma get_finalSortedResult unitKeys k :
  "__proto__" ∉ unitKeys →
  JsObject.get (finalSortedResult localeCompare gs grouped unitKeys) k
  = if decide (k ∈ unitKeys) then
      Some (Js.sort (compareEntries localeCompare (createOrderMap (groups gs))
                                    (createOrderMap (jobTitles gs)))
                    (default [] (JsObject.get grouped k)))
    else None.
Proof.
  unfold finalSortedResult.
  induction unitKeys as [|x l IH] using rev_ind; intros Hproto.
  - destruct (decide (k ∈ [])) as [H|H]; [by apply elem_of_nil in H|done].
  - apply not_elem_of_app in Hproto as [Hl Hx].
    apply not_elem_of_cons in Hx as [Hx _].
    rewrite foldl_app. simpl. unfold JsObject.assign at 1.
    rewrite decide_False by done. rewrite get_set, IH by done.
    destruct (decide (x = k)) as [->|Hne].
    + rewrite decide_True; [done|]. apply elem_of_app. right. apply list_elem_of_here.
    + destruct (decide (k ∈ l)) as [Hin|Hnin].
      * rewrite decide_True; [done|]. apply elem_of_app. by left.
      * rewrite decide_False; [done|]. rewrite elem_of_app, list_elem_of_singleton.
        intros [?|?]; [done|congruence].
Qed.

(** The buckets are created in the order of the sorted keys. *)
Lemma created_finalSortedResult unitKeys :
  "__proto__" ∉ unitKeys →
  NoDup unitKeys →
  JsObject.created (finalSortedResult localeCompare gs grouped unitKeys) = unitKeys.
Proof.
  induction unitKeys as [|x l IH] using rev_ind; [done|].
  intros [Hpl Hpx]%not_elem_of_app [Hl [Hx _]]%NoDup_app.
  apply not_elem_of_cons in Hpx as [Hpx _].
  pose proof (get_finalSortedResult l x Hpl) as Hget.
  unfold finalSortedResult in *. rewrite foldl_app. simpl.
  unfold JsObject.assign at 1. rewrite decide_False by done.
  rewrite created_set, IH by done.
  rewrite decide_False; [done|]. intros Hin. apply (Hx x Hin), list_elem_of_here.
Qed.

End ResultFacts.

(** ** The view *)

Section ViewFacts.
Context (localeCompare : string → string → comparison).

#[local] Abbreviation view := (getStaffByUnit localeCompare).
#[local] Abbreviation entryCompare gs :=
  (compareEntries localeCompare (createOrderMap (groups gs))
                  (createOrderMap (jobTitles gs))).

Lemma sortedUnitKeys_NoDup gs grouped :
  NoDup (JsObject.created grouped) →
  NoDup (sortedUnitKeys localeCompare gs grouped).
Proof.
  intros H. unfold sortedUnitKeys. by rewrite sort_Permutation, keys_Permutation.
Qed.

Lemma sortedUnitKeys_proto gs l grouped :
  groupByUnit l = Some grouped →
  "__proto__" ∉ sortedUnitKeys localeCompare gs grouped.
Proof.
  intros (Hplain & Hget & _)%groupByUnit_Some. unfold sortedUnitKeys.
  rewrite elem_of_sort, elem_of_keys, Hget. cbv zeta.
  destruct (decide (filter _ l = [])) as [|Hne]; [by intros [? ?]|].
  intros _. destruct (filter (λ e, Entry.unit e = "__proto__") l) as [|y r] eqn:F;
    [done|].
  assert (y ∈ filter (λ e, Entry.unit e = "__proto__") l) as Hy
    by (rewrite F; apply list_elem_of_here).
  apply list_elem_of_filter in Hy as [Hu Hy].
  rewrite Forall_forall in Hplain. apply (Hplain y Hy). rewrite Hu.
  apply list_elem_of_here.
Qed.

Lemma getStaffByUnit_loaded gs sched :
  activeStaff gs ≠ [] →
  view false false (Some gs) sched
  = grouped ← groupByUnit (combinedStaffList gs sched (activeStaff gs));
    Some (finalSortedResult localeCompare gs grouped
            (sortedUnitKeys localeCompare gs grouped)).
Proof.
  intros H. unfold getStaffByUnit. simpl. fold (activeStaff gs).
  destruct (decide (length (activeStaff gs) = 0)) as [E|E]; [|done].
  by apply nil_length_inv in E.
Qed.

Lemma getStaffByUnit_no_active gs sched :
  activeStaff gs = [] → view false false (Some gs) sched = Some JsObject.empty.
Proof.
  intros E. unfold getStaffByUnit. simpl. fold (activeStaff gs). by rewrite E.
Qed.

(** The view is returned unless the unit of a combined entry names a
    member of [Object.prototype]. *)
Lemma getStaffByUnit_None gs sched :
  view false false (Some gs) sched = None
  ↔ Exists (λ e, Entry.unit e ∈ objectPrototypeNames)
           (combinedStaffList gs sched (activeStaff gs)).
Proof.
  destruct (decide (activeStaff gs = [])) as [E|E].
  - rewrite getStaffByUnit_no_active by done. rewrite E. simpl.
    split; [done|]. by intros ?%Exists_nil.
  - rewrite getStaffByUnit_loaded by done. rewrite <- groupByUnit_None.
    by destruct (groupByUnit _).
Qed.

(** A bucket of the view is the sorted list of the combined entries of
    its unit, and is never empty. *)
Lemma get_getStaffByUnit gs sched v k :
  view false false (Some gs) sched = Some v →
  JsObject.get v k
  = let bucket :=
      filter (λ e, Entry.unit e = k)
             (combinedStaffList gs sched (activeStaff gs)) in
    if decide (bucket = []) then None else Some (Js.sort (entryCompare gs) bucket).
Proof.
  destruct (decide (activeStaff gs = [])) as [E|E].
  - rewrite getStaffByUnit_no_active by done. intros [= <-]. by rewrite E.
  - rewrite getStaffByUnit_loaded by done.
    destruct (groupByUnit _) as [grouped|] eqn:G; [|done]. simpl.
    intros [= <-]. pose proof (sortedUnitKeys_proto gs _ _ G) as Hproto.
    apply groupByUnit_Some in G as (_ & G & _).
    rewrite get_finalSortedResult by done. unfold sortedUnitKeys.
    specialize (G k). simpl in *.
    destruct (decide (filter _ (combinedStaffList gs sched (activeStaff gs)) = []))
      as [F|F].
    + rewrite decide_False; [done|].
      rewrite elem_of_sort, elem_of_keys, G. by intros [? ?].
    + rewrite decide_True; [by rewrite G|].
      rewrite elem_of_sort, elem_of_keys, G. by eexists.
Qed.

Lemma getStaffByUnit_not_loaded settingsLoading scheduleLoading ogs sched v k es :
  view settingsLoading scheduleLoading ogs sched = Some v →
  JsObject.get v k = Some es →
  settingsLoading = false ∧ scheduleLoading = false ∧ is_Some ogs.
Proof.
  unfold getStaffByUnit.
  destruct settingsLoading, scheduleLoading, ogs; simpl;
    try (by intros [= <-]); by intros _ _.
Qed.

(** Every entry of the view is the combined entry of an active member. *)
Lemma view_entry_inv gs sched v k es e :
  view false false (Some gs) sched = Some v →
  JsObject.get v k = Some es →
  e ∈ es →
  Entry.unit e = k ∧
  ∃ g, g ∈ default [] (staffList gs) ∧ Staff.isActive g = true
       ∧ e = entryOf gs sched g.
Proof.
  intros Hv. rewrite (get_getStaffByUnit _ _ _ _ Hv). cbv zeta.
  destruct (decide _) as [|_]; [done|]. intros [= <-].
  rewrite elem_of_sort, list_elem_of_filter. intros [Hk He]. split; [done|].
  unfold combinedStaffList in He. apply list_elem_of_fmap in He as (g & -> & Hg).
  apply list_elem_of_filter in Hg as [Ha Hg]. by exists g.
Qed.

(** Every active member has its combined entry in the bucket of the
    entry's unit. *)
Lemma view_entry_intro gs sched v g :
  view false false (Some gs) sched = Some v →
  g ∈ default [] (staffList gs) → Staff.isActive g = true →
  ∃ es, JsObject.get v (Entry.unit (entryOf gs sched g)) = Some es
        ∧ entryOf gs sched g ∈ es.
Proof.
  intros Hv Hg Ha. rewrite (get_getStaffByUnit _ _ _ _ Hv). cbv zeta.
  assert (entryOf gs sched g
          ∈ filter (λ e, Entry.unit e = Entry.unit (entryOf gs sched g))
                   (combinedStaffList gs sched (activeStaff gs))) as Hin.
  { apply list_elem_of_filter. split; [done|].
    apply list_elem_of_fmap. exists g. split; [done|].
    by apply list_elem_of_filter. }
  destruct (decide _) as [E|_].
  - rewrite E in Hin. by apply elem_of_nil in Hin.
  - eexists. split; [done|]. by apply elem_of_sort.
Qed.

End ViewFacts.
(** ** Entries of the view: effective values and orphan flags *)

Lemma weeklyField_override {A : Type} (field : Weekly.t → option A) sched id :
  weeklyField field (JsObject.readChained (weeklyStaffDataMap sched) id)
  = overrideOf sched id ≫= field.
Proof.
  rewrite read_weeklyStaffDataMap.
  destruct (overrideOf sched id) as [r|]; [done|].
  by destruct (JsObject.inherited id).
Qed.

(** The name read from the week's map is the override's, unless the id
    names a function of [Object.prototype] and has no record. *)
Lemma weeklyName_override sched id :
  is_Some (overrideOf sched id) ∨ id ∉ objectPrototypeNames →
  weeklyName (JsObject.readChained (weeklyStaffDataMap sched) id)
  = overrideOf sched id ≫= Weekly.name.
Proof.
  rewrite read_weeklyStaffDataMap.
  destruct (overrideOf sched id) as [r|]; [done|].
  intros [[? [=]]|H]. rewrite (proj2 (inherited_false id) H). done.
Qed.

Lemma entryOf_fields gs sched g : hasEffectiveFields sched g (entryOf gs sched g).
Proof.
  unfold hasEffectiveFields, entryOf, combineStaff, effective, effectiveValue,
    effectiveShifts, Js.nullish. simpl.
  rewrite !weeklyField_override.
  destruct (overrideOf sched (Staff.id g)) as [w|]; simpl; [|done].
  by split_and!.
Qed.

Lemma entryOf_unit gs sched g :
  Entry.unit (entryOf gs sched g) = effectiveUnit sched g.
Proof. by destruct (entryOf_fields gs sched g) as (_ & -> & _). Qed.

Lemma entryOf_name gs sched g :
  is_Some (overrideOf sched (Staff.id g)) ∨ Staff.id g ∉ objectPrototypeNames →
  Entry.name (entryOf gs sched g)
  = effectiveName (overrideOf sched (Staff.id g)) (Staff.name g).
Proof.
  intros H. unfold entryOf, combineStaff, effectiveName. simpl.
  rewrite weeklyName_override by done.
  by destruct (overrideOf sched (Staff.id g)) as [w|].
Qed.

Lemma entryOf_effective gs sched g :
  is_Some (overrideOf sched (Staff.id g)) ∨ Staff.id g ∉ objectPrototypeNames →
  isEffectiveEntry sched g (entryOf gs sched g).
Proof.
  intros H. pose proof (entryOf_fields gs sched g) as (? & ? & ? & ? & ?).
  pose proof (entryOf_name gs sched g H).
  by split_and!.
Qed.

(** The view is returned exactly when no active member's effective unit
    names a member of [Object.prototype]. *)
Lemma getStaffByUnit_throws localeCompare gs sched :
  getStaffByUnit localeCompare false false (Some gs) sched = None
  ↔ Exists (λ g, effectiveUnit sched g ∈ objectPrototypeNames) (activeStaff gs).
Proof.
  rewrite getStaffByUnit_None. unfold combinedStaffList.
  fold (entryOf gs sched). rewrite !Exists_exists. split.
  - intros (e & (g & -> & Hg)%list_elem_of_fmap & He).
    exists g. by rewrite <- entryOf_unit with (gs := gs).
  - intros (g & Hg & He). exists (entryOf gs sched g).
    split; [by apply list_elem_of_fmap_2|]. by rewrite entryOf_unit.
Qed.

Lemma getStaffByUnit_returns localeCompare gs sched :
  Forall (λ g, effectiveUnit sched g ∉ objectPrototypeNames) (activeStaff gs) →
  is_Some (getStaffByUnit localeCompare false false (Some gs) sched).
Proof.
  intros H.
  destruct (getStaffByUnit localeCompare false false (Some gs) sched) eqn:E;
    [by eexists|].
  apply getStaffByUnit_throws in E. apply Exists_exists in E as (g & Hg & He).
  rewrite Forall_forall in H. by destruct (H g Hg).
Qed.

Lemma isOrphaned_true valid override field :
  isOrphaned valid (override ≫= field) = true
  ↔ orphanedByOverride valid override field.
Proof.
  unfold isOrphaned, orphanedByOverride, Js.truthy, Js.has, Js.orEmpty.
  destruct override as [w|]; simpl.
  - destruct (field w) as [v|] eqn:E; simpl.
    + rewrite andb_true_iff, negb_true_iff, bool_decide_eq_true,
        bool_decide_eq_false.
      split.
      * intros [? ?]. by exists w, v.
      * intros (w' & v' & [= <-] & Hv & ? & ?). rewrite E in Hv.
        by injection Hv as <-.
    + split; [done|]. intros (w' & v' & [= <-] & Hv & _). congruence.
  - split; [done|]. by intros (w' & v' & ? & _).
Qed.

Lemma annotated_field valid override field global :
  isAnnotatedField valid override field
    (isOrphaned valid (override ≫= field))
    (effective (override ≫= field) global)
    (display (isOrphaned valid (override ≫= field))
             (effective (override ≫= field) global)).
Proof.
  split_and!.
  - apply isOrphaned_true.
  - by intros ->.
  - done.
Qed.

Lemma entryOf_annotated gs sched g : isAnnotatedEntry gs sched g (entryOf gs sched g).
Proof.
  unfold isAnnotatedEntry, entryOf, combineStaff. cbv zeta.
  rewrite !weeklyField_override. cbn [Entry.staffId Entry.unit Entry.displayUnit
    Entry.isOrphanedUnit Entry.group Entry.displayGroup Entry.isOrphanedGroup
    Entry.jobTitle Entry.displayJobTitle Entry.isOrphanedJobTitle].
  split_and!; [done|apply annotated_field..].
Qed.

Lemma NoDup_fmap_eq {A B : Type} (f : A → B) (l : list A) (x y : A) :
  NoDup (f <$> l) → x ∈ l → y ∈ l → f x = f y → x = y.
Proof.
  induction l as [|z l IH]; intros Hnd Hx Hy E.
  - by apply elem_of_nil in Hx.
  - rewrite fmap_cons in Hnd. apply NoDup_cons in Hnd as [Hz Hnd].
    apply elem_of_cons in Hx as [->|Hx]; apply elem_of_cons in Hy as [->|Hy].
    + done.
    + exfalso. apply Hz. rewrite E. by apply list_elem_of_fmap_2.
    + exfalso. apply Hz. rewrite <- E. by apply list_elem_of_fmap_2.
    + by apply IH.
Qed.

(** C8. P3 (active filter): every entry of a view that [getStaffByUnit]
    returns is the entry of a roster member whose [isActive] is true, so
    that on a roster with unique ids no entry carries the id of an
    inactive member; and a roster without active members yields the
    empty object. *)
Theorem C8_active_filter (localeCompare : string → string → comparison)
    (settingsLoading scheduleLoading : bool)
    (ogs : option Settings) (sched : option WeeklySchedule) :
  (∀ view k es e,
     getStaffByUnit localeCompare settingsLoading scheduleLoading ogs sched
       = Some view →
     JsObject.get view k = Some es →
     e ∈ es →
     ∃ gs g, ogs = Some gs ∧ g ∈ default [] (staffList gs)
             ∧ Staff.isActive g = true ∧ e = entryOf gs sched g)
  ∧ (∀ gs g view k es e,
       ogs = Some gs →
       NoDup (Staff.id <$> default [] (staffList gs)) →
       g ∈ default [] (staffList gs) → Staff.isActive g = false →
       getStaffByUnit localeCompare settingsLoading scheduleLoading ogs sched
         = Some view →
       JsObject.get view k = Some es →
       e ∈ es → Entry.staffId e ≠ Staff.id g)
  ∧ (∀ gs,
       ogs = Some gs → activeStaff gs = [] →
       getStaffByUnit localeCompare settingsLoading scheduleLoading ogs sched
       = Some JsObject.empty).
Proof.
  assert (∀ view k es e,
     getStaffByUnit localeCompare settingsLoading scheduleLoading ogs sched
       = Some view →
     JsObject.get view k = Some es →
     e ∈ es →
     ∃ gs g, ogs = Some gs ∧ g ∈ default [] (staffList gs)
             ∧ Staff.isActive g = true ∧ e = entryOf gs sched g) as Hinv.
  { intros view k es e Hview Hget He.
    destruct (getStaffByUnit_not_loaded _ _ _ _ _ _ _ _ Hview Hget)
      as (-> & -> & [gs ->]).
    destruct (view_entry_inv _ _ _ _ _ _ _ Hview Hget He) as (_ & g & ? & ? & ?).
    by exists gs, g. }
  split_and!; [done| |].
  - intros gs g view k es e -> Hnd Hg Hinactive Hview Hget He Hid.
    destruct (Hinv view k es e Hview Hget He)
      as (gs' & g' & [= <-] & Hg' & Hactive & ->).
    assert (g' = g) as -> by (by eapply NoDup_fmap_eq).
    congruence.
  - intros gs -> Hnone. unfold getStaffByUnit.
    destruct (settingsLoading || scheduleLoading); [done|].
    fold (activeStaff gs). by rewrite Hnone.
Qed.

Lemma C8_witness :
  (∃ gs g, Some sampleSettings = Some gs ∧ g ∈ default [] (staffList gs)
           ∧ Staff.isActive g = true
           ∧ entryOf sampleSettings (Some sampleWeek)
               sampleCook
             = entryOf gs (Some sampleWeek) g)
  ∧ Entry.staffId
      (entryOf sampleSettings (Some sampleWeek) sampleCook)
    ≠ "s4"
  ∧ getStaffByUnit String.compare false false (Some missingSettings)
                   (Some sampleWeek)
    = Some JsObject.empty.
Proof.
  pose proof (C8_active_filter String.compare false false (Some sampleSettings)
                (Some sampleWeek)) as (H1 & H2 & _).
  split_and!.
  - apply (H1 (default JsObject.empty sampleView) "Konyha"
              [entryOf sampleSettings (Some sampleWeek) sampleCook]);
      [vm_compute; reflexivity|vm_compute; reflexivity|apply list_elem_of_here].
  - apply (H2 sampleSettings
             (sampleMember "s4" "Inactive User" "II." "Csibe (A)" "k.gy.n." false 3 "4")
             (default JsObject.empty sampleView)
             "Konyha" [entryOf sampleSettings (Some sampleWeek) sampleCook]).
    + reflexivity.
    + apply (bool_decide_unpack _). vm_compute. exact I.
    + vm_compute. do 3 apply list_elem_of_further. apply list_elem_of_here.
    + reflexivity.
    + vm_compute; reflexivity.
    + vm_compute; reflexivity.
    + apply list_elem_of_here.
  - apply (proj2 (proj2 (C8_active_filter String.compare false false
                           (Some missingSettings) (Some sampleWeek)))
             missingSettings).
    + reflexivity.
    + reflexivity.
Defined.

(** C4. In a view that [getStaffByUnit] returns, the entry of an active
    member carries the member's effective unit, group and job title (the
    override's value when the override record exists and sets the field,
    the empty string included, and the roster default otherwise) and its
    effective shifts (the override's, or the empty map); its name is the
    effective name (the override's when supplied, else the roster name)
    when the member has an override record or an id that is not the name
    of a member of [Object.prototype]. The view is returned when no
    active member's effective unit is such a name. The claim fails
    where the plain objects of the merge are read at such names: with
    an active member in a unit named "constructor" the grouping throws
    and there is no view, and the entry of a member whose id is
    "constructor", without a record in the week, is named "Object"
    instead of the roster name "Anna". *)
Theorem C4_effective_values (localeCompare : string → string → comparison) :
  (∀ gs sched view,
     getStaffByUnit localeCompare false false (Some gs) sched = Some view →
     (∀ k es e,
        JsObject.get view k = Some es → e ∈ es →
        ∃ g, g ∈ default [] (staffList gs) ∧ Staff.isActive g = true
             ∧ hasEffectiveFields sched g e
             ∧ (is_Some (overrideOf sched (Staff.id g))
                ∨ Staff.id g ∉ objectPrototypeNames →
                isEffectiveEntry sched g e))
     ∧ (∀ g,
          g ∈ default [] (staffList gs) → Staff.isActive g = true →
          ∃ es e,
            JsObject.get view (effectiveUnit sched g) = Some es
            ∧ e ∈ es ∧ hasEffectiveFields sched g e
            ∧ (is_Some (overrideOf sched (Staff.id g))
               ∨ Staff.id g ∉ objectPrototypeNames →
               isEffectiveEntry sched g e)))
  ∧ (∀ gs sched,
       Forall (λ g, effectiveUnit sched g ∉ objectPrototypeNames)
              (activeStaff gs) →
       is_Some (getStaffByUnit localeCompare false false (Some gs) sched))
  ∧ getStaffByUnit localeCompare false false (Some constructorUnit) None = None
  ∧ ∃ view e,
      getStaffByUnit localeCompare false false (Some constructorId) None
        = Some view
      ∧ JsObject.get view "I." = Some [e]
      ∧ Entry.staffId e = Staff.id constructorMember
      ∧ effectiveName (overrideOf None (Staff.id constructorMember))
                      (Staff.name constructorMember) = Some "Anna"
      ∧ Entry.name e = Some "Object".
Proof.
  split_and!.
  - intros gs sched view Hview. split.
    + intros k es e Hget He.
      destruct (view_entry_inv _ _ _ _ _ _ _ Hview Hget He)
        as (_ & g & ? & ? & ->).
      exists g. split_and!; [done..|apply entryOf_fields|apply entryOf_effective].
    + intros g Hg Ha.
      destruct (view_entry_intro localeCompare gs sched view g Hview Hg Ha)
        as (es & ? & ?).
      exists es, (entryOf gs sched g). rewrite <- (entryOf_unit gs).
      split_and!; [done..|apply entryOf_fields|apply entryOf_effective].
  - intros gs sched. apply getStaffByUnit_returns.
  - reflexivity.
  - exists [("I.", [entryOf constructorId None constructorMember])],
      (entryOf constructorId None constructorMember).
    split_and!; reflexivity.
Qed.

Lemma C4_witness :
  ∃ view es e,
    scenarioView "" = Some view
    ∧ JsObject.get view "" = Some es
    ∧ e ∈ es
    ∧ isEffectiveEntry (Some (unitOverride "")) scenarioMember e
    ∧ Entry.unit e = "" ∧ Entry.name e = Some "X" ∧ Entry.shifts e = ∅.
Proof.
  destruct (proj1 (C4_effective_values String.compare) scenarioSettings
              (Some (unitOverride "")) (default JsObject.empty (scenarioView ""))
              eq_refl) as [_ H].
  destruct (H scenarioMember) as (es & e & Hget & He & _ & Heff).
  - apply list_elem_of_here.
  - reflexivity.
  - specialize (Heff (or_introl (mk_is_Some _ _ eq_refl))).
    exists (default JsObject.empty (scenarioView "")), es, e.
    split_and!; [reflexivity|done..| | |].
    + by destruct Heff as (_ & -> & _).
    + by destruct Heff as (_ & _ & _ & _ & -> & _).
    + by destruct Heff as (_ & _ & _ & _ & _ & ->).
Defined.

(** An override that sets a field to the empty string is the effective
    value, whatever the roster default. *)
Lemma effectiveValue_empty_override w field rosterDefault :
  field w = Some "" → effectiveValue (Some w) field rosterDefault = "".
Proof. unfold effectiveValue. by intros ->. Qed.

(** C1 (amended). P2 (orphan correctness), in a view that
    [getStaffByUnit] returns: a field of an entry is flagged orphaned
    exactly when the member's override record exists and supplies a
    non-empty value for the field that is not in the category set; a
    field without an override value is never flagged, whatever the
    roster default; the display string of a flagged field is the value
    followed by " (törölt)", and the value itself otherwise. Every entry
    of the view is such an entry of an active member, and every active
    member has one in the view. *)
Theorem C1_orphan_flags (localeCompare : string → string → comparison)
    (gs : Settings) (sched : option WeeklySchedule)
    (view : JsObject.t (list Entry.t)) :
  getStaffByUnit localeCompare false false (Some gs) sched = Some view →
  (∀ k es e,
     JsObject.get view k = Some es →
     e ∈ es →
     ∃ g, g ∈ default [] (staffList gs) ∧ Staff.isActive g = true
          ∧ isAnnotatedEntry gs sched g e)
  ∧ (∀ g,
       g ∈ default [] (staffList gs) → Staff.isActive g = true →
       ∃ es e,
         JsObject.get view (Entry.unit e) = Some es
         ∧ e ∈ es ∧ isAnnotatedEntry gs sched g e).
Proof.
  intros Hview. split.
  - intros k es e Hget He.
    destruct (view_entry_inv _ _ _ _ _ _ _ Hview Hget He)
      as (_ & g & ? & ? & ->).
    exists g. split_and!; [done..|apply entryOf_annotated].
  - intros g Hg Ha.
    destruct (view_entry_intro localeCompare gs sched view g Hview Hg Ha)
      as (es & ? & ?).
    exists es, (entryOf gs sched g). split_and!; [done..|apply entryOf_annotated].
Qed.

Lemma C1_witness :
  scenarioView "Deleted"
    = Some [("Deleted",
             [entryOf scenarioSettings (Some (unitOverride "Deleted"))
                      scenarioMember])]
  ∧ ∃ g, g ∈ default [] (staffList scenarioSettings) ∧ Staff.isActive g = true
       ∧ isAnnotatedEntry scenarioSettings (Some (unitOverride "Deleted")) g
           (entryOf scenarioSettings (Some (unitOverride "Deleted")) scenarioMember).
Proof.
  split; [reflexivity|].
  apply (proj1 (C1_orphan_flags String.compare scenarioSettings
                  (Some (unitOverride "Deleted")) _ eq_refl)
           "Deleted"
           [entryOf scenarioSettings (Some (unitOverride "Deleted")) scenarioMember]).
  - vm_compute. reflexivity.
  - apply list_elem_of_here.
Defined.

(** The claim as the specification words it fails twice: an override that
    sets the unit to the empty string supplies a value outside the units,
    yet the entry is not flagged; and the display string of a flagged unit
    does not end in " (deleted)". *)
Lemma C1_counterexample :
  (∃ view es e,
     scenarioView "" = Some view
     ∧ JsObject.get view "" = Some es ∧ e ∈ es
     ∧ Entry.staffId e = "s1"
     ∧ overrideOutsideSet (default [] (units scenarioSettings))
         (overrideOf (Some (unitOverride "")) "s1") Weekly.unit
     ∧ Entry.isOrphanedUnit e = false)
  ∧ (∃ view es e,
       scenarioView "Deleted" = Some view
       ∧ JsObject.get view "Deleted" = Some es ∧ e ∈ es
       ∧ Entry.isOrphanedUnit e = true
       ∧ Entry.displayUnit e = "Deleted (törölt)"
       ∧ Entry.displayUnit e ≠ "Deleted (deleted)").
Proof.
  split.
  - exists [("", [entryOf scenarioSettings (Some (unitOverride "")) scenarioMember])],
      [entryOf scenarioSettings (Some (unitOverride "")) scenarioMember],
      (entryOf scenarioSettings (Some (unitOverride "")) scenarioMember).
    split_and!.
    + vm_compute. reflexivity.
    + vm_compute. reflexivity.
    + apply list_elem_of_here.
    + reflexivity.
    + eexists _, "". split_and!; [reflexivity|reflexivity|].
      simpl. rewrite !elem_of_cons, elem_of_nil. by intros [|[|]].
    + reflexivity.
  - exists [("Deleted",
             [entryOf scenarioSettings (Some (unitOverride "Deleted")) scenarioMember])],
      [entryOf scenarioSettings (Some (unitOverride "Deleted")) scenarioMember],
      (entryOf scenarioSettings (Some (unitOverride "Deleted")) scenarioMember).
    split_and!.
    + vm_compute. reflexivity.
    + vm_compute. reflexivity.
    + apply list_elem_of_here.
    + reflexivity.
    + reflexivity.
    + by vm_compute.
Qed.
(** ** The order of the unit buckets *)

(** The keys of the grouping are units of entries, none of them the
    name of a member of [Object.prototype]. *)
Lemma created_groupByUnit_plain l grouped :
  groupByUnit l = Some grouped →
  Forall (λ k, k ∉ objectPrototypeNames) (JsObject.created grouped).
Proof.
  intros (Hplain & Hget & _)%groupByUnit_Some.
  apply Forall_forall. intros k [es Hk]%get_is_Some.
  rewrite Hget in Hk. cbv zeta in Hk.
  destruct (decide (filter _ l = [])) as [|Hne]; [done|].
  destruct (filter (λ e, Entry.unit e = k) l) as [|y r] eqn:F; [done|].
  assert (y ∈ filter (λ e, Entry.unit e = k) l) as Hy
    by (rewrite F; apply list_elem_of_here).
  apply list_elem_of_filter in Hy as [<- Hy].
  rewrite Forall_forall in Hplain. by apply Hplain.
Qed.

Section UnitOrder.
Context (localeCompare : string → string → comparison).
Context (collation : Collation localeCompare).

Lemma unitIndex_orderIndexOf units a :
  a ∉ objectPrototypeNames →
  unitIndex (default [] units) (createOrderMap units) a
  = if decide (a = "") then Js.Infinity
    else match orderIndexOf (default [] units) a with
         | Some i => Js.Position i
         | None => Js.Infinity
         end.
Proof.
  intros Ha. unfold unitIndex, Js.has. destruct (decide (a = "")); [done|].
  rewrite orderIndex_createOrderMap by done.
  case_bool_decide as H; [done|].
  apply orderIndexOf_None in H. by rewrite H.
Qed.

Lemma compareUnitKeys_le units a b :
  a ∉ objectPrototypeNames → b ∉ objectPrototypeNames →
  compareUnitKeys localeCompare (default [] units) (createOrderMap units) a b ≠ Gt →
  unitBefore localeCompare (default [] units) a b.
Proof.
  intros Ha Hb. unfold compareUnitKeys, unitBefore.
  rewrite !unitIndex_orderIndexOf by done.
  destruct (decide (a = "")); [done|]. destruct (decide (b = "")); [by left|].
  intros H. right. split_and!; [done..|].
  destruct (orderIndexOf _ a), (orderIndexOf _ b);
    repeat case_decide; try done; try (intuition congruence).
  simpl in H. by apply Nat.compare_le_iff.
Qed.

Lemma compareUnitKeys_gt units a b :
  a ∉ objectPrototypeNames → b ∉ objectPrototypeNames →
  compareUnitKeys localeCompare (default [] units) (createOrderMap units) a b = Gt →
  unitBefore localeCompare (default [] units) b a.
Proof.
  intros Ha Hb. unfold compareUnitKeys, unitBefore.
  rewrite !unitIndex_orderIndexOf by done.
  destruct (decide (a = "")); [by left|]. destruct (decide (b = "")); [done|].
  intros H. right. split_and!; [done..|].
  destruct (orderIndexOf _ a), (orderIndexOf _ b);
    repeat case_decide; try done; try (intuition congruence).
  - simpl in H. apply Nat.compare_gt_iff in H. lia.
  - rewrite (collation_antisym _ collation), H. done.
Qed.

Lemma unitBefore_trans units a b c :
  unitBefore localeCompare units a b → unitBefore localeCompare units b c →
  unitBefore localeCompare units a c.
Proof.
  unfold unitBefore. intros Hab [->|(Hb & Hc & Hbc)]; [by left|].
  destruct Hab as [->|(Ha & _ & Hab)]; [done|].
  right. split_and!; [done..|].
  destruct (orderIndexOf units a), (orderIndexOf units b), (orderIndexOf units c);
    try done; try lia.
  by eapply (collation_trans _ collation).
Qed.

(** The sorted unit keys are in the order of the specification. *)
Lemma sortedUnitKeys_sorted gs l grouped :
  groupByUnit l = Some grouped →
  StronglySorted (unitBefore localeCompare (default [] (units gs)))
                 (sortedUnitKeys localeCompare gs grouped).
Proof.
  intros Hplain%created_groupByUnit_plain. unfold sortedUnitKeys.
  apply (sort_sorted _ _ (λ k, k ∉ objectPrototypeNames)).
  - intros x y. apply compareUnitKeys_le.
  - intros x y. apply compareUnitKeys_gt.
  - intros x y z _ _ _. apply unitBefore_trans.
  - rewrite Forall_forall in *. intros k Hk. apply Hplain.
    by rewrite <- keys_Permutation.
Qed.

(** The buckets of the view are created in the order of the sorted unit
    keys. *)
Lemma view_created gs sched view :
  activeStaff gs ≠ [] →
  getStaffByUnit localeCompare false false (Some gs) sched = Some view →
  ∃ grouped,
    groupByUnit (combinedStaffList gs sched (activeStaff gs)) = Some grouped
    ∧ JsObject.created view = sortedUnitKeys localeCompare gs grouped.
Proof.
  intros Hactive. rewrite getStaffByUnit_loaded by done.
  destruct (groupByUnit _) as [grouped|] eqn:G; [|done]. simpl.
  intros [= <-]. exists grouped. split; [done|].
  apply created_finalSortedResult; [by eapply sortedUnitKeys_proto|].
  apply sortedUnitKeys_NoDup.
  by apply groupByUnit_Some in G as (_ & _ & ?).
Qed.

(** The bucket order of the specification holds of every view none of
    whose unit names is an array index. *)
Lemma view_keys_sorted gs sched view :
  getStaffByUnit localeCompare false false (Some gs) sched = Some view →
  Forall (λ k, ¬ JsObject.isIndex k) (JsObject.created view) →
  StronglySorted (unitBefore localeCompare (default [] (units gs)))
    (JsObject.keys view).
Proof.
  intros Hview Hkeys. destruct (decide (activeStaff gs = [])) as [E|E].
  - rewrite getStaffByUnit_no_active in Hview by done.
    injection Hview as <-. constructor.
  - rewrite keys_created by done.
    destruct (view_created gs sched view E Hview) as (grouped & G & ->).
    by eapply sortedUnitKeys_sorted.
Qed.

End UnitOrder.

(** C2. With the units listed as "2" then "1" and a member in each, the
    sorted keys are "2", "1", but the result object enumerates "1" before
    "2": the bucket of the unit with the higher index comes first. *)
Theorem C2_numbered_units (localeCompare : string → string → comparison) :
  ∃ grouped view,
    groupByUnit (combinedStaffList numberedSettings None
                   (activeStaff numberedSettings)) = Some grouped
    ∧ sortedUnitKeys localeCompare numberedSettings grouped = ["2"; "1"]
    ∧ getStaffByUnit localeCompare false false (Some numberedSettings) None
      = Some view
    ∧ JsObject.keys view = ["1"; "2"]
    ∧ orderIndexOf (default [] (units numberedSettings)) "2" = Some 0
    ∧ orderIndexOf (default [] (units numberedSettings)) "1" = Some 1
    ∧ ¬ StronglySorted
          (unitBefore localeCompare (default [] (units numberedSettings)))
          (JsObject.keys view).
Proof.
  eexists _, _. split; [vm_compute; reflexivity|].
  split; [vm_compute; reflexivity|].
  split; [vm_compute; reflexivity|].
  assert (∀ A (o : JsObject.t A), JsObject.created o = ["2"; "1"] →
            JsObject.keys o = ["1"; "2"]) as E.
  { intros A o Ho. unfold JsObject.keys. by rewrite Ho. }
  rewrite E by reflexivity.
  split_and!; [done..|].
  intros H. apply StronglySorted_inv in H as [_ H].
  apply Forall_cons in H as [[?|(_ & _ & H)] _]; [done|].
  simpl in H. lia.
Qed.

(** ** The order within a bucket *)

Section Consistency.
Context {A : Type}.
Implicit Types (P : A → Prop) (cmp : A → A → comparison).

Lemma consistentOn_weaken P Q cmp :
  (∀ x, Q x → P x) → consistentOn P cmp → consistentOn Q cmp.
Proof. intros HPQ [H1 H2]. split; eauto 10. Qed.

Lemma consistentOn_Lt P cmp x y z :
  consistentOn P cmp → P x → P y → P z →
  cmp x y ≠ Gt → cmp y z ≠ Gt → cmp x z = Eq → cmp x y = Eq ∧ cmp y z = Eq.
Proof.
  intros [Hanti Htrans] Px Py Pz Hxy Hyz Hxz.
  assert (cmp z x ≠ Gt) as Hzx by (rewrite (Hanti x z), Hxz; done).
  pose proof (Htrans y z x Py Pz Px Hyz Hzx) as Hyx.
  pose proof (Htrans z x y Pz Px Py Hzx Hxy) as Hzy.
  rewrite (Hanti x y) in Hyx by done. rewrite (Hanti y z) in Hzy by done.
  split; [by destruct (cmp x y)|by destruct (cmp y z)].
Qed.

Lemma lexicographic_consistent P cmp1 cmp2 :
  consistentOn P cmp1 → consistentOn P cmp2 →
  consistentOn P (λ x y, lexicographic (cmp1 x y) (cmp2 x y)).
Proof.
  intros H1 H2. split.
  - intros x y Px Py. rewrite (proj1 H1 x y), (proj1 H2 x y) by done.
    by destruct (cmp1 x y).
  - intros x y z Px Py Pz Hxy Hyz.
    assert (cmp1 x y ≠ Gt) as Hxy1 by (by destruct (cmp1 x y)).
    assert (cmp1 y z ≠ Gt) as Hyz1 by (by destruct (cmp1 y z)).
    pose proof (proj2 H1 x y z Px Py Pz Hxy1 Hyz1) as Hxz1.
    destruct (cmp1 x z) eqn:E; [|done|done]. simpl.
    destruct (consistentOn_Lt P cmp1 x y z H1 Px Py Pz Hxy1 Hyz1 E) as [E1 E2].
    rewrite E1 in Hxy. rewrite E2 in Hyz. simpl in *.
    by apply (proj2 H2 x y z).
Qed.

Lemma consistentOn_preimage {B : Type} (f : B → A) P cmp :
  consistentOn P cmp → consistentOn (λ x, P (f x)) (λ x y, cmp (f x) (f y)).
Proof. intros [H1 H2]. split; eauto 10. Qed.

(** A consistent comparator sorts. *)
Lemma consistent_sort P cmp l :
  consistentOn P cmp → Forall P l →
  StronglySorted (λ x y, cmp x y ≠ Gt) (Js.sort cmp l).
Proof.
  intros [Hanti Htrans] Hl.
  apply (sort_sorted cmp (λ x y, cmp x y ≠ Gt) P); try done.
  intros x y Px Py E. by rewrite (Hanti x y), E.
Qed.

End Consistency.

Lemma subSign_Z_consistent : consistentOn (λ _, True) (Js.subSign Z.compare).
Proof.
  split.
  - intros [x|] [y|] _ _; simpl; try done. apply Z.compare_antisym.
  - intros [x|] [y|] [z|] _ _ _; simpl; try done.
    rewrite !Z.compare_le_iff. lia.
Qed.

Lemma sortOrderSign_consistent : consistentOn (λ _, True) sortOrderSign.
Proof.
  split.
  - intros [x|] [y|] _ _; simpl; try done. apply Z.compare_antisym.
  - intros [x|] [y|] [z|] _ _ _; simpl; try done.
    rewrite !Z.compare_le_iff. lia.
Qed.

(** Sorting the images of a list sorts the list. *)
Lemma sort_fmap {A B : Type} (f : A → B) (cmp : B → B → comparison)
    (l : list A) :
  Js.sort cmp (f <$> l) = f <$> Js.sort (λ x y, cmp (f x) (f y)) l.
Proof.
  unfold Js.sort. induction l as [|x l IH]; [done|].
  cbn [fmap list_fmap foldr]. rewrite IH.
  generalize (foldr (Js.sortInsert (λ x y, cmp (f x) (f y))) [] l). intros s.
  induction s as [|y s IHs]; [done|]. simpl.
  destruct (cmp (f x) (f y)); [done..|]. simpl. f_equal. apply IHs.
Qed.

Lemma filter_fmap {A B : Type} (f : A → B) (P : B → Prop)
    `{!∀ y, Decision (P y)} (l : list A) :
  filter P (f <$> l) = f <$> filter (λ x, P (f x)) l.
Proof.
  induction l as [|x l IH]; [done|].
  rewrite fmap_cons, !filter_cons. destruct (decide (P (f x))).
  - by rewrite fmap_cons, IH.
  - done.
Qed.

Section EntryOrder.
Context (localeCompare : string → string → comparison).
Context (collation : Collation localeCompare).

Lemma localeCompare_consistent : consistentOn (λ _, True) localeCompare.
Proof.
  split.
  - intros x y _ _. apply (collation_antisym _ collation).
  - intros x y z _ _ _. apply (collation_trans _ collation).
Qed.

Lemma compareKeys_antisym a b :
  compareKeys localeCompare b a = CompOpp (compareKeys localeCompare a b).
Proof.
  destruct a, b; simpl; try done.
  - apply Nat.compare_antisym.
  - apply (collation_antisym _ collation).
Qed.

(** Without unlisted names the keys are totally preordered. *)
Lemma compareKeys_listed_orphaned :
  consistentOn (λ k, k ≠ Unlisted) (compareKeys localeCompare).
Proof.
  split; [intros; apply compareKeys_antisym|].
  intros [i|s|] [j|t|] [k|u|] ? ? ?; simpl; try done.
  - rewrite !Nat.compare_le_iff. lia.
  - apply (collation_trans _ collation).
Qed.

(** Without orphaned names as well. *)
Lemma compareKeys_listed_unlisted :
  consistentOn (λ k, ∀ name, k ≠ Orphaned name) (compareKeys localeCompare).
Proof.
  split; [intros; apply compareKeys_antisym|].
  intros [i|s|] [j|t|] [k|u|] Hx Hy Hz; simpl; try done;
    try (by destruct (Hx s)); try (by destruct (Hy t)); try (by destruct (Hz u)).
  rewrite !Nat.compare_le_iff. lia.
Qed.

Lemma unmixed_cases (keys : list CategoryKey) :
  unmixed keys →
  Forall (λ k, k ≠ Unlisted) keys ∨ Forall (λ k, ∀ name, k ≠ Orphaned name) keys.
Proof.
  intros H. induction keys as [|k keys IH]; [by left|].
  destruct IH as [IH|IH].
  - intros [H1 [s H2]]. apply H. split; [by right|]. exists s. by right.
  - destruct k as [i|s|].
    + left. by constructor.
    + left. by constructor.
    + right. constructor; [done|]. apply Forall_forall. intros k Hk s ->.
      apply H. split; [by left|]. exists s. by right.
  - destruct k as [i|s|].
    + right. by constructor.
    + left. constructor; [done|]. apply Forall_forall. intros k Hk ->.
      apply H. split; [by right|]. exists s. by left.
    + right. by constructor.
Qed.

Lemma compareKeys_unmixed {B : Type} (key : B → CategoryKey) (l : list B) :
  unmixed (key <$> l) →
  ∃ P, Forall P l ∧ consistentOn P (λ x y, compareKeys localeCompare (key x) (key y)).
Proof.
  intros [H|H]%unmixed_cases.
  - exists (λ x, key x ≠ Unlisted). split.
    + apply Forall_forall. intros x Hx.
      rewrite Forall_forall in H. apply H. by apply list_elem_of_fmap_2.
    + apply (consistentOn_preimage key _ _ compareKeys_listed_orphaned).
  - exists (λ x, ∀ name, key x ≠ Orphaned name). split.
    + apply Forall_forall. intros x Hx.
      rewrite Forall_forall in H. apply H. by apply list_elem_of_fmap_2.
    + apply (consistentOn_preimage key _ _ compareKeys_listed_unlisted).
Qed.

(** The comparator of the source is the order of the keys, for values
    that are not names of members of [Object.prototype]. *)
Lemma categoryIndex_plain items flagged value :
  value ∉ objectPrototypeNames →
  categoryIndex flagged (createOrderMap items) value
  = match categoryKey (default [] items) flagged value with
    | Listed i => Js.Position i
    | _ => Js.Infinity
    end.
Proof.
  intros H. unfold categoryIndex, categoryKey. destruct flagged; [done|].
  rewrite orderIndex_createOrderMap by done.
  by destruct (orderIndexOf _ _).
Qed.

Lemma compareCategory_keys items flaggedA flaggedB valueA valueB :
  valueA ∉ objectPrototypeNames → valueB ∉ objectPrototypeNames →
  compareCategory localeCompare (createOrderMap items)
                  flaggedA flaggedB valueA valueB
  = match compareKeys localeCompare
            (categoryKey (default [] items) flaggedA valueA)
            (categoryKey (default [] items) flaggedB valueB) with
    | Eq => None
    | c => Some c
    end.
Proof.
  intros HA HB. unfold compareCategory. rewrite !categoryIndex_plain by done.
  unfold categoryKey.
  destruct flaggedA, flaggedB;
    [|destruct (orderIndexOf _ valueB) as [j|]
     |destruct (orderIndexOf _ valueA) as [i|]
     |destruct (orderIndexOf _ valueA) as [i|], (orderIndexOf _ valueB) as [j|]];
    repeat case_decide; try done; try (exfalso; intuition congruence).
  - cbn. destruct (Nat.compare_spec i j); [congruence|done|done].
  - assert (i = j) as ->.
    { destruct (decide (i = j)) as [|Hij]; [done|].
      exfalso. intuition congruence. }
    cbn. by rewrite Nat.compare_refl.
Qed.

(** The flag and the value of an entry's category give the key of the
    member. *)
Lemma categoryKey_memberKey items override field rosterDefault :
  categoryKey items (isOrphaned items (override ≫= field))
              (effective (override ≫= field) (Js.nullish rosterDefault ""))
  = memberKey items override field rosterDefault.
Proof.
  unfold categoryKey, memberKey, isOrphaned, effective, effectiveValue,
    Js.nullish, Js.truthy, Js.has, Js.orEmpty.
  destruct override as [w|]; simpl; [|done].
  destruct (field w) as [v|]; simpl; [|done].
  destruct (decide (v ≠ "" ∧ v ∉ items)) as [[H1 H2]|H].
  - by rewrite bool_decide_eq_true_2, bool_decide_eq_false_2.
  - destruct (decide (v = "")) as [->|Hv].
    + by rewrite bool_decide_eq_false_2 by (by intros ?).
    + rewrite bool_decide_eq_true_2 by done.
      rewrite bool_decide_eq_true_2; [done|].
      destruct (decide (v ∈ items)); [done|tauto].
Qed.

Lemma entryOf_groupKey gs sched g :
  categoryKey (default [] (groups gs))
    (Entry.isOrphanedGroup (entryOf gs sched g)) (Entry.group (entryOf gs sched g))
  = memberGroupKey gs sched g.
Proof.
  unfold entryOf, combineStaff, memberGroupKey. cbv zeta.
  cbn [Entry.isOrphanedGroup Entry.group].
  rewrite !weeklyField_override. apply categoryKey_memberKey.
Qed.

Lemma entryOf_jobTitleKey gs sched g :
  categoryKey (default [] (jobTitles gs))
    (Entry.isOrphanedJobTitle (entryOf gs sched g))
    (Entry.jobTitle (entryOf gs sched g))
  = memberJobTitleKey gs sched g.
Proof.
  unfold entryOf, combineStaff, memberJobTitleKey. cbv zeta.
  cbn [Entry.isOrphanedJobTitle Entry.jobTitle].
  rewrite !weeklyField_override. apply categoryKey_memberKey.
Qed.

(** On members with plain names the comparator of the source, applied
    to their entries, is the order of the members. *)
Lemma compareEntries_memberOrder gs sched a b :
  plainlyNamed sched a → plainlyNamed sched b →
  compareEntries localeCompare (createOrderMap (groups gs))
                 (createOrderMap (jobTitles gs))
                 (entryOf gs sched a) (entryOf gs sched b)
  = memberOrder localeCompare gs sched a b.
Proof.
  intros (Ia & Ga & Ja) (Ib & Gb & Jb).
  pose proof (entryOf_fields gs sched a) as (_ & _ & EGa & EJa & _).
  pose proof (entryOf_fields gs sched b) as (_ & _ & EGb & EJb & _).
  unfold compareEntries, memberOrder.
  rewrite !compareCategory_keys by (rewrite ?EGa, ?EGb, ?EJa, ?EJb; done).
  rewrite !entryOf_groupKey, !entryOf_jobTitleKey.
  rewrite !orEmpty_orBlank, !entryOf_name by (by right).
  change (Entry.sortOrder (entryOf gs sched a)) with (Staff.sortOrder a).
  change (Entry.sortOrder (entryOf gs sched b)) with (Staff.sortOrder b).
  destruct (compareKeys _ (memberGroupKey _ _ _) _); [|done|done].
  cbn [lexicographic].
  destruct (compareKeys _ (memberJobTitleKey _ _ _) _); [|done|done].
  cbn [lexicographic].
  destruct (decide (Staff.sortOrder a ≠ Staff.sortOrder b)) as [Hne|Heq].
  - destruct (Staff.sortOrder a) as [x|], (Staff.sortOrder b) as [y|]; simpl;
      try done.
    destruct (Z.compare_spec x y); [congruence|done|done].
  - assert (Staff.sortOrder a = Staff.sortOrder b) as ->
      by (destruct (decide (Staff.sortOrder a = Staff.sortOrder b)); tauto).
    destruct (Staff.sortOrder b); simpl; [by rewrite Z.compare_refl|done].
Qed.

Lemma memberOrder_consistent gs sched (ms : list Staff.t) :
  unmixed (memberGroupKey gs sched <$> ms) →
  unmixed (memberJobTitleKey gs sched <$> ms) →
  ∃ P, Forall P ms ∧ consistentOn P (memberOrder localeCompare gs sched).
Proof.
  intros (P1 & F1 & C1)%compareKeys_unmixed (P2 & F2 & C2)%compareKeys_unmixed.
  exists (λ e, P1 e ∧ P2 e). split.
  - rewrite Forall_forall in *. naive_solver.
  - unfold memberOrder.
    apply lexicographic_consistent;
      [by eapply consistentOn_weaken; [|exact C1]; intros ? [? ?]|].
    apply lexicographic_consistent;
      [by eapply consistentOn_weaken; [|exact C2]; intros ? [? ?]|].
    apply lexicographic_consistent.
    + eapply consistentOn_weaken;
        [|exact (consistentOn_preimage Staff.sortOrder _ _
                   sortOrderSign_consistent)].
      done.
    + eapply consistentOn_weaken;
        [|exact (consistentOn_preimage
                   (λ g, orBlank (effectiveName (overrideOf sched (Staff.id g))
                                                (Staff.name g))) _ _
                   localeCompare_consistent)].
      done.
Qed.

End EntryOrder.

(** Code-unit order is a collation. *)
Lemma String_collation : Collation String.compare.
Proof.
  split.
  - intros a b. apply String.compare_antisym.
  - intros a b c Hab Hbc.
    destruct (String.compare a b) eqn:Eab; [|clear Hab|done].
    { apply String_as_OT.cmp_eq in Eab. by subst. }
    destruct (String.compare b c) eqn:Ebc; [|clear Hbc|done].
    { apply String_as_OT.cmp_eq in Ebc. subst. by rewrite Eab. }
    apply String_as_OT.cmp_lt in Eab, Ebc.
    pose proof (String_as_OT.lt_trans _ _ _ Eab Ebc) as Hac.
    apply String_as_OT.cmp_lt in Hac. unfold String_as_OT.cmp in Hac.
    by rewrite Hac.
Qed.

(** A bucket of the view holds the entries of the members of its unit,
    as the comparator of the source sorts them. *)
Lemma bucket_members localeCompare gs sched view k es :
  getStaffByUnit localeCompare false false (Some gs) sched = Some view →
  JsObject.get view k = Some es →
  es = entryOf gs sched
       <$> Js.sort (λ a b, compareEntries localeCompare
                             (createOrderMap (groups gs))
                             (createOrderMap (jobTitles gs))
                             (entryOf gs sched a) (entryOf gs sched b))
                   (unitMembers gs sched k).
Proof.
  intros Hview. rewrite (get_getStaffByUnit _ _ _ _ _ Hview). cbv zeta.
  destruct (decide _) as [|_]; [done|]. intros [= <-].
  unfold combinedStaffList. fold (entryOf gs sched).
  rewrite filter_fmap, sort_fmap. do 2 f_equal.
  unfold unitMembers. apply list_filter_iff. intros g. cbv beta.
  by rewrite <- (entryOf_unit gs).
Qed.

(** C3 (amended). The bucket of a unit holds the entries of the active
    members of the unit, in an order of the members that compares (a)
    the effective group, (b) the effective job title, (c) the roster
    [sortOrder] (a member without one last), (d) the effective name.
    Groups of the category set come by index before all others; two
    groups flagged orphaned are ordered alphabetically; a group outside
    the set that is not flagged ties with every group outside the set;
    likewise for job titles. This holds of a bucket that has, for groups
    and for job titles, not both a flagged value and an unflagged value
    outside the set, and whose members' ids, groups and job titles are
    not names of members of [Object.prototype]. *)
Theorem C3_bucket_order (localeCompare : string → string → comparison)
    (gs : Settings) (sched : option WeeklySchedule)
    (view : JsObject.t (list Entry.t)) (k : string) (es : list Entry.t) :
  Collation localeCompare →
  unmixed (memberGroupKey gs sched <$> unitMembers gs sched k) →
  unmixed (memberJobTitleKey gs sched <$> unitMembers gs sched k) →
  Forall (plainlyNamed sched) (unitMembers gs sched k) →
  getStaffByUnit localeCompare false false (Some gs) sched = Some view →
  JsObject.get view k = Some es →
  ∃ members,
    members ≡ₚ unitMembers gs sched k
    ∧ es = entryOf gs sched <$> members
    ∧ Entry.staffId <$> es = Staff.id <$> members
    ∧ StronglySorted (λ a b, memberOrder localeCompare gs sched a b ≠ Gt)
                     members.
Proof.
  intros collation Hg Hj Hplain Hview Hget.
  eexists. split_and!.
  - apply sort_Permutation.
  - by eapply bucket_members.
  - rewrite (bucket_members _ _ _ _ _ _ Hview Hget), <- list_fmap_compose.
    done.
  - destruct (memberOrder_consistent localeCompare collation gs sched _ Hg Hj)
      as (P & HP & Hanti & Htrans).
    apply (sort_sorted _ _ (λ g, P g ∧ plainlyNamed sched g)).
    + intros x y [_ Px] [_ Py]. by rewrite compareEntries_memberOrder.
    + intros x y [Hx Px] [Hy Py]. rewrite compareEntries_memberOrder by done.
      intros E. by rewrite (Hanti x y), E.
    + intros x y z [Hx _] [Hy _] [Hz _]. by apply Htrans.
    + rewrite Forall_forall in *. naive_solver.
Qed.

Lemma C3_witness :
  ∃ view members,
    sampleView = Some view
    ∧ members ≡ₚ unitMembers sampleSettings (Some sampleWeek) "II."
    ∧ JsObject.get view "II."
      = Some (entryOf sampleSettings (Some sampleWeek) <$> members)
    ∧ Staff.id <$> members = ["s2"; "s8"; "s7"]
    ∧ StronglySorted
        (λ a b, memberOrder String.compare sampleSettings (Some sampleWeek) a b
                ≠ Gt)
        members.
Proof.
  destruct (C3_bucket_order String.compare sampleSettings (Some sampleWeek)
              (default JsObject.empty sampleView) "II."
              (default [] (JsObject.get (default JsObject.empty sampleView) "II.")))
    as (members & Hperm & Hes & Hids & Hsorted).
  - apply String_collation.
  - vm_compute. intros [H _].
    repeat (apply elem_of_cons in H as [H|H]; [discriminate H|]).
    by apply elem_of_nil in H.
  - vm_compute. intros [H _].
    repeat (apply elem_of_cons in H as [H|H]; [discriminate H|]).
    by apply elem_of_nil in H.
  - apply (bool_decide_unpack _). vm_compute. exact I.
  - vm_compute. reflexivity.
  - vm_compute. reflexivity.
  - exists (default JsObject.empty sampleView), members.
    split_and!; [reflexivity|done| |by rewrite <- Hids|done].
    rewrite <- Hes. vm_compute. reflexivity.
Defined.

(** The claim as the specification words it fails. Two roster defaults
    that name the deleted groups "Old2" and "Old1" are not put in
    alphabetical order: they tie on the group and stay in [sortOrder]
    order. And between overrides to the deleted groups "B" and "A" a
    member without a group keeps "B" before "A". *)
Lemma C3_counterexample :
  (let a := groupMember "a" "Old2" 0 in
   let b := groupMember "b" "Old1" 1 in
   ∃ view,
     getStaffByUnit String.compare false false (Some deletedDefaults) None
       = Some view
     ∧ JsObject.get view "I."
       = Some [entryOf deletedDefaults None a; entryOf deletedDefaults None b]
     ∧ Entry.group (entryOf deletedDefaults None a) = "Old2"
     ∧ Entry.group (entryOf deletedDefaults None b) = "Old1"
     ∧ statedOrder String.compare deletedDefaults None a b = Gt)
  ∧ (let a := groupMember "a" "G" 0 in
     let b := groupMember "b" "" 1 in
     let c := groupMember "c" "G" 2 in
     let entry := entryOf mixedSettings (Some mixedWeek) in
     ∃ view,
       getStaffByUnit String.compare false false (Some mixedSettings)
                      (Some mixedWeek) = Some view
       ∧ JsObject.get view "I." = Some [entry a; entry b; entry c]
       ∧ Entry.isOrphanedGroup (entry a) = true ∧ Entry.group (entry a) = "B"
       ∧ Entry.isOrphanedGroup (entry c) = true ∧ Entry.group (entry c) = "A"
       ∧ statedOrder String.compare mixedSettings (Some mixedWeek) a c = Gt
       ∧ memberOrder String.compare mixedSettings (Some mixedWeek) a c = Gt).
Proof.
  split.
  - eexists. split_and!; [vm_compute; reflexivity|reflexivity..].
  - eexists. split_and!; [vm_compute; reflexivity|reflexivity..].
Qed.

(** ** Copying a week *)

Section CopyFacts.
Context {Date : Type}.
Context (addDays : Date → nat → Date) (isoDate : Date → string).

Lemma getWeekDates_lookup (startDate : Date) (i : nat) :
  i < 6 → getWeekDates addDays startDate !! i = Some (addDays startDate i).
Proof.
  intros Hi. unfold getWeekDates. rewrite list_lookup_fmap.
  rewrite lookup_seq_lt by done. done.
Qed.

Lemma elem_of_getWeekDates (startDate d : Date) :
  d ∈ getWeekDates addDays startDate ↔ ∃ i, i < 6 ∧ d = addDays startDate i.
Proof.
  unfold getWeekDates. rewrite list_elem_of_fmap. split.
  - intros (i & -> & Hi). apply elem_of_seq in Hi. exists i. split; [lia|done].
  - intros (i & Hi & ->). exists i. split; [done|]. apply elem_of_seq. lia.
Qed.

(** [shifts?.[day] || ""] is the shift of the record on the day. *)
Lemma orEmpty_shiftOn (r : Weekly.t) (day : string) :
  Js.orEmpty (Weekly.shifts r ≫= (.!! day)) = shiftOn r day.
Proof.
  unfold shiftOn, Js.orEmpty. destruct (Weekly.shifts r) as [m|]; [|done].
  simpl. by destruct (m !! day).
Qed.

Lemma newShifts_snoc (sourceWeekDate : Date) (dates : list Date) (d : Date)
    (r : Weekly.t) :
  newShifts addDays isoDate sourceWeekDate (dates ++ [d]) r
  = <[isoDate d := shiftOn r (isoDate (addDays sourceWeekDate (length dates)))]>
      (newShifts addDays isoDate sourceWeekDate dates r).
Proof.
  unfold newShifts. rewrite imap_app, foldl_app. simpl.
  by rewrite Nat.add_0_r, orEmpty_shiftOn.
Qed.

Lemma newShifts_dom (sourceWeekDate : Date) (dates : list Date) (r : Weekly.t)
    (day : string) :
  is_Some (newShifts addDays isoDate sourceWeekDate dates r !! day)
  ↔ day ∈ isoDate <$> dates.
Proof.
  induction dates as [|d dates IH] using rev_ind.
  - unfold newShifts. simpl. rewrite lookup_empty, elem_of_nil.
    split; [by intros [? ?]|done].
  - rewrite newShifts_snoc, fmap_app, elem_of_app. simpl.
    rewrite list_elem_of_singleton.
    destruct (decide (isoDate d = day)) as [<-|Hne].
    + rewrite lookup_insert_eq. split; [by right|by eexists].
    + rewrite lookup_insert_ne by done. rewrite IH.
      split; [by left|]. intros [?|?]; [done|congruence].
Qed.

Lemma newShifts_lookup (sourceWeekDate : Date) (dates : list Date) (r : Weekly.t)
    (i : nat) (d : Date) :
  NoDup (isoDate <$> dates) → dates !! i = Some d →
  newShifts addDays isoDate sourceWeekDate dates r !! isoDate d
  = Some (shiftOn r (isoDate (addDays sourceWeekDate i))).
Proof.
  revert i d. induction dates as [|d' dates IH] using rev_ind; intros i d Hnd Hi.
  - done.
  - rewrite fmap_app in Hnd. apply NoDup_app in Hnd as (Hnd & Hfresh & _).
    rewrite newShifts_snoc.
    destruct (decide (i < length dates)) as [Hlt|Hge].
    + rewrite lookup_app_l in Hi by done.
      rewrite lookup_insert_ne; [by apply IH|].
      intros E. apply (Hfresh (isoDate d)).
      * apply list_elem_of_fmap_2. by eapply list_elem_of_lookup_2.
      * rewrite <- E. simpl. apply list_elem_of_here.
    + rewrite lookup_app_r in Hi by lia.
      destruct (i - length dates) as [|n] eqn:E; [|by destruct n].
      injection Hi as <-. assert (i = length dates) as -> by lia.
      by rewrite lookup_insert_eq.
Qed.

(** The callback keeps the retained records and only them. *)
Lemma copyStaff_Some gs (sourceWeekDate : Date) (targetWeekDates : list Date)
    (r r' : Weekly.t) :
  copyStaff addDays isoDate gs sourceWeekDate targetWeekDates r = Some r' →
  Weekly.staffId r' = Weekly.staffId r
  ∧ Weekly.shifts r'
    = Some (newShifts addDays isoDate sourceWeekDate targetWeekDates r).
Proof.
  unfold copyStaff. destruct (staffList gs ≫= _) as [info|]; [|done].
  destruct (Staff.isActive info); [|done]. simpl. by intros [= <-].
Qed.

Lemma copyStaff_retained gs (sourceWeekDate : Date) (targetWeekDates : list Date)
    (r : Weekly.t) :
  NoDup (Staff.id <$> default [] (staffList gs)) →
  is_Some (copyStaff addDays isoDate gs sourceWeekDate targetWeekDates r)
  ↔ retained gs r.
Proof.
  intros Hnd. unfold copyStaff, retained. rewrite Exists_exists.
  destruct (staffList gs) as [l|]; simpl in *.
  - destruct (list_find _ l) as [[i info]|] eqn:E; simpl.
    + apply list_find_Some in E as (Hi & Hid & _).
      apply list_elem_of_lookup_2 in Hi.
      destruct (Staff.isActive info) eqn:Ha; simpl.
      * split; [|by eexists]. intros _. by exists info.
      * split; [by intros [? ?]|]. intros (g & Hg & Hgid & Hga).
        assert (g = info) as -> by (eapply NoDup_fmap_eq; [done..|congruence]).
        congruence.
    + apply list_find_None in E. split; [by intros [? ?]|].
      intros (g & Hg & Hgid & _). rewrite Forall_forall in E. by destruct (E g).
  - split; [by intros [? ?]|]. intros (g & Hg & _). by apply elem_of_nil in Hg.
Qed.

Lemma omap_Forall2 {A B : Type} (f : A → option B) (l : list A) :
  Forall2 (λ x y, f x = Some y) (filter (λ x, is_Some (f x)) l) (omap f l).
Proof.
  induction l as [|x l IH]; [constructor|].
  rewrite filter_cons. simpl. destruct (f x) as [y|] eqn:E.
  - rewrite decide_True by (by eexists). by constructor.
  - rewrite decide_False by (by intros [? ?]). done.
Qed.

End CopyFacts.

(** C5. P5 (round-trip copy): when the user is signed in, the settings
    are loaded, the source week is stored and the write is accepted, the
    copy succeeds and the target week read back holds one record for each
    source record whose staff member is in the roster and active, in the
    source order and no other; the shifts of a copied record are defined
    on the six target days, and on the i-th of them hold the shift of the
    i-th source day, or the empty string when that day has none. The six
    target days have distinct ISO dates and the roster has unique ids. *)
Theorem C5_copy_round_trip {Date : Type} (addDays : Date → nat → Date)
    (isoDate : Date → string) (sourceWeekDate targetWeekDate : Date)
    (w : World) (gs : Settings) (sourceData : WeeklySchedule) :
  is_Some (currentUser w) →
  globalSettings w = Some gs →
  weeklyDocs w !! isoDate sourceWeekDate = Some sourceData →
  default None (head (setDocOutcomes w)) = None →
  NoDup (isoDate <$> getWeekDates addDays targetWeekDate) →
  NoDup (Staff.id <$> default [] (staffList gs)) →
  ∃ w' target,
    copyScheduleFromWeek addDays isoDate sourceWeekDate targetWeekDate w
      = (true, w')
    ∧ weeklyDocs w' !! isoDate targetWeekDate = Some target
    ∧ weekStartDate target = isoDate targetWeekDate
    ∧ Forall2 (copiedFrom addDays isoDate sourceWeekDate targetWeekDate)
        (filter (retained gs) (staff sourceData)) (staff target).
Proof.
  intros [user Huser] Hgs Hsource Hwrite Hdates Hids.
  unfold copyScheduleFromWeek, bind, getWorld.
  rewrite Huser, Hgs. cbn. rewrite Hsource. cbn. rewrite Hwrite. cbn.
  set (target := {| weekStartDate := isoDate targetWeekDate;
                    staff := newTargetStaff addDays isoDate gs sourceWeekDate
                               targetWeekDate sourceData |}).
  destruct (decide (isoDate targetWeekDate = currentWeekStartDate w)); cbn;
    (eexists _, target; split; [reflexivity|]; cbn [weeklyDocs];
     split; [by rewrite lookup_insert_eq|]; split; [done|]).
  all: unfold target, newTargetStaff; cbn.
  all: rewrite (list_filter_iff _
         (λ r, is_Some (copyStaff addDays isoDate gs sourceWeekDate
                          (getWeekDates addDays targetWeekDate) r)))
         by (intros r; symmetry; by apply copyStaff_retained).
  all: eapply Forall2_impl; [apply omap_Forall2|].
  all: intros r r' [Hid Hshifts]%copyStaff_Some.
  all: split; [done|]; eexists; split; [exact Hshifts|]; split.
  all: try (intros day; rewrite newShifts_dom, list_elem_of_fmap;
            setoid_rewrite elem_of_getWeekDates; split;
            [intros (d & -> & i & Hi & ->); by exists i
            |intros (i & Hi & ->); eexists; split; [done|by exists i]]).
  all: intros i Hi; eapply newShifts_lookup; [done|by apply getWeekDates_lookup].
Qed.

Lemma C5_witness :
  ∃ w' target,
    copyScheduleFromWeek dayAfter dayName 0%Z 7%Z copyWorld = (true, w')
    ∧ weeklyDocs w' !! dayName 7 = Some target
    ∧ weekStartDate target = dayName 7
    ∧ Forall2 (copiedFrom dayAfter dayName 0%Z 7%Z)
        (filter (retained sampleSettings) (staff copySource)) (staff target).
Proof.
  apply (C5_copy_round_trip dayAfter dayName 0%Z 7%Z copyWorld sampleSettings
           copySource).
  - by eexists.
  - reflexivity.
  - vm_compute. reflexivity.
  - reflexivity.
  - apply (bool_decide_unpack _). vm_compute. exact I.
  - apply (bool_decide_unpack _). vm_compute. exact I.
Defined.

(** Scenario D on the numbered calendar: the Monday shift is carried to
    the target Monday, the five other target days are set to the empty
    string, and the record of the inactive member is dropped. *)
Example copy_sample :
  (staff <$> weeklyDocs (copyScheduleFromWeek dayAfter dayName 0%Z 7%Z copyWorld).2
               !! dayName 7)
  = Some [ sampleRecord "s1" "Nagy Mária" "I." "Süni (A)" "k.gy.n."
             (list_to_map [ ("7", "DE"); ("8", ""); ("9", ""); ("10", "");
                            ("11", ""); ("12", "") ]) ].
Proof. vm_compute. reflexivity. Qed.

(** ** The safety check of the settings save *)

Lemma isEmpty_true {A : Type} (l : list A) : isEmpty l = true ↔ l = [].
Proof.
  unfold isEmpty. rewrite bool_decide_eq_true. split.
  - apply nil_length_inv.
  - by intros ->.
Qed.

Lemma isEmpty_false {A : Type} (l : list A) : isEmpty l = false ↔ l ≠ [].
Proof.
  rewrite <- isEmpty_true. by destruct (isEmpty l).
Qed.

Lemma nonempty_length {A : Type} (l : list A) :
  bool_decide (0 < length l) = true ↔ l ≠ [].
Proof.
  rewrite bool_decide_eq_true. destruct l; simpl; split; try done; lia.
Qed.

Lemma safetyCheck_blocks (current new : Settings) :
  containsData current → deletesAllCategories new →
  safetyCheck (Some current) new = Some categoriesDeletedMessage.
Proof.
  intros Hdata (Hu & Hg & Hj & Hrest). unfold safetyCheck.
  rewrite Hu, Hg, Hj.
  assert (bool_decide (0 < length (default [] (units current)))
          || bool_decide (0 < length (default [] (groups current)))
          || bool_decide (0 < length (default [] (jobTitles current)))
          || bool_decide (0 < length (default [] (staffList current)))
          || bool_decide (0 < length (default [] (shiftTypes current))) = true)
    as Hhad.
  { rewrite !orb_true_iff, !nonempty_length.
    destruct Hdata as [?|[?|[?|[?|?]]]]; auto. }
  rewrite Hhad.
  destruct (default [] (staffList new)) as [|s sl],
    (default [] (shiftTypes new)) as [|t tl]; try done.
  by destruct Hrest.
Qed.

(** C6. A save of settings that would empty the three category lists
    while staff or shift types remain, made without the bypass flag while
    the loaded settings contain data, returns false, attempts no write
    and leaves the stored and the loaded settings as they were; with the
    bypass flag the check is skipped and the accepted write stores the
    settings. *)
Theorem C6_integrity_guard (w : World) (current new : Settings) :
  globalSettings w = Some current →
  containsData current →
  deletesAllCategories new →
  (∃ w',
     saveGlobalSettings (Some new) false w = (false, w')
     ∧ settingsDoc w' = settingsDoc w
     ∧ weeklyDocs w' = weeklyDocs w
     ∧ globalSettings w' = globalSettings w
     ∧ currentWeeklySchedule w' = currentWeeklySchedule w
     ∧ setDocOutcomes w' = setDocOutcomes w
     ∧ (is_Some (currentUser w) → saveError w' = Some categoriesDeletedMessage))
  ∧ (is_Some (currentUser w) →
     default None (head (setDocOutcomes w)) = None →
     ∃ w',
       saveGlobalSettings (Some new) true w = (true, w')
       ∧ settingsDoc w'
         = Some (mergeSettings (settingsDoc w) (settingsToSave new))
       ∧ globalSettings w' = globalSettings w).
Proof.
  intros Hcur Hdata Hdel. split.
  - unfold saveGlobalSettings, bind, getWorld.
    destruct (currentUser w) as [user|] eqn:Huser.
    + cbn. rewrite Hcur, safetyCheck_blocks by done. cbn.
      eexists. split; [reflexivity|]. by split_and!.
    + cbn. eexists. split; [reflexivity|].
      split_and!; first [done|by intros [? ?]].
  - intros [user Huser] Hwrite.
    unfold saveGlobalSettings, bind, getWorld. rewrite Huser. cbn.
    rewrite Hwrite. cbn. eexists. split; [reflexivity|]. by split_and!.
Qed.

Lemma C6_witness :
  (∃ w',
     saveGlobalSettings (Some wipedCategories) false loadedWorld = (false, w')
     ∧ settingsDoc w' = settingsDoc loadedWorld
     ∧ weeklyDocs w' = weeklyDocs loadedWorld
     ∧ globalSettings w' = globalSettings loadedWorld
     ∧ currentWeeklySchedule w' = currentWeeklySchedule loadedWorld
     ∧ setDocOutcomes w' = setDocOutcomes loadedWorld
     ∧ (is_Some (currentUser loadedWorld) →
        saveError w' = Some categoriesDeletedMessage))
  ∧ (is_Some (currentUser loadedWorld) →
     default None (head (setDocOutcomes loadedWorld)) = None →
     ∃ w',
       saveGlobalSettings (Some wipedCategories) true loadedWorld = (true, w')
       ∧ settingsDoc w'
         = Some (mergeSettings (settingsDoc loadedWorld)
                               (settingsToSave wipedCategories))
       ∧ globalSettings w' = globalSettings loadedWorld).
Proof.
  apply (C6_integrity_guard loadedWorld sampleSettings wipedCategories).
  - reflexivity.
  - left. simpl. discriminate.
  - split_and!; [reflexivity..|]. left. simpl. discriminate.
Defined.

(** ** The roster mutations *)

Lemma sort_sorted_id {A : Type} (cmp : A → A → comparison) (l : list A) :
  StronglySorted (λ x y, cmp x y ≠ Gt) l → Js.sort cmp l = l.
Proof.
  unfold Js.sort. induction 1 as [|x l Hl IH Hx]; [done|].
  cbn [foldr]. rewrite IH. destruct l as [|y l]; [done|].
  apply Forall_cons in Hx as [Hxy _]. simpl. by destruct (cmp x y).
Qed.

Lemma dense_from_sorted (l : list Staff.t) (start : nat) :
  Staff.sortOrder <$> l = (λ i, Some (Z.of_nat i)) <$> seq start (length l) →
  StronglySorted (λ x y, compareSortOrder x y ≠ Gt) l
  ∧ Forall (λ y, ∃ j, (start ≤ j)%nat ∧ Staff.sortOrder y = Some (Z.of_nat j)) l.
Proof.
  revert start. induction l as [|x l IH]; intros start E.
  - split; constructor.
  - simpl in E. injection E as Ex El. destruct (IH (S start) El) as [Hs Hf].
    split.
    + constructor; [done|]. eapply Forall_impl; [exact Hf|].
      intros y (j & Hj & Ey). unfold compareSortOrder. rewrite Ex, Ey. simpl.
      rewrite Z.compare_le_iff. lia.
    + constructor; [by exists start|]. eapply Forall_impl; [exact Hf|].
      intros y (j & Hj & Ey). exists j. split; [lia|done].
Qed.

(** A dense list is sorted by [sortOrder]: the sort before saving leaves
    it as it is. *)
Lemma sort_dense (l : list Staff.t) : dense l → Js.sort compareSortOrder l = l.
Proof. intros H. apply sort_sorted_id. by apply (dense_from_sorted l 0). Qed.

Lemma reindex_sortOrder (l : list Staff.t) (start : nat) :
  Staff.sortOrder
    <$> imap (λ index staff, withSortOrder staff (Some (Z.of_nat (start + index)))) l
  = (λ i, Some (Z.of_nat i)) <$> seq start (length l).
Proof.
  revert start. induction l as [|x l IH]; intros start; [done|].
  cbn [imap length seq fmap list_fmap]. rewrite Nat.add_0_r. f_equal.
  rewrite <- (IH (S start)). f_equal. apply imap_ext. intros i y _. simpl.
  do 3 f_equal. lia.
Qed.

Lemma reindex_dense (l : list Staff.t) : dense (reindex l).
Proof.
  unfold dense, reindex. rewrite length_imap.
  apply (reindex_sortOrder l 0).
Qed.

Lemma reindex_ids (l : list Staff.t) : Staff.id <$> reindex l = Staff.id <$> l.
Proof.
  unfold reindex. rewrite fmap_imap.
  rewrite (imap_ext _ (const Staff.id)) by done.
  apply imap_const.
Qed.

Lemma dense_snoc (l : list Staff.t) (x : Staff.t) :
  dense l → Staff.sortOrder x = Some (Z.of_nat (length l)) → dense (l ++ [x]).
Proof.
  unfold dense. intros Hl Hx.
  rewrite fmap_app, length_app, seq_app, fmap_app, Hl. simpl. by rewrite Hx.
Qed.

Lemma spread_id staff data :
  Staff.id staff = StaffPatch.id data → Staff.id (spread staff data) = Staff.id staff.
Proof. by intros ->. Qed.

Lemma spread_sortOrder staff data :
  StaffPatch.sortOrder data = None →
  Staff.sortOrder (spread staff data) = Staff.sortOrder staff.
Proof. unfold spread. simpl. by intros ->. Qed.

Lemma filter_ids (l : list Staff.t) (staffId : string) :
  Staff.id <$> filter (λ staff, Staff.id staff ≠ staffId) l
  = filter (λ i, i ≠ staffId) (Staff.id <$> l).
Proof.
  induction l as [|x l IH]; [done|].
  rewrite fmap_cons, !filter_cons. cbv beta.
  destruct (decide (Staff.id x ≠ staffId)); [rewrite fmap_cons|]; by rewrite IH.
Qed.

(** C7 (amended). On a roster whose [sortOrder] values are dense in list
    order and whose ids are unique: adding a member with a fresh id and
    without a [sortOrder] of its own, updating a member without changing
    its [sortOrder], removing a member, and reordering to a list with
    unique ids each give a list that is dense and strictly increasing in
    list order and whose ids are unique. Removal and reordering make the
    list dense whatever it was before, and removal keeps the other
    members in their order. *)
Theorem C7_roster_invariant (gs : Settings) :
  uniqueIds (default [] (staffList gs)) →
  (∀ data,
     dense (default [] (staffList gs)) →
     Staff.sortOrder data = None →
     Staff.id data ∉ Staff.id <$> default [] (staffList gs) →
     dense (addedStaffList gs data) ∧ uniqueIds (addedStaffList gs data)
     ∧ Staff.id <$> addedStaffList gs data
       = (Staff.id <$> default [] (staffList gs)) ++ [Staff.id data])%list
  ∧ (∀ data,
       dense (default [] (staffList gs)) →
       StaffPatch.sortOrder data = None →
       dense (updatedStaffList gs data) ∧ uniqueIds (updatedStaffList gs data)
       ∧ Staff.id <$> updatedStaffList gs data
         = Staff.id <$> default [] (staffList gs))
  ∧ (∀ staffId,
       dense (remainingStaffList gs staffId)
       ∧ uniqueIds (remainingStaffList gs staffId)
       ∧ Staff.id <$> remainingStaffList gs staffId
         = filter (λ i, i ≠ staffId) (Staff.id <$> default [] (staffList gs)))
  ∧ (∀ orderedStaffList,
       dense (reorderedStaffList orderedStaffList)
       ∧ (uniqueIds orderedStaffList →
          uniqueIds (reorderedStaffList orderedStaffList))
       ∧ Staff.id <$> reorderedStaffList orderedStaffList
         = Staff.id <$> orderedStaffList).
Proof.
  intros Hids. split_and!.
  - intros data Hdense Hso Hfresh. unfold addedStaffList.
    rewrite Hso. simpl.
    assert (dense (default [] (staffList gs)
                   ++ [withSortOrder data
                         (Some (Z.of_nat (length (default [] (staffList gs)))))]))
      as Hnew by (by apply dense_snoc).
    rewrite (sort_dense _ Hnew). split_and!; [done| |by rewrite fmap_app].
    unfold uniqueIds. rewrite fmap_app. apply NoDup_app. split_and!; [done| |].
    + intros i Hi Hi'. simpl in Hi'. apply list_elem_of_singleton in Hi'. by subst.
    + apply NoDup_singleton.
  - intros data Hdense Hso. unfold updatedStaffList.
    set (patched := (λ staff, _) <$> default [] (staffList gs)).
    assert (Staff.sortOrder <$> patched
            = Staff.sortOrder <$> default [] (staffList gs)) as Eso.
    { unfold patched. rewrite <- list_fmap_compose. apply list_fmap_ext.
      intros i x _. simpl. destruct (decide _); [by apply spread_sortOrder|done]. }
    assert (Staff.id <$> patched = Staff.id <$> default [] (staffList gs)) as Eid.
    { unfold patched. rewrite <- list_fmap_compose. apply list_fmap_ext.
      intros i x _. simpl. destruct (decide _); [by apply spread_id|done]. }
    assert (dense patched) as Hnew.
    { assert (length patched = length (default [] (staffList gs))) as El
        by (unfold patched; apply length_fmap).
      unfold dense. by rewrite Eso, Hdense, El. }
    rewrite (sort_dense _ Hnew). split_and!; [done| |done].
    unfold uniqueIds. by rewrite Eid.
  - intros staffId. unfold remainingStaffList.
    split_and!; [apply reindex_dense| |by rewrite reindex_ids, filter_ids].
    unfold uniqueIds. rewrite reindex_ids, filter_ids. by apply NoDup_filter.
  - intros orderedStaffList. unfold reorderedStaffList.
    split_and!; [apply reindex_dense| |apply reindex_ids].
    unfold uniqueIds. by rewrite reindex_ids.
Qed.

Lemma C7_witness :
  (dense (addedStaffList pairSettings (bareMember "c" None))
   ∧ uniqueIds (addedStaffList pairSettings (bareMember "c" None))
   ∧ Staff.id <$> addedStaffList pairSettings (bareMember "c" None)
     = ["a"; "b"; "c"])
  ∧ (dense (updatedStaffList pairSettings (namePatch "a" "Anna"))
     ∧ uniqueIds (updatedStaffList pairSettings (namePatch "a" "Anna"))
     ∧ Staff.id <$> updatedStaffList pairSettings (namePatch "a" "Anna")
       = ["a"; "b"])
  ∧ (dense (remainingStaffList pairSettings "a")
     ∧ uniqueIds (remainingStaffList pairSettings "a")
     ∧ Staff.id <$> remainingStaffList pairSettings "a" = ["b"])
  ∧ uniqueIds (reorderedStaffList [bareMember "b" (Some 1%Z);
                                   bareMember "a" (Some 0%Z)]).
Proof.
  assert (uniqueIds (default [] (staffList pairSettings))) as Hids
    by (apply (bool_decide_unpack _); vm_compute; exact I).
  destruct (C7_roster_invariant pairSettings Hids) as (Hadd & Hupd & Hdel & Hord).
  split; [|split; [|split]].
  - apply Hadd; [reflexivity|reflexivity|].
    apply (bool_decide_unpack _). vm_compute. exact I.
  - apply Hupd; reflexivity.
  - apply Hdel.
  - apply Hord. apply (bool_decide_unpack _). vm_compute. exact I.
Defined.

(** The claim as the specification words it fails on a dense roster with
    unique ids: a member added with a [sortOrder] of its own and a member
    updated to a new [sortOrder] leave a list that is not dense, and a
    reordering to a list that names a member twice leaves two members
    with one id. *)
Lemma C7_counterexample :
  dense pairRoster ∧ uniqueIds pairRoster
  ∧ ¬ dense (addedStaffList pairSettings (bareMember "c" (Some 0%Z)))
  ∧ ¬ dense (updatedStaffList pairSettings (sortOrderPatch "a" 5))
  ∧ ¬ uniqueIds (reorderedStaffList [bareMember "a" (Some 0%Z);
                                     bareMember "a" (Some 0%Z)]).
Proof.
  split_and!.
  - reflexivity.
  - apply (bool_decide_unpack _). vm_compute. exact I.
  - intros H. vm_compute in H. discriminate H.
  - intros H. vm_compute in H. discriminate H.
  - intros H. apply (bool_decide_pack _) in H. vm_compute in H. exact H.
Qed.

(** ** What the roster mutations store *)

(** A successful save stores the staff list it was given, sorted by
    [sortOrder]. *)
Lemma saveGlobalSettings_true (new : Settings) (bypass : bool) (w w' : World) :
  saveGlobalSettings (Some new) bypass w = (true, w') →
  settingsDoc w' = Some (mergeSettings (settingsDoc w) (settingsToSave new))
  ∧ weeklyDocs w' = weeklyDocs w
  ∧ currentWeeklySchedule w' = currentWeeklySchedule w.
Proof.
  destruct w as [user week ogs osched sl schl err doc docs outcomes].
  unfold saveGlobalSettings, bind, getWorld. simpl.
  destruct user as [user|]; [|done]. simpl.
  destruct (if bypass then None else safetyCheck ogs new) as [message|];
    [done|]. simpl.
  destruct (default None (head outcomes)) as [message|]; [done|]. simpl.
  by intros [= <-].
Qed.

Lemma mergeSettings_staffList (old : option Settings) (new : Settings) :
  staffList (mergeSettings old (settingsToSave new))
  = Some (Js.sort compareSortOrder (default [] (staffList new))).
Proof. by destruct old. Qed.

(** The lists of the roster invariant are the lists the mutations store:
    a dense list passes the sort before saving unchanged. *)
Lemma stored_staffList (gs : Settings) (l : list Staff.t) (w w' : World) :
  saveGlobalSettings (Some (withStaffList gs l)) false w = (true, w') →
  dense l →
  staffList <$> settingsDoc w' = Some (Some l).
Proof.
  intros (-> & _)%saveGlobalSettings_true Hdense.
  cbn [fmap option_fmap option_map]. rewrite mergeSettings_staffList.
  change (default [] (staffList (withStaffList gs l))) with l.
  by rewrite (sort_dense l Hdense).
Qed.

Lemma updateStaffListOrder_stored (orderedStaffList : list Staff.t) (w w' : World) :
  updateStaffListOrder orderedStaffList w = (true, w') →
  staffList <$> settingsDoc w' = Some (Some (reorderedStaffList orderedStaffList)).
Proof.
  unfold updateStaffListOrder, bind, getWorld.
  destruct (globalSettings w) as [gs|]; [|done].
  intros H. eapply stored_staffList; [exact H|apply reindex_dense].
Qed.
(** ** The weekly override store *)

Lemma cleanRecord_writtenFor (r : Weekly.t) : writtenFor r (cleanRecord r).
Proof.
  unfold writtenFor, cleanRecord. simpl. rewrite !orEmpty_orBlank.
  by split_and!.
Qed.

Lemma saveWeeklySchedule_true (week : string) (sched : WeeklySchedule)
    (w w' : World) :
  saveWeeklySchedule week sched w = (true, w') →
  is_Some (currentUser w)
  ∧ default None (head (setDocOutcomes w)) = None
  ∧ weeklyDocs w'
    = <[week := {| weekStartDate := weekStartDate sched;
                   staff := cleanRecord <$> staff sched |}]> (weeklyDocs w)
  ∧ settingsDoc w' = settingsDoc w
  ∧ globalSettings w' = globalSettings w
  ∧ currentWeeklySchedule w' = currentWeeklySchedule w
  ∧ currentWeekStartDate w' = currentWeekStartDate w
  ∧ currentUser w' = currentUser w
  ∧ setDocOutcomes w' = tail (setDocOutcomes w).
Proof.
  unfold saveWeeklySchedule, bind, getWorld.
  destruct (currentUser w) as [user|] eqn:Huser; [|done]. cbn.
  destruct (default None (head (setDocOutcomes w))) as [message|] eqn:E; cbn;
    [done|].
  intros [= <-]. cbn. by split_and!.
Qed.

(** A save never touches the documents of the other weeks, whatever its
    outcome. *)
Lemma saveWeeklySchedule_other (week : string) (sched : WeeklySchedule)
    (w : World) (other : string) :
  other ≠ week →
  weeklyDocs (saveWeeklySchedule week sched w).2 !! other = weeklyDocs w !! other.
Proof.
  intros Hne. unfold saveWeeklySchedule, bind, getWorld.
  destruct (currentUser w) as [user|]; [|done]. cbn.
  destruct (default None (head (setDocOutcomes w))) as [message|]; cbn; [done|].
  by rewrite lookup_insert_ne.
Qed.

(** C9. Every record of a week written by [saveWeeklySchedule], and the
    record [updateStaffInWeeklySchedule] stores for its staff member, has
    its name, unit, group and job title as strings and its shifts as a
    map, a missing or falsy field replaced by the empty string or the
    empty map. So a record without a unit override and the same record
    with its unit set to the empty string are written alike, and no
    written record is without a unit. *)
Theorem C9_written_records :
  (∀ week sched w w',
     saveWeeklySchedule week sched w = (true, w') →
     ∃ doc, weeklyDocs w' !! week = Some doc
            ∧ Forall2 writtenFor (staff sched) (staff doc))
  ∧ (∀ data w,
       Weekly.staffId data ≠ "" →
       ∃ sched' r',
         currentWeeklySchedule (updateStaffInWeeklySchedule data w).2 = Some sched'
         ∧ r' ∈ staff sched' ∧ writtenFor data r'
         ∧ (is_Some (currentUser w) →
            default None (head (setDocOutcomes w)) = None →
            ∃ doc, weeklyDocs (updateStaffInWeeklySchedule data w).2
                     !! currentWeekStartDate w = Some doc
                   ∧ Forall2 writtenFor (staff sched') (staff doc)))
  ∧ (∀ r r',
       writtenFor (withUnit r None) r' ↔ writtenFor (withUnit r (Some "")) r')
  ∧ (∀ r r', writtenFor r r' → Weekly.unit r' ≠ None).
Proof.
  split_and!.
  - intros week sched w w' (_ & _ & -> & _)%saveWeeklySchedule_true.
    eexists. split; [by rewrite lookup_insert_eq|]. simpl.
    apply Forall2_fmap_r, Forall_Forall2_diag, Forall_forall.
    intros r _. apply cleanRecord_writtenFor.
  - intros data w Hid. unfold updateStaffInWeeklySchedule, bind, getWorld.
    rewrite decide_False by done.
    set (base := default (defaultWeeklySchedule (currentWeekStartDate w))
                         (currentWeeklySchedule w)).
    set (newStaffArray := match list_find _ (staff base) with
                          | Some (index, _) => <[index := cleanRecord data]> (staff base)
                          | None => (staff base ++ [cleanRecord data])%list
                          end).
    assert (cleanRecord data ∈ newStaffArray) as Hin.
    { unfold newStaffArray.
      destruct (list_find _ (staff base)) as [[index r]|] eqn:E.
      - apply list_find_Some in E as (Hi & _).
        apply list_elem_of_lookup. exists index.
        apply list_lookup_insert_eq. by eapply lookup_lt_Some.
      - apply elem_of_app. right. apply list_elem_of_here. }
    cbn. unfold saveWeeklySchedule, bind, getWorld. cbn.
    destruct (currentUser w) as [user|] eqn:Huser; cbn.
    + destruct (default None (head (setDocOutcomes w))) as [message|] eqn:E; cbn.
      * eexists _, _. split_and!; [done|exact Hin|apply cleanRecord_writtenFor|].
        by intros _ ?.
      * eexists _, _. split_and!; [done|exact Hin|apply cleanRecord_writtenFor|].
        intros _ _. eexists. split; [by rewrite lookup_insert_eq|]. simpl.
        apply Forall2_fmap_r, Forall_Forall2_diag, Forall_forall.
        intros r _. apply cleanRecord_writtenFor.
    + eexists _, _. split_and!; [done|exact Hin|apply cleanRecord_writtenFor|].
      by intros [? ?].
  - intros r r'. unfold writtenFor, withUnit. simpl. done.
  - intros r r' (_ & _ & -> & _). done.
Qed.

Lemma C9_witness :
  (∃ doc, weeklyDocs (saveWeeklySchedule "2024-06-10" bareWeek loadedWorld).2
            !! "2024-06-10" = Some doc
          ∧ Forall2 writtenFor (staff bareWeek) (staff doc))
  ∧ (∃ sched' r',
       currentWeeklySchedule
         (updateStaffInWeeklySchedule (bareRecord "s3") loadedWorld).2 = Some sched'
       ∧ r' ∈ staff sched' ∧ writtenFor (bareRecord "s3") r'
       ∧ (is_Some (currentUser loadedWorld) →
          default None (head (setDocOutcomes loadedWorld)) = None →
          ∃ doc, weeklyDocs (updateStaffInWeeklySchedule (bareRecord "s3")
                               loadedWorld).2
                   !! currentWeekStartDate loadedWorld = Some doc
                 ∧ Forall2 writtenFor (staff sched') (staff doc)))
  ∧ Weekly.unit (cleanRecord (bareRecord "s1")) ≠ None.
Proof.
  destruct C9_written_records as (Hsave & Hupdate & _ & Hunit).
  split_and!.
  - apply (Hsave "2024-06-10" bareWeek loadedWorld). reflexivity.
  - apply Hupdate. discriminate.
  - eapply (Hunit (bareRecord "s1")). apply cleanRecord_writtenFor.
Defined.

(** After a save the merge engine no longer falls back to the roster
    default of a field the record did not set: the stored empty string is
    the effective value. *)
Lemma saved_record_hides_default (r : Weekly.t) (rosterDefault : option string) :
  Weekly.unit r = None →
  effectiveValue (Some r) Weekly.unit rosterDefault = default "" rosterDefault
  ∧ effectiveValue (Some (cleanRecord r)) Weekly.unit rosterDefault = "".
Proof. unfold effectiveValue. simpl. by intros ->. Qed.

#[local] Arguments safetyCheck : simpl never.

(** C10. When [deleteStaffFromList] succeeds and the loaded week holds a
    record of the deleted member, the loaded week loses the records of
    that member and keeps the others, and the week is saved again: its
    stored document is replaced when the write is accepted. The documents
    of all other weeks are left as they were, whatever records of the
    member they hold. *)
Theorem C10_delete_cascade (staffId : string) (w w' : World)
    (sched : WeeklySchedule) :
  deleteStaffFromList staffId w = (true, w') →
  currentWeeklySchedule w = Some sched →
  Exists (λ r, Weekly.staffId r = staffId) (staff sched) →
  currentWeeklySchedule w'
    = Some (withStaff sched
              (filter (λ r, Weekly.staffId r ≠ staffId) (staff sched)))
  ∧ weeklyDocs w'
    = (if default None (head (tail (setDocOutcomes w))) is None
       then <[currentWeekStartDate w :=
                {| weekStartDate := weekStartDate sched;
                   staff := cleanRecord
                     <$> filter (λ r, Weekly.staffId r ≠ staffId) (staff sched) |}]>
              (weeklyDocs w)
       else weeklyDocs w)
  ∧ ∀ week, week ≠ currentWeekStartDate w →
            weeklyDocs w' !! week = weeklyDocs w !! week.
Proof.
  intros Hdelete Hsched Hrecord.
  assert (hasStaff sched staffId = true) as Hhas
    by (by apply bool_decide_eq_true).
  destruct w as [user week ogs osched sl schl err doc docs outcomes].
  simpl in Hsched. subst osched. revert Hdelete.
  unfold deleteStaffFromList, bind, getWorld. simpl.
  destruct ogs as [gs|]; [|done].
  destruct (decide (staffId = "")) as [|Hid]; [done|].
  unfold saveGlobalSettings, bind, getWorld. simpl.
  destruct user as [user|]; [|done]. simpl.
  destruct (safetyCheck (Some gs) _) as [message|]; [done|]. simpl.
  destruct (default None (head outcomes)) as [message|]; [done|]. simpl.
  rewrite Hhas. simpl.
  unfold removeStaffFromWeeklySchedule, bind, getWorld. simpl.
  rewrite Hhas. simpl.
  unfold saveWeeklySchedule, bind, getWorld. simpl.
  destruct (default None (head (tail outcomes))) as [message|]; simpl;
    intros [= <-]; simpl; split_and!; try done.
  intros other Hother. by rewrite lookup_insert_ne.
Qed.

Lemma C10_witness :
  currentWeeklySchedule (deleteStaffFromList "s2" loadedWorld).2
    = Some (withStaff sampleWeek
              (filter (λ r, Weekly.staffId r ≠ "s2") (staff sampleWeek)))
  ∧ weeklyDocs (deleteStaffFromList "s2" loadedWorld).2
    = (if default None (head (tail (setDocOutcomes loadedWorld))) is None
       then <[currentWeekStartDate loadedWorld :=
                {| weekStartDate := weekStartDate sampleWeek;
                   staff := cleanRecord
                     <$> filter (λ r, Weekly.staffId r ≠ "s2") (staff sampleWeek) |}]>
              (weeklyDocs loadedWorld)
       else weeklyDocs loadedWorld)
  ∧ ∀ week, week ≠ currentWeekStartDate loadedWorld →
            weeklyDocs (deleteStaffFromList "s2" loadedWorld).2 !! week
            = weeklyDocs loadedWorld !! week.
Proof.
  apply (C10_delete_cascade "s2" loadedWorld).
  - reflexivity.
  - reflexivity.
  - apply (bool_decide_unpack _). vm_compute. exact I.
Defined.

(** The week of 3 June still holds the record of the deleted member. *)
Example delete_leaves_other_weeks :
  (map Weekly.staffId ∘ staff)
    <$> weeklyDocs (deleteStaffFromList "s2" loadedWorld).2 !! "2024-06-03"
  = Some ["s1"; "s2"; "s6"]
  ∧ (map Weekly.staffId ∘ staff)
      <$> weeklyDocs (deleteStaffFromList "s2" loadedWorld).2 !! "2024-06-10"
    = Some ["s1"; "s6"].
Proof. split; vm_compute; reflexivity. Qed.

(** ** The scenarios of the specification *)

(** Scenario A: no override, the roster default is shown as it is. *)
Example scenario_A :
  unitSummary <$> getStaffByUnit String.compare false false
                    (Some scenarioSettings) None
  = Some [("I", [("s1", "I", false)])].
Proof. vm_compute. reflexivity. Qed.

(** Scenario B: an override to a unit outside the set is flagged, with
    the suffix of the source. *)
Example scenario_B :
  unitSummary <$> scenarioView "Deleted"
  = Some [("Deleted", [("s1", "Deleted (törölt)", true)])].
Proof. vm_compute. reflexivity. Qed.

(** Scenario C: the bucket of the empty unit comes after the unit "I". *)
Example scenario_C :
  JsObject.keys <$> getStaffByUnit String.compare false false
                      (Some unassignedSettings) None
  = Some ["I"; ""].
Proof. vm_compute. reflexivity. Qed.

(** The buckets of [useStaffData.test.js]. *)
Example sample_buckets :
  map (λ p : string * list (string * string * bool), (p.1, map (λ x, x.1.1) p.2))
      <$> (unitSummary <$> sampleView)
  = Some [ ("I.", ["s1"; "s5"]); ("II.", ["s2"; "s8"; "s7"]);
           ("Konyha", ["s3"]); ("Orphaned Unit", ["s6"]) ].
Proof. vm_compute. reflexivity. Qed.

(** A roster default that names the group "constructor", which the
    groups do not list, is looked up in the order map and finds the
    function every object inherits: against the index of the listed
    group "G" the comparator returns [NaN], and the member stays before
    the member of "G". A default "Old" is moved behind it. *)
Example inherited_group :
  (map Entry.staffId
     <$> (getStaffByUnit String.compare false false
            (Some (groupSettings [groupMember "a" "constructor" 0;
                                  groupMember "b" "G" 1])) None
          ≫= λ view, JsObject.get view "I."))
  = Some ["a"; "b"]
  ∧ (map Entry.staffId
       <$> (getStaffByUnit String.compare false false
              (Some (groupSettings [groupMember "a" "Old" 0;
                                    groupMember "b" "G" 1])) None
            ≫= λ view, JsObject.get view "I."))
    = Some ["b"; "a"].
Proof. split; vm_compute; reflexivity. Qed.

(** A week that holds a record for the id "__proto__" makes the record
    the prototype of the lookup map, where the member of that id finds
    it. *)
Example proto_record :
  Entry.unit (entryOf scenarioSettings
                (Some {| weekStartDate := "2024-06-10";
                         staff := [withUnit (bareRecord "__proto__") (Some "II")] |})
                (bareMember "__proto__" None))
  = "II".
Proof. reflexivity. Qed.

(** P1 (idempotence): the view is a function of the state it reads. *)
Lemma view_deterministic (localeCompare : string → string → comparison)
    (w1 w2 : World) :
  settingsLoading w1 = settingsLoading w2 →
  scheduleLoading w1 = scheduleLoading w2 →
  globalSettings w1 = globalSettings w2 →
  currentWeeklySchedule w1 = currentWeeklySchedule w2 →
  getStaffByUnit localeCompare (settingsLoading w1) (scheduleLoading w1)
                 (globalSettings w1) (currentWeeklySchedule w1)
  = getStaffByUnit localeCompare (settingsLoading w2) (scheduleLoading w2)
                   (globalSettings w2) (currentWeeklySchedule w2).
Proof. by intros -> -> -> ->. Qed.

(** * Further properties of the hook *)

(** ** Categories *)

Lemma categoryItems_stored (old : option Settings) (gs : Settings)
    (categoryKey : Category) (items : list string) :
  categoryItems
    (mergeSettings old (settingsToSave (withCategory gs categoryKey items)))
    categoryKey
  = Some items.
Proof. by destruct old, categoryKey. Qed.

Lemma staffList_stored (old : option Settings) (gs : Settings)
    (categoryKey : Category) (items : list string) :
  staffList
    (mergeSettings old (settingsToSave (withCategory gs categoryKey items)))
  = Some (Js.sort compareSortOrder (default [] (staffList gs))).
Proof. by destruct old, categoryKey. Qed.

(** X1. A successful [addCategoryItem] stores the category list with the
    trimmed item appended after the items it had, in their order; the
    trimmed item is not empty, and a list without two items equal up to
    case stays so. *)
Theorem addCategoryItem_appends (trim toLowerCase : string → string)
    (item : string) (categoryKey : Category) (w w' : World) :
  addCategoryItem trim toLowerCase item categoryKey w = (true, w') →
  ∃ gs doc,
    globalSettings w = Some gs
    ∧ settingsDoc w' = Some doc
    ∧ categoryItems doc categoryKey
      = Some (default [] (categoryItems gs categoryKey) ++ [trim item])%list
    ∧ trim item ≠ ""
    ∧ (NoDup (toLowerCase <$> default [] (categoryItems gs categoryKey)) →
       NoDup (toLowerCase
                <$> (default [] (categoryItems gs categoryKey) ++ [trim item])%list)).
Proof.
  unfold addCategoryItem. unfold bind at 1. unfold getWorld at 1.
  destruct (globalSettings w) as [gs|] eqn:Hgs; [|done].
  destruct (decide (trim item = "")) as [|Hitem]; [done|].
  destruct (bool_decide _) eqn:Hdup.
  { unfold bind, setSaveError, ret. done. }
  intros (Hdoc & _)%saveGlobalSettings_true.
  apply bool_decide_eq_false in Hdup.
  eexists gs, _. split_and!; [done|exact Hdoc|apply categoryItems_stored|done|].
  intros Hnd. rewrite fmap_app. apply NoDup_app. split_and!; [done| |].
  - intros x Hx Hx'. apply list_elem_of_singleton in Hx'. subst x.
    apply list_elem_of_fmap in Hx as (existing & Heq & Hin).
    apply Hdup, Exists_exists. by exists existing.
  - apply NoDup_singleton.
Qed.

Lemma addCategoryItem_appends_witness :
  ∃ gs doc,
    globalSettings loadedWorld = Some gs
    ∧ settingsDoc (addCategoryItem trimSpaces asciiLower " VI. " UnitsKey
                     loadedWorld).2 = Some doc
    ∧ categoryItems doc UnitsKey
      = Some (default [] (categoryItems gs UnitsKey) ++ [trimSpaces " VI. "])%list
    ∧ trimSpaces " VI. " ≠ ""
    ∧ (NoDup (asciiLower <$> default [] (categoryItems gs UnitsKey)) →
       NoDup (asciiLower
                <$> (default [] (categoryItems gs UnitsKey)
                     ++ [trimSpaces " VI. "])%list)).
Proof.
  apply (addCategoryItem_appends trimSpaces asciiLower " VI. " UnitsKey loadedWorld).
  vm_compute. reflexivity.
Defined.

(** X2. [addCategoryItem] returns false and writes nothing when the
    trimmed item is empty or equals an item of the list up to case. *)
Theorem addCategoryItem_rejects (trim toLowerCase : string → string)
    (item : string) (categoryKey : Category) (w : World) (gs : Settings) :
  globalSettings w = Some gs →
  (trim item = ""
   ∨ ∃ existing, existing ∈ default [] (categoryItems gs categoryKey)
                 ∧ toLowerCase existing = toLowerCase (trim item)) →
  ∃ w', addCategoryItem trim toLowerCase item categoryKey w = (false, w')
        ∧ nothingWritten w w'.
Proof.
  intros Hgs Hbad. unfold addCategoryItem. unfold bind at 1. unfold getWorld at 1.
  rewrite Hgs. destruct (decide (trim item = "")) as [|Hitem].
  { eexists. split; [reflexivity|]. by split_and!. }
  destruct Hbad as [?|(existing & Hin & Heq)]; [done|].
  rewrite bool_decide_eq_true_2
    by (apply Exists_exists; by exists existing).
  eexists. split; [reflexivity|]. by split_and!.
Qed.

Lemma addCategoryItem_rejects_witness :
  ∃ w', addCategoryItem trimSpaces asciiLower "  konyha " UnitsKey loadedWorld
          = (false, w')
        ∧ nothingWritten loadedWorld w'.
Proof.
  apply (addCategoryItem_rejects trimSpaces asciiLower "  konyha " UnitsKey
           loadedWorld sampleSettings).
  - reflexivity.
  - right. exists "Konyha". split; [|reflexivity].
    simpl. do 2 apply list_elem_of_further. apply list_elem_of_here.
Defined.

(** X3. A successful [removeCategoryItem] stores the category list without
    the item, the other items in their order, and stores the roster as it
    was (sorted by [sortOrder]): no default of a staff member is
    changed. *)
Theorem removeCategoryItem_removes (item : string) (categoryKey : Category)
    (w w' : World) :
  removeCategoryItem item categoryKey w = (true, w') →
  ∃ gs doc,
    globalSettings w = Some gs
    ∧ item ∈ default [] (categoryItems gs categoryKey)
    ∧ settingsDoc w' = Some doc
    ∧ categoryItems doc categoryKey
      = Some (filter (λ i, i ≠ item) (default [] (categoryItems gs categoryKey)))
    ∧ staffList doc = Some (Js.sort compareSortOrder (default [] (staffList gs)))
    ∧ weeklyDocs w' = weeklyDocs w.
Proof.
  unfold removeCategoryItem. unfold bind at 1. unfold getWorld at 1.
  destruct (globalSettings w) as [gs|] eqn:Hgs; [|done].
  destruct (decide (item = "")) as [|Hitem]; [done|].
  destruct (bool_decide _) eqn:Hin; simpl; [|done].
  apply bool_decide_eq_true in Hin.
  intros (Hdoc & Hweeks & _)%saveGlobalSettings_true.
  eexists gs, _.
  split_and!; [done|done|exact Hdoc|apply categoryItems_stored
              |apply staffList_stored|done].
Qed.

Lemma removeCategoryItem_removes_witness :
  ∃ gs doc,
    globalSettings loadedWorld = Some gs
    ∧ "II." ∈ default [] (categoryItems gs UnitsKey)
    ∧ settingsDoc (removeCategoryItem "II." UnitsKey loadedWorld).2 = Some doc
    ∧ categoryItems doc UnitsKey
      = Some (filter (λ i, i ≠ "II.") (default [] (categoryItems gs UnitsKey)))
    ∧ staffList doc = Some (Js.sort compareSortOrder (default [] (staffList gs)))
    ∧ weeklyDocs (removeCategoryItem "II." UnitsKey loadedWorld).2
      = weeklyDocs loadedWorld.
Proof.
  apply (removeCategoryItem_removes "II." UnitsKey loadedWorld).
  vm_compute. reflexivity.
Defined.

(** X4. [removeCategoryItem] of an item that is not in the list returns
    false and leaves the whole state as it was: nothing is written and no
    error is set. *)
Theorem removeCategoryItem_absent (item : string) (categoryKey : Category)
    (w : World) (gs : Settings) :
  globalSettings w = Some gs →
  item ∉ default [] (categoryItems gs categoryKey) →
  removeCategoryItem item categoryKey w = (false, w).
Proof.
  intros Hgs Hin. unfold removeCategoryItem, bind, getWorld.
  rewrite Hgs. destruct (decide (item = "")); [done|].
  by rewrite bool_decide_eq_false_2.
Qed.

Lemma removeCategoryItem_absent_witness :
  removeCategoryItem "VI." UnitsKey loadedWorld = (false, loadedWorld).
Proof.
  apply (removeCategoryItem_absent "VI." UnitsKey loadedWorld sampleSettings).
  - reflexivity.
  - by_compute.
Defined.

(** X5. The last category item cannot be removed while staff or shift
    types remain: when the removal would leave the three category lists
    empty, [removeCategoryItem] is stopped by the safety check, returns
    false with the warning and writes nothing. *)
Theorem removeCategoryItem_last (item : string) (categoryKey : Category)
    (w : World) (gs : Settings) :
  globalSettings w = Some gs →
  is_Some (currentUser w) →
  item ≠ "" →
  item ∈ default [] (categoryItems gs categoryKey) →
  deletesAllCategories
    (withCategory gs categoryKey
       (filter (λ i, i ≠ item) (default [] (categoryItems gs categoryKey)))) →
  ∃ w', removeCategoryItem item categoryKey w = (false, w')
        ∧ nothingWritten w w'
        ∧ saveError w' = Some categoriesDeletedMessage.
Proof.
  intros Hgs [user Huser] Hitem Hin Hdel.
  assert (containsData gs) as Hdata.
  { destruct categoryKey; simpl in Hin; unfold containsData.
    - left. intros E. rewrite E in Hin. by apply elem_of_nil in Hin.
    - right. left. intros E. rewrite E in Hin. by apply elem_of_nil in Hin.
    - right. right. left. intros E. rewrite E in Hin. by apply elem_of_nil in Hin. }
  unfold removeCategoryItem. unfold bind at 1. unfold getWorld at 1.
  rewrite Hgs. rewrite decide_False by done.
  rewrite bool_decide_eq_true_2 by done. simpl.
  unfold saveGlobalSettings, bind, getWorld. rewrite Huser. cbn.
  rewrite Hgs, (safetyCheck_blocks gs _ Hdata Hdel). cbn.
  eexists. split; [reflexivity|]. by split_and!.
Qed.

Lemma removeCategoryItem_last_witness :
  ∃ w', removeCategoryItem "I." UnitsKey lastUnitWorld = (false, w')
        ∧ nothingWritten lastUnitWorld w'
        ∧ saveError w' = Some categoriesDeletedMessage.
Proof.
  apply (removeCategoryItem_last "I." UnitsKey lastUnitWorld lastUnitSettings).
  - reflexivity.
  - by eexists.
  - discriminate.
  - apply list_elem_of_here.
  - split_and!; [reflexivity..|]. left. simpl. discriminate.
Defined.
(** ** The settings save *)

Lemma messages_differ : categoriesDeletedMessage ≠ everythingDeletedMessage.
Proof. by_compute. Qed.

Lemma safetyCheck_inv (current : option Settings) (new : Settings)
    (message : string) :
  safetyCheck current new = Some message →
  message = categoriesDeletedMessage
  ∧ ∃ gs, current = Some gs ∧ containsData gs ∧ deletesAllCategories new.
Proof.
  unfold safetyCheck. destruct current as [gs|]; [|done].
  destruct (isEmpty (default [] (units new))) eqn:Hu,
    (isEmpty (default [] (groups new))) eqn:Hg,
    (isEmpty (default [] (jobTitles new))) eqn:Hj,
    (isEmpty (default [] (staffList new))) eqn:Hs,
    (isEmpty (default [] (shiftTypes new))) eqn:Ht,
    (isEmptyObj (default ∅ (timeSlots new)));
    cbn [negb andb orb];
    try done;
    rewrite ?andb_false_r, ?andb_true_r; try done;
    (destruct (_ || _) eqn:Hhad; cbn [negb andb orb]; [|done]);
    intros [= <-]; (split; [reflexivity|]); exists gs; (split; [reflexivity|]);
    apply isEmpty_true in Hu, Hg, Hj;
    try apply isEmpty_false in Hs; try apply isEmpty_false in Ht;
    rewrite !orb_true_iff, !nonempty_length in Hhad;
    unfold containsData, deletesAllCategories; tauto.
Qed.

(** X6. The safety check of [saveGlobalSettings] blocks exactly the saves
    that would leave no category while staff or shift types remain, made
    while the loaded settings hold data, and its only message is the one
    about the categories: the branch that warns that everything would be
    deleted is never taken, and a save with neither staff nor shift
    types passes the check. *)
Theorem safetyCheck_exact (current : option Settings) (new : Settings) :
  (∀ message,
     safetyCheck current new = Some message ↔
     message = categoriesDeletedMessage
     ∧ ∃ gs, current = Some gs ∧ containsData gs ∧ deletesAllCategories new)
  ∧ safetyCheck current new ≠ Some everythingDeletedMessage
  ∧ (default [] (staffList new) = [] → default [] (shiftTypes new) = [] →
     safetyCheck current new = None).
Proof.
  split_and!.
  - intros message. split; [apply safetyCheck_inv|].
    intros (-> & gs & -> & Hdata & Hdel). by apply safetyCheck_blocks.
  - intros (Hm & _)%safetyCheck_inv. by apply messages_differ.
  - intros Hs Ht. destruct (safetyCheck current new) as [message|] eqn:E; [|done].
    apply safetyCheck_inv in E as (_ & gs & _ & _ & _ & _ & _ & [?|?]); done.
Qed.

(** X7. The error state tells the outcome of a settings save: the save
    returns true exactly when it leaves no error message. A failed save
    leaves the stored settings as they were, and no save changes the
    weekly documents, the loaded settings or the loaded week. *)
Theorem saveGlobalSettings_outcome (newSettings : option Settings)
    (bypassSafetyChecks : bool) (w : World) :
  let result := saveGlobalSettings newSettings bypassSafetyChecks w in
  (result.1 = true ↔ saveError result.2 = None)
  ∧ (result.1 = false → settingsDoc result.2 = settingsDoc w)
  ∧ weeklyDocs result.2 = weeklyDocs w
  ∧ globalSettings result.2 = globalSettings w
  ∧ currentWeeklySchedule result.2 = currentWeeklySchedule w.
Proof.
  destruct w as [user week ogs osched sl schl err doc docs outcomes].
  unfold saveGlobalSettings, bind, getWorld. simpl.
  destruct user as [user|], newSettings as [new|]; simpl;
    try (by split_and!; [split|..]).
  destruct (if bypassSafetyChecks then None else safetyCheck ogs new)
    as [message|]; simpl; [by split_and!; [split|..]|].
  destruct (default None (head outcomes)) as [message|]; simpl;
    by split_and!; [split|..].
Qed.
(** ** The weekly overrides: upsert and removal *)

Lemma filter_none {A : Type} (P : A → Prop) `{!∀ x, Decision (P x)}
    (l : list A) :
  (∀ x, x ∈ l → ¬ P x) → filter P l = [].
Proof.
  induction l as [|x l IH]; [done|]. intros Hl.
  rewrite filter_cons_False by (apply Hl, list_elem_of_here).
  apply IH. intros y Hy. by apply Hl, list_elem_of_further.
Qed.

Lemma saveWeeklySchedule_frame (week : string) (sched : WeeklySchedule)
    (w : World) :
  currentWeeklySchedule (saveWeeklySchedule week sched w).2
    = currentWeeklySchedule w
  ∧ globalSettings (saveWeeklySchedule week sched w).2 = globalSettings w
  ∧ settingsDoc (saveWeeklySchedule week sched w).2 = settingsDoc w.
Proof.
  unfold saveWeeklySchedule, bind, getWorld.
  destruct (currentUser w) as [user|]; [|done]. cbn.
  by destruct (default None (head (setDocOutcomes w))) as [message|].
Qed.

Lemma updateStaffInWeeklySchedule_loaded (data : Weekly.t) (w : World) :
  Weekly.staffId data ≠ "" →
  currentWeeklySchedule (updateStaffInWeeklySchedule data w).2
  = Some (withStaff (baseSchedule w) (upserted (staff (baseSchedule w)) data)).
Proof.
  intros Hid. unfold updateStaffInWeeklySchedule. unfold bind at 1.
  unfold getWorld at 1. rewrite decide_False by done.
  unfold bind, setCurrentWeeklySchedule, ret.
  match goal with
  | |- context [saveWeeklySchedule ?k ?s ?w0] =>
      destruct (saveWeeklySchedule k s w0) as [ok w1] eqn:E;
      pose proof (saveWeeklySchedule_frame k s w0) as (H & _);
      rewrite E in H
  end.
  simpl in *. by rewrite H.
Qed.

Lemma upserted_cons (x : Weekly.t) (l : list Weekly.t) (data : Weekly.t) :
  upserted (x :: l) data
  = if decide (Weekly.staffId x = Weekly.staffId data)
    then cleanRecord data :: l else x :: upserted l data.
Proof.
  unfold upserted. simpl. destruct (decide _); [done|].
  by destruct (list_find _ l) as [[index y]|].
Qed.

Lemma upserted_filter (P : Weekly.t → Prop) `{!∀ r, Decision (P r)}
    (l : list Weekly.t) (data : Weekly.t) :
  (∀ r, Weekly.staffId r = Weekly.staffId data → ¬ P r) →
  filter P (upserted l data) = filter P l.
Proof.
  intros HP. induction l as [|x l IH].
  - unfold upserted. simpl. by rewrite filter_cons_False by (by apply HP).
  - rewrite upserted_cons. destruct (decide _) as [E|E].
    + rewrite filter_cons_False by (by apply HP).
      by rewrite filter_cons_False by (by apply HP).
    + rewrite !filter_cons. by rewrite IH.
Qed.

Lemma upserted_own (l : list Weekly.t) (data : Weekly.t) :
  filter (λ r, Weekly.staffId r = Weekly.staffId data) (upserted l data)
  = cleanRecord data
    :: tail (filter (λ r, Weekly.staffId r = Weekly.staffId data) l).
Proof.
  induction l as [|x l IH].
  - unfold upserted. simpl. by rewrite filter_cons_True.
  - rewrite upserted_cons. destruct (decide _) as [E|E].
    + rewrite filter_cons_True by done. by rewrite filter_cons_True.
    + rewrite !filter_cons_False by done. exact IH.
Qed.

Lemma upserted_ids (l : list Weekly.t) (data : Weekly.t) :
  recordIds (upserted l data)
  = if decide (Weekly.staffId data ∈ recordIds l) then recordIds l
    else (recordIds l ++ [Weekly.staffId data])%list.
Proof.
  unfold recordIds. induction l as [|x l IH].
  - reflexivity.
  - rewrite upserted_cons. destruct (decide (Weekly.staffId x = _)) as [E|E].
    + rewrite decide_True by (rewrite fmap_cons, E; apply list_elem_of_here).
      by rewrite !fmap_cons, E.
    + rewrite !fmap_cons, IH. destruct (decide (_ ∈ Weekly.staffId <$> l)) as [Hin|Hin].
      * by rewrite decide_True by (by apply list_elem_of_further).
      * rewrite decide_False; [done|].
        intros [?|?]%elem_of_cons; congruence.
Qed.

Lemma overrideOf_base (w : World) (staffId : string) :
  overrideOf (currentWeeklySchedule w) staffId
  = last (filter (λ r, Weekly.staffId r = staffId) (staff (baseSchedule w))).
Proof. unfold overrideOf, baseSchedule. by destruct (currentWeeklySchedule w). Qed.

Lemma filter_unique_id (l : list Weekly.t) (staffId : string) :
  NoDup (recordIds l) →
  tail (filter (λ r, Weekly.staffId r = staffId) l) = [].
Proof.
  unfold recordIds. induction l as [|x l IH]; [done|].
  rewrite fmap_cons. intros [Hx Hnd]%NoDup_cons.
  destruct (decide (Weekly.staffId x = staffId)) as [E|E].
  - rewrite filter_cons_True by done. simpl.
    apply filter_none. intros r Hr Hid.
    apply Hx. rewrite E, <- Hid. by apply list_elem_of_fmap_2.
  - rewrite filter_cons_False by done. by apply IH.
Qed.

(** In a week with at most one record per member, the override the view
    reads after the upsert is the cleaned record. *)
Lemma updateStaffInWeeklySchedule_override (data : Weekly.t) (w : World) :
  Weekly.staffId data ≠ "" →
  NoDup (recordIds (staff (baseSchedule w))) →
  overrideOf (currentWeeklySchedule (updateStaffInWeeklySchedule data w).2)
             (Weekly.staffId data)
  = Some (cleanRecord data).
Proof.
  intros Hid Hnd. rewrite updateStaffInWeeklySchedule_loaded by done.
  unfold overrideOf. simpl. rewrite upserted_own.
  by rewrite filter_unique_id.
Qed.

(** X8. [updateStaffInWeeklySchedule] is an upsert on the loaded week (the
    default week when none is loaded): the records of the other staff
    members stay as they were and in their order, so the overrides of
    the other members are unchanged; the week has one record more
    exactly when the member had none; and in a week that held at most one
    record per member this stays so and the member's override is the
    cleaned record of the call. *)
Theorem updateStaffInWeeklySchedule_upsert (data : Weekly.t) (w : World) :
  Weekly.staffId data ≠ "" →
  ∃ sched',
    currentWeeklySchedule (updateStaffInWeeklySchedule data w).2 = Some sched'
    ∧ (∀ other, other ≠ Weekly.staffId data →
         overrideOf (Some sched') other = overrideOf (currentWeeklySchedule w) other)
    ∧ filter (λ r, Weekly.staffId r ≠ Weekly.staffId data) (staff sched')
      = filter (λ r, Weekly.staffId r ≠ Weekly.staffId data)
               (staff (baseSchedule w))
    ∧ length (staff sched')
      = (if hasStaff (baseSchedule w) (Weekly.staffId data)
         then length (staff (baseSchedule w))
         else S (length (staff (baseSchedule w))))
    ∧ (NoDup (recordIds (staff (baseSchedule w))) →
       NoDup (recordIds (staff sched'))
       ∧ overrideOf (Some sched') (Weekly.staffId data) = Some (cleanRecord data)).
Proof.
  intros Hid. eexists. split; [by apply updateStaffInWeeklySchedule_loaded|].
  set (l := staff (baseSchedule w)).
  change (staff (withStaff (baseSchedule w) (upserted l data)))
    with (upserted l data).
  split_and!.
  - intros other Hother. rewrite overrideOf_base. unfold overrideOf. simpl.
    fold l. f_equal.
    apply upserted_filter. congruence.
  - apply upserted_filter. by intros r ? ?.
  - assert (length (recordIds (upserted l data))
            = if hasStaff (baseSchedule w) (Weekly.staffId data)
              then length (recordIds l) else S (length (recordIds l))) as H.
    { rewrite upserted_ids. unfold hasStaff. fold l.
      destruct (decide (_ ∈ recordIds l)) as [Hin|Hin].
      - rewrite bool_decide_eq_true_2; [done|].
        apply list_elem_of_fmap in Hin as (r & ? & ?).
        apply Exists_exists. by exists r.
      - rewrite bool_decide_eq_false_2.
        + rewrite length_app. simpl. lia.
        + intros (r & ? & ?)%Exists_exists. apply Hin.
          apply list_elem_of_fmap. by exists r. }
    unfold recordIds in H. by rewrite !length_fmap in H.
  - intros Hnd. split.
    + rewrite upserted_ids. destruct (decide _) as [Hin|Hin]; [done|].
      apply NoDup_app. split_and!; [done| |apply NoDup_singleton].
      intros x Hx ->%list_elem_of_singleton. done.
    + unfold overrideOf. simpl. rewrite upserted_own.
      by rewrite filter_unique_id.
Qed.

Lemma updateStaffInWeeklySchedule_upsert_witness :
  ∃ sched',
    currentWeeklySchedule
      (updateStaffInWeeklySchedule (bareRecord "s3") loadedWorld).2 = Some sched'
    ∧ (∀ other, other ≠ Weekly.staffId (bareRecord "s3") →
         overrideOf (Some sched') other
         = overrideOf (currentWeeklySchedule loadedWorld) other)
    ∧ filter (λ r, Weekly.staffId r ≠ Weekly.staffId (bareRecord "s3"))
             (staff sched')
      = filter (λ r, Weekly.staffId r ≠ Weekly.staffId (bareRecord "s3"))
               (staff (baseSchedule loadedWorld))
    ∧ length (staff sched')
      = (if hasStaff (baseSchedule loadedWorld) (Weekly.staffId (bareRecord "s3"))
         then length (staff (baseSchedule loadedWorld))
         else S (length (staff (baseSchedule loadedWorld))))
    ∧ (NoDup (recordIds (staff (baseSchedule loadedWorld))) →
       NoDup (recordIds (staff sched'))
       ∧ overrideOf (Some sched') (Weekly.staffId (bareRecord "s3"))
         = Some (cleanRecord (bareRecord "s3"))).
Proof.
  apply (updateStaffInWeeklySchedule_upsert (bareRecord "s3") loadedWorld).
  discriminate.
Defined.

Lemma removeStaffFromWeeklySchedule_world (staffId : string) (w : World) :
  (removeStaffFromWeeklySchedule staffId w).2
  = match currentWeeklySchedule w with
    | Some schedule =>
        let newSchedule :=
          withStaff schedule
            (filter (λ s, Weekly.staffId s ≠ staffId) (staff schedule)) in
        if hasStaff schedule staffId then
          (saveWeeklySchedule (currentWeekStartDate w) newSchedule
             (setCurrentWeeklySchedule (Some newSchedule) w).2).2
        else w
    | None => w
    end.
Proof.
  unfold removeStaffFromWeeklySchedule, bind, getWorld.
  destruct (currentWeeklySchedule w) as [sched|]; [|done].
  destruct (hasStaff sched staffId); [|done].
  simpl. by destruct (saveWeeklySchedule _ _ _).
Qed.

(** X9. After [removeStaffFromWeeklySchedule] the loaded week holds no
    override of the staff member, and the overrides of the other members
    are the ones it held. When the member has no record in the loaded
    week (or no week is loaded) the call changes nothing at all and
    attempts no write. The settings document and the documents of the
    other weeks are never touched. *)
Theorem removeStaffFromWeeklySchedule_clears (staffId : string) (w : World) :
  let w' := (removeStaffFromWeeklySchedule staffId w).2 in
  overrideOf (currentWeeklySchedule w') staffId = None
  ∧ (∀ other, other ≠ staffId →
       overrideOf (currentWeeklySchedule w') other
       = overrideOf (currentWeeklySchedule w) other)
  ∧ (overrideOf (currentWeeklySchedule w) staffId = None → w' = w)
  ∧ (∀ week, week ≠ currentWeekStartDate w →
       weeklyDocs w' !! week = weeklyDocs w !! week)
  ∧ settingsDoc w' = settingsDoc w.
Proof.
  cbv zeta. rewrite removeStaffFromWeeklySchedule_world.
  destruct (currentWeeklySchedule w) as [sched|] eqn:Hsched;
    [|by rewrite Hsched].
  cbv zeta.
  assert (hasStaff sched staffId = false
          → filter (λ r, Weekly.staffId r = staffId) (staff sched) = []) as Hnone.
  { unfold hasStaff. intros Hhas%bool_decide_eq_false.
    apply filter_none. intros r Hr Hid. apply Hhas.
    apply Exists_exists. by exists r. }
  destruct (hasStaff sched staffId) eqn:Hhas.
  - match goal with
    | |- context [saveWeeklySchedule ?k ?s ?w0] =>
        pose proof (saveWeeklySchedule_frame k s w0) as (H1 & _ & H3);
        pose proof (λ other, saveWeeklySchedule_other k s w0 other) as H4;
        destruct (saveWeeklySchedule k s w0) as [ok w1]
    end.
    simpl in *. rewrite H1, H3. split_and!.
    + unfold overrideOf. simpl.
      rewrite list_filter_filter.
      rewrite filter_none; [done|]. intros r _ [? ?]. done.
    + intros other Hother. unfold overrideOf. simpl.
      rewrite list_filter_filter. f_equal. apply list_filter_iff.
      intros r. split; [by intros [? ?]|]. intros E. split; [done|congruence].
    + intros Hlast. unfold overrideOf in Hlast. simpl in Hlast.
      apply bool_decide_eq_true in Hhas.
      apply Exists_exists in Hhas as (r & Hr & Hid).
      assert (r ∈ filter (λ r, Weekly.staffId r = staffId) (staff sched)) as Hin
        by (by apply list_elem_of_filter).
      apply last_None in Hlast. rewrite Hlast in Hin.
      by apply elem_of_nil in Hin.
    + intros week Hweek. by apply H4.
    + done.
  - rewrite Hsched. split_and!; try done.
    unfold overrideOf. simpl. by rewrite Hnone.
Qed.

(** X10. A rejected write does not take back the update of the loaded
    week: after [updateStaffInWeeklySchedule] whose write is rejected,
    the stored weeks are as they were and the error carries the message
    of the rejection, while the loaded week holds the record of the
    call. *)
Theorem updateStaffInWeeklySchedule_rejected (data : Weekly.t) (w : World)
    (message : string) :
  Weekly.staffId data ≠ "" →
  is_Some (currentUser w) →
  head (setDocOutcomes w) = Some (Some message) →
  weeklyDocs (updateStaffInWeeklySchedule data w).2 = weeklyDocs w
  ∧ saveError (updateStaffInWeeklySchedule data w).2
    = Some ("Heti beosztás mentése sikertelen: " +:+ message)
  ∧ ∃ sched',
      currentWeeklySchedule (updateStaffInWeeklySchedule data w).2 = Some sched'
      ∧ cleanRecord data ∈ staff sched'.
Proof.
  intros Hid [user Huser] Hout. split_and!.
  - unfold updateStaffInWeeklySchedule, bind, getWorld.
    rewrite decide_False by done. cbn.
    unfold saveWeeklySchedule, bind, getWorld. cbn. rewrite Huser. cbn.
    by rewrite Hout.
  - unfold updateStaffInWeeklySchedule, bind, getWorld.
    rewrite decide_False by done. cbn.
    unfold saveWeeklySchedule, bind, getWorld. cbn. rewrite Huser. cbn.
    by rewrite Hout.
  - eexists. split; [by apply updateStaffInWeeklySchedule_loaded|].
    simpl.
    assert (cleanRecord data
            ∈ filter (λ r, Weekly.staffId r = Weekly.staffId data)
                     (upserted (staff (baseSchedule w)) data)) as Hin
      by (rewrite upserted_own; apply list_elem_of_here).
    by apply list_elem_of_filter in Hin as [_ ?].
Qed.

Lemma updateStaffInWeeklySchedule_rejected_witness :
  weeklyDocs (updateStaffInWeeklySchedule (bareRecord "s3") offlineWorld).2
    = weeklyDocs offlineWorld
  ∧ saveError (updateStaffInWeeklySchedule (bareRecord "s3") offlineWorld).2
    = Some ("Heti beosztás mentése sikertelen: " +:+ "offline")
  ∧ ∃ sched',
      currentWeeklySchedule
        (updateStaffInWeeklySchedule (bareRecord "s3") offlineWorld).2
        = Some sched'
      ∧ cleanRecord (bareRecord "s3") ∈ staff sched'.
Proof.
  apply (updateStaffInWeeklySchedule_rejected (bareRecord "s3") offlineWorld
           "offline").
  - discriminate.
  - by eexists.
  - reflexivity.
Defined.
(** ** The roster: rejected and empty updates *)

(** X11. [addStaffToList] refuses a member without an id and a member
    whose id is already in the roster: it returns false, sets an error
    and writes nothing. *)
Theorem addStaffToList_rejects (data : Staff.t) (w : World) (gs : Settings) :
  globalSettings w = Some gs →
  (Staff.id data = "" ∨ Staff.id data ∈ Staff.id <$> default [] (staffList gs)) →
  ∃ w', addStaffToList data w = (false, w')
        ∧ nothingWritten w w'
        ∧ is_Some (saveError w').
Proof.
  intros Hgs Hbad. unfold addStaffToList. unfold bind at 1. unfold getWorld at 1.
  rewrite Hgs. destruct (decide (Staff.id data = "")) as [|Hid].
  { eexists. split; [reflexivity|]. split; [by split_and!|by eexists]. }
  destruct Hbad as [?|Hin]; [done|].
  rewrite bool_decide_eq_true_2.
  { eexists. split; [reflexivity|]. split; [by split_and!|by eexists]. }
  apply list_elem_of_fmap in Hin as (s & ? & ?).
  apply Exists_exists. by exists s.
Qed.

Lemma addStaffToList_rejects_witness :
  ∃ w', addStaffToList sampleCook loadedWorld = (false, w')
        ∧ nothingWritten loadedWorld w'
        ∧ is_Some (saveError w').
Proof.
  apply (addStaffToList_rejects sampleCook loadedWorld sampleSettings).
  - reflexivity.
  - right. by_compute.
Defined.

(** X12. [updateStaffInList] does not check that the id is in the roster:
    a successful call with an id no member carries stores the roster as
    it was (sorted by [sortOrder]), with no member added or changed. *)
Theorem updateStaffInList_unknown (data : StaffPatch.t) (w w' : World)
    (gs : Settings) :
  globalSettings w = Some gs →
  StaffPatch.id data ∉ Staff.id <$> default [] (staffList gs) →
  updateStaffInList data w = (true, w') →
  ∃ doc, settingsDoc w' = Some doc
         ∧ staffList doc
           = Some (Js.sort compareSortOrder (default [] (staffList gs))).
Proof.
  intros Hgs Hid. unfold updateStaffInList. unfold bind at 1. unfold getWorld at 1.
  rewrite Hgs. destruct (decide (StaffPatch.id data = "")); [done|].
  intros (Hdoc & _)%saveGlobalSettings_true.
  eexists. split; [exact Hdoc|]. rewrite mergeSettings_staffList.
  change (default [] (staffList (withStaffList gs ?l))) with l.
  unfold updatedStaffList. rewrite sort_sorted_id.
  - f_equal. f_equal. rewrite <- (list_fmap_id (default [] (staffList gs))) at 2.
    apply list_fmap_ext. intros i s Hs. simpl.
    rewrite decide_False; [done|]. intros E. apply Hid. rewrite <- E.
    apply list_elem_of_fmap_2. by eapply list_elem_of_lookup_2.
  - apply (consistent_sort (λ _, True)).
    + apply (consistentOn_preimage Staff.sortOrder _ _ subSign_Z_consistent).
    + by apply Forall_forall.
Qed.

Lemma updateStaffInList_unknown_witness :
  ∃ doc, settingsDoc (updateStaffInList (namePatch "nobody" "Anna") loadedWorld).2
         = Some doc
         ∧ staffList doc
           = Some (Js.sort compareSortOrder (default [] (staffList sampleSettings))).
Proof.
  apply (updateStaffInList_unknown (namePatch "nobody" "Anna") loadedWorld _
           sampleSettings).
  - reflexivity.
  - by_compute.
  - vm_compute. reflexivity.
Defined.

(** ** Shift colours *)

(** X13. [getShiftColor] always yields a colour: the result is never the
    empty string. It is white unless the loaded shift types hold a type
    with the code, and then it is decided by the first such type: its
    colour, or white when that colour is empty. *)
Theorem getShiftColor_first (globalSettings : option Settings)
    (shiftCode : string) :
  getShiftColor globalSettings shiftCode ≠ ""
  ∧ (∀ types, globalSettings ≫= shiftTypes = Some types →
       Forall (λ type, code type ≠ shiftCode) types →
       getShiftColor globalSettings shiftCode = "#ffffff")
  ∧ (∀ types before type after,
       globalSettings ≫= shiftTypes = Some types →
       types = (before ++ type :: after)%list →
       Forall (λ type, code type ≠ shiftCode) before →
       code type = shiftCode →
       getShiftColor globalSettings shiftCode
       = if decide (color type = "") then "#ffffff" else color type)
  ∧ (globalSettings ≫= shiftTypes = None →
     getShiftColor globalSettings shiftCode = "#ffffff").
Proof.
  unfold getShiftColor. split_and!.
  - destruct (globalSettings ≫= shiftTypes) as [types|]; [|done].
    destruct (list_find _ types) as [[index type]|]; [|done].
    by destruct (decide (color type = "")).
  - intros types -> Hnone.
    destruct (list_find _ types) as [[index type]|] eqn:E; [|done].
    apply list_find_Some in E as (Hin & Hcode & _).
    apply list_elem_of_lookup_2 in Hin.
    by apply (proj1 (Forall_forall _ _) Hnone) in Hin.
  - intros types before type after -> -> Hbefore Hcode.
    rewrite (proj2 (list_find_Some _ _ (length before) type)); [done|].
    split_and!.
    + by rewrite list_lookup_middle.
    + done.
    + intros j y Hy Hj. rewrite lookup_app_l in Hy by done.
      apply list_elem_of_lookup_2 in Hy.
      by apply (proj1 (Forall_forall _ _) Hbefore).
  - by intros ->.
Qed.
(** ** The settings listener *)

Lemma compareSortOrder_le (a b : Staff.t) :
  compareSortOrder a b ≠ Gt → sortOrderLe a b.
Proof.
  unfold compareSortOrder, sortOrderLe, Js.subSign.
  by destruct (Staff.sortOrder a) as [x|], (Staff.sortOrder b) as [y|].
Qed.

Lemma StronglySorted_impl {A : Type} (R R' : A → A → Prop) (l : list A) :
  (∀ x y, R x y → R' x y) → StronglySorted R l → StronglySorted R' l.
Proof.
  intros HR. induction 1 as [|x l Hl IH Hx]; constructor; [done|].
  eapply Forall_impl; [exact Hx|]. intros y. apply HR.
Qed.

Lemma compareSortOrder_sorted (l : list Staff.t) :
  StronglySorted (λ a b, compareSortOrder a b ≠ Gt) (Js.sort compareSortOrder l).
Proof.
  apply (consistent_sort (λ _, True)).
  - apply (consistentOn_preimage Staff.sortOrder _ _ subSign_Z_consistent).
  - by apply Forall_forall.
Qed.

Lemma withDefaults_storedStaffOf (s : Staff.t) : withDefaults (storedStaffOf s) = s.
Proof. by destruct s. Qed.

Lemma onGlobalSettingsSnapshot_state (data : StoredSettings) (w : World) :
  onGlobalSettingsSnapshot (Some data) w
  = (tt, {| currentUser := currentUser w;
            currentWeekStartDate := currentWeekStartDate w;
            globalSettings := Some (loadedSettings data);
            currentWeeklySchedule := currentWeeklySchedule w;
            settingsLoading := false;
            scheduleLoading := scheduleLoading w;
            saveError := saveError w;
            settingsDoc := settingsDoc w;
            weeklyDocs := weeklyDocs w;
            setDocOutcomes := setDocOutcomes w |}).
Proof. reflexivity. Qed.

(** X14. A snapshot of the settings document loads its staff list sorted
    by [sortOrder], a member without one last, with the same members; a
    member stored without an [isActive] key is loaded as active, and so
    has an entry in every view that [getStaffByUnit] returns, whatever
    the week. The listener clears the loading flag and writes
    nothing. *)
Theorem onGlobalSettingsSnapshot_loads
    (localeCompare : string → string → comparison)
    (data : StoredSettings) (w : World) :
  let w' := (onGlobalSettingsSnapshot (Some data) w).2 in
  (∃ gs l,
     globalSettings w' = Some gs
     ∧ staffList gs = Some l
     ∧ l ≡ₚ withDefaults <$> default [] (storedStaffList data)
     ∧ StronglySorted sortOrderLe l
     ∧ ∀ staff sched view,
         staff ∈ default [] (storedStaffList data) →
         StoredStaff.isActive staff = None →
         getStaffByUnit localeCompare false false (Some gs) sched = Some view →
         ∃ k es e,
           JsObject.get view k = Some es
           ∧ e ∈ es ∧ Entry.staffId e = StoredStaff.id staff)
  ∧ settingsLoading w' = false
  ∧ settingsDoc w' = settingsDoc w
  ∧ weeklyDocs w' = weeklyDocs w
  ∧ setDocOutcomes w' = setDocOutcomes w.
Proof.
  cbv zeta. rewrite onGlobalSettingsSnapshot_state. simpl.
  split_and!; try done.
  eexists _, _. split_and!; [done|done|apply sort_Permutation| |].
  - eapply StronglySorted_impl; [|apply compareSortOrder_sorted].
    apply compareSortOrder_le.
  - intros staff sched view Hin Hactive Hview.
    destruct (view_entry_intro localeCompare (loadedSettings data) sched
                view (withDefaults staff) Hview) as (es & Hget & He).
    + simpl. apply elem_of_sort. by apply list_elem_of_fmap_2.
    + simpl. by rewrite Hactive.
    + by eexists _, es, _.
Qed.

(** X15. A snapshot that finds no settings document loads the blank
    settings and, for a signed-in user whose write is accepted, stores
    them as the new document, whatever settings were loaded before. *)
Theorem onGlobalSettingsSnapshot_missing (w : World) :
  is_Some (currentUser w) →
  settingsDoc w = None →
  default None (head (setDocOutcomes w)) = None →
  settingsDoc (onGlobalSettingsSnapshot None w).2 = Some blankGlobalSettings
  ∧ globalSettings (onGlobalSettingsSnapshot None w).2 = Some blankGlobalSettings
  ∧ settingsLoading (onGlobalSettingsSnapshot None w).2 = false
  ∧ saveError (onGlobalSettingsSnapshot None w).2 = None
  ∧ weeklyDocs (onGlobalSettingsSnapshot None w).2 = weeklyDocs w.
Proof.
  destruct w as [user week ogs osched sl schl err doc docs outcomes].
  simpl. intros [u ->] -> Hout.
  unfold onGlobalSettingsSnapshot, saveGlobalSettings, bind, getWorld. simpl.
  rewrite Hout. simpl. by split_and!.
Qed.

Lemma onGlobalSettingsSnapshot_missing_witness :
  settingsDoc (onGlobalSettingsSnapshot None newUserWorld).2
    = Some blankGlobalSettings
  ∧ globalSettings (onGlobalSettingsSnapshot None newUserWorld).2
    = Some blankGlobalSettings
  ∧ settingsLoading (onGlobalSettingsSnapshot None newUserWorld).2 = false
  ∧ saveError (onGlobalSettingsSnapshot None newUserWorld).2 = None
  ∧ weeklyDocs (onGlobalSettingsSnapshot None newUserWorld).2
    = weeklyDocs newUserWorld.
Proof.
  apply (onGlobalSettingsSnapshot_missing newUserWorld).
  - by eexists.
  - reflexivity.
  - reflexivity.
Defined.

(** X16. The store and the state agree after a save: the document a
    successful [saveGlobalSettings] leaves holds its staff list sorted,
    so the snapshot of that document loads exactly the stored settings;
    the sort of the listener changes nothing. *)
Theorem saved_settings_reload (new : Settings) (bypassSafetyChecks : bool)
    (w w' : World) :
  saveGlobalSettings (Some new) bypassSafetyChecks w = (true, w') →
  ∃ doc l,
    settingsDoc w' = Some doc
    ∧ staffList doc = Some l
    ∧ l ≡ₚ default [] (staffList new)
    ∧ StronglySorted sortOrderLe l
    ∧ loadedSettings (storedOf doc) = doc
    ∧ globalSettings (onGlobalSettingsSnapshot (Some (storedOf doc)) w').2
      = Some doc.
Proof.
  intros (Hdoc & _)%saveGlobalSettings_true.
  eexists _, _. split; [exact Hdoc|].
  split; [apply mergeSettings_staffList|].
  split; [apply sort_Permutation|].
  split.
  { eapply StronglySorted_impl; [|apply compareSortOrder_sorted].
    apply compareSortOrder_le. }
  assert (∀ doc l, staffList doc = Some l →
            StronglySorted (λ a b, compareSortOrder a b ≠ Gt) l →
            loadedSettings (storedOf doc) = doc) as Hload.
  { intros [u g j st ts sl] l. simpl. intros -> Hsorted.
    unfold loadedSettings, storedOf. simpl. f_equal. f_equal.
    rewrite <- list_fmap_compose.
    rewrite (list_fmap_ext (withDefaults ∘ storedStaffOf) id l)
      by (intros; apply withDefaults_storedStaffOf).
    rewrite list_fmap_id. by apply sort_sorted_id. }
  pose proof (Hload _ _ (mergeSettings_staffList (settingsDoc w) new)
                (compareSortOrder_sorted _)) as H.
  split; [exact H|].
  rewrite onGlobalSettingsSnapshot_state. simpl. by rewrite H.
Qed.

Lemma saved_settings_reload_witness :
  ∃ doc l,
    settingsDoc (saveGlobalSettings (Some mixedSettings) false loadedWorld).2
      = Some doc
    ∧ staffList doc = Some l
    ∧ l ≡ₚ default [] (staffList mixedSettings)
    ∧ StronglySorted sortOrderLe l
    ∧ loadedSettings (storedOf doc) = doc
    ∧ globalSettings
        (onGlobalSettingsSnapshot (Some (storedOf doc))
           (saveGlobalSettings (Some mixedSettings) false loadedWorld).2).2
      = Some doc.
Proof.
  apply (saved_settings_reload mixedSettings false loadedWorld).
  vm_compute. reflexivity.
Defined.
(** ** The view as a partition of the active roster *)

Lemma concat_fmap_Permutation {A B : Type} (f g : A → list B) (K : list A) :
  (∀ k, k ∈ K → f k ≡ₚ g k) → concat (f <$> K) ≡ₚ concat (g <$> K).
Proof.
  induction K as [|k K IH]; [done|]. intros H. simpl.
  rewrite (H k) by apply list_elem_of_here.
  rewrite IH; [done|]. intros k' Hk'. by apply H, list_elem_of_further.
Qed.

Lemma concat_partition {A : Type} (key : A → string) (K : list string)
    (l : list A) :
  NoDup K → (∀ x, x ∈ l → key x ∈ K) →
  concat ((λ k, filter (λ x, key x = k) l) <$> K) ≡ₚ l.
Proof.
  revert l. induction K as [|k K IH]; intros l Hnd Hl.
  - destruct l as [|x l]; [done|].
    by destruct (not_elem_of_nil (key x) (Hl x (list_elem_of_here _ _))).
  - apply NoDup_cons in Hnd as [Hk Hnd]. simpl.
    etransitivity; [|apply (filter_app_complement (λ x, key x = k) l)].
    apply Permutation_app; [done|].
    rewrite <- (IH (filter (λ x, ¬ key x = k) l) Hnd).
    + apply concat_fmap_Permutation. intros k' Hk'.
      rewrite list_filter_filter.
      erewrite list_filter_iff; [done|].
      assert (k' ≠ k) as Hne by (by intros ->).
      intros x. simpl.
      split; first [by intros [? ?]|intros E; split; [done|congruence]].
    + intros x [Hx Hin]%list_elem_of_filter.
      by destruct (proj1 (elem_of_cons _ _ _) (Hl x Hin)).
Qed.

Lemma combinedStaffList_entryOf (gs : Settings) (sched : option WeeklySchedule) :
  combinedStaffList gs sched (activeStaff gs) = entryOf gs sched <$> activeStaff gs.
Proof. reflexivity. Qed.

Lemma view_created_NoDup (localeCompare : string → string → comparison)
    (gs : Settings) (sched : option WeeklySchedule)
    (view : JsObject.t (list Entry.t)) :
  getStaffByUnit localeCompare false false (Some gs) sched = Some view →
  NoDup (JsObject.created view).
Proof.
  intros Hview. destruct (decide (activeStaff gs = [])) as [E|E].
  - rewrite getStaffByUnit_no_active in Hview by done.
    injection Hview as <-. apply NoDup_nil_2.
  - destruct (view_created localeCompare gs sched view E Hview)
      as (grouped & G & ->).
    apply sortedUnitKeys_NoDup. by apply groupByUnit_Some in G as (_ & _ & ?).
Qed.

(** X17. [getStaffByUnit] throws exactly when the effective unit of an
    active member is the name of a member of [Object.prototype].
    Otherwise the buckets of the view it returns partition the active
    roster: listed bucket after bucket, the entries of the view are the
    entries of the active members, each once. No unit key is listed
    twice, every bucket holds at least one entry and only entries of its
    own unit, and the view has no bucket at all exactly when the roster
    has no active member, whatever the week holds. *)
Theorem view_partition (localeCompare : string → string → comparison)
    (gs : Settings) (sched : option WeeklySchedule) :
  (getStaffByUnit localeCompare false false (Some gs) sched = None
   ↔ ∃ g, g ∈ activeStaff gs ∧ effectiveUnit sched g ∈ objectPrototypeNames)
  ∧ ∀ view,
      getStaffByUnit localeCompare false false (Some gs) sched = Some view →
      concat ((λ k, default [] (JsObject.get view k)) <$> JsObject.keys view)
        ≡ₚ entryOf gs sched <$> activeStaff gs
      ∧ NoDup (JsObject.keys view)
      ∧ (∀ k es, JsObject.get view k = Some es →
           es ≠ [] ∧ Forall (λ e, Entry.unit e = k) es)
      ∧ (JsObject.keys view = [] ↔ activeStaff gs = []).
Proof.
  split; [by rewrite getStaffByUnit_throws, Exists_exists|].
  intros view Hview.
  assert (NoDup (JsObject.keys view)) as Hnd.
  { rewrite keys_Permutation. by eapply view_created_NoDup. }
  assert (∀ k, default [] (JsObject.get view k)
               ≡ₚ filter (λ e, Entry.unit e = k) (entryOf gs sched <$> activeStaff gs))
    as Hbucket.
  { intros k. rewrite (get_getStaffByUnit _ _ _ _ _ Hview). cbv zeta.
    rewrite combinedStaffList_entryOf.
    destruct (decide (_ = [])) as [E|E]; simpl.
    - by rewrite E.
    - apply sort_Permutation. }
  split_and!.
  - rewrite (concat_fmap_Permutation _
               (λ k, filter (λ e, Entry.unit e = k)
                            (entryOf gs sched <$> activeStaff gs)))
      by (intros; apply Hbucket).
    apply concat_partition; [done|].
    intros e (g & -> & Hg)%list_elem_of_fmap.
    apply list_elem_of_filter in Hg as [Hactive Hg].
    destruct (view_entry_intro localeCompare gs sched view g Hview Hg Hactive)
      as (es & Hget & _).
    apply elem_of_keys. by eexists.
  - done.
  - intros k es Hget. rewrite (get_getStaffByUnit _ _ _ _ _ Hview) in Hget.
    cbv zeta in Hget. destruct (decide (_ = [])) as [E|E]; [done|].
    injection Hget as <-. split.
    + intros Hnil. by apply sort_nil_inv in Hnil.
    + apply Forall_forall. intros e He. apply elem_of_sort in He.
      by apply list_elem_of_filter in He as [? _].
  - split.
    + intros Hkeys. destruct (activeStaff gs) as [|g l] eqn:E; [done|].
      assert (g ∈ activeStaff gs) as Hg by (rewrite E; apply list_elem_of_here).
      apply list_elem_of_filter in Hg as [Hactive Hg].
      destruct (view_entry_intro localeCompare gs sched view g Hview Hg Hactive)
        as (es & Hget & _).
      assert (Entry.unit (entryOf gs sched g) ∈ JsObject.keys view) as Hin
        by (apply elem_of_keys; by eexists).
      rewrite Hkeys in Hin. by apply elem_of_nil in Hin.
    + intros E. rewrite getStaffByUnit_no_active in Hview by done.
      by injection Hview as <-.
Qed.

(** X18. When no unit key of a view that [getStaffByUnit] returns is an
    array index (a decimal number without a leading zero), the buckets
    are listed in the order of the units of the settings: the units of
    the category set by their position, then the other unit names
    alphabetically, then the bucket of the members without a unit. *)
Theorem view_unit_order (localeCompare : string → string → comparison)
    (gs : Settings) (sched : option WeeklySchedule)
    (view : JsObject.t (list Entry.t)) :
  Collation localeCompare →
  getStaffByUnit localeCompare false false (Some gs) sched = Some view →
  Forall (λ k, ¬ JsObject.isIndex k) (JsObject.created view) →
  StronglySorted (unitBefore localeCompare (default [] (units gs)))
    (JsObject.keys view)
  ∧ JsObject.keys view = JsObject.created view.
Proof.
  intros collation Hview Hkeys. split.
  - by eapply view_keys_sorted.
  - by apply keys_created.
Qed.

Lemma view_unit_order_witness :
  ∃ view,
    getStaffByUnit String.compare false false (Some sampleSettings)
                   (Some sampleWeek) = Some view
    ∧ StronglySorted
        (unitBefore String.compare (default [] (units sampleSettings)))
        (JsObject.keys view)
    ∧ JsObject.keys view = JsObject.created view
    ∧ JsObject.keys view = ["I."; "II."; "Konyha"; "Orphaned Unit"].
Proof.
  exists (default JsObject.empty sampleView).
  destruct (view_unit_order String.compare sampleSettings (Some sampleWeek)
              (default JsObject.empty sampleView)) as [H1 H2].
  - apply String_collation.
  - vm_compute. reflexivity.
  - apply (bool_decide_unpack _). vm_compute. exact I.
  - split_and!; [vm_compute; reflexivity|done|done|vm_compute; reflexivity].
Defined.
(** * The week of the application *)

Lemma getDay_range (date : Z) : (0 ≤ getDay date < 7)%Z.
Proof. unfold getDay. days_lia. Qed.

Lemma getCurrentMonday_eq (getDate : Z → Z) (today : Z) (dateInput : option Z) :
  getCurrentMonday getDate today dateInput
  = (default today dateInput - (getDay (default today dateInput) + 6) mod 7)%Z.
Proof.
  unfold getCurrentMonday, setDate. cbv zeta.
  set (now := default today dateInput).
  pose proof (getDay_range now).
  destruct (decide (getDay now = 0%Z)) as [E|E]; [rewrite E|]; days_lia.
Qed.

Lemma changeWeek_eq (getDate : Z → Z) (direction prevWeek : Z) :
  changeWeek getDate direction prevWeek = (prevWeek + 7 * direction)%Z.
Proof. unfold changeWeek, setDate. lia. Qed.

Lemma addDays_eq (getDate : Z → Z) (date : Z) (index : nat) :
  addDays getDate date index = (date + Z.of_nat index)%Z.
Proof. unfold addDays, setDate. lia. Qed.

Lemma thursdayOf_eq (date : Z) :
  thursdayOf date = (date - (getDay date + 6) mod 7 + 3)%Z.
Proof.
  unfold thursdayOf. cbv zeta. pose proof (getDay_range date).
  destruct (decide (getDay date = 0%Z)) as [E|E]; [rewrite E|]; days_lia.
Qed.

(** X19. [getCurrentMonday] yields the Monday of the week of its date
    (of today for an input that is not a valid date): a Monday, at most
    six days before the date, and the same for exactly the seven days
    from that Monday to the following Sunday. [changeWeek] moves a week
    by whole weeks, so the week it yields starts on a Monday again. *)
Theorem getCurrentMonday_week (getDate : Z → Z) (today : Z)
    (dateInput : option Z) :
  let now := default today dateInput in
  let monday := getCurrentMonday getDate today dateInput in
  getDay monday = 1%Z
  ∧ (now - 6 ≤ monday ≤ now)%Z
  ∧ (∀ date, getCurrentMonday getDate today (Some date) = monday
             ↔ (monday ≤ date ≤ monday + 6)%Z)
  ∧ (∀ direction,
       changeWeek getDate direction monday = (monday + 7 * direction)%Z
       ∧ getDay (changeWeek getDate direction monday) = 1%Z).
Proof.
  cbv zeta. rewrite getCurrentMonday_eq.
  set (now := default today dateInput).
  assert (getDay (now - (getDay now + 6) mod 7) = 1%Z) as Hmonday
    by (unfold getDay; days_lia).
  split; [done|]. split; [days_lia|]. split.
  - intros date. rewrite getCurrentMonday_eq. simpl.
    unfold getDay in *. days_lia.
  - intros direction. rewrite changeWeek_eq. split; [done|].
    unfold getDay in *. days_lia.
Qed.

Lemma getDay_week (getDate : Z → Z) (start : Z) (directions : list Z) :
  getDay start = 1%Z →
  getDay (foldl (λ week direction, changeWeek getDate direction week)
                start directions) = 1%Z.
Proof.
  revert start. induction directions as [|direction directions IH];
    intros start Hstart; [done|].
  simpl. apply IH. rewrite changeWeek_eq. unfold getDay in *. days_lia.
Qed.

(** X20. The days of the displayed week are always Monday to Saturday:
    from the Monday [getCurrentMonday] yields, after any number of
    [changeWeek] steps, [getWeekDates] gives six consecutive days whose
    names are those of Monday to Saturday, and no Sunday. *)
Theorem week_columns (getDate : Z → Z) (today : Z) (dateInput : option Z)
    (directions : list Z) :
  let currentWeek :=
    foldl (λ week direction, changeWeek getDate direction week)
          (getCurrentMonday getDate today dateInput) directions in
  getWeekDates (addDays getDate) currentWeek
    = (λ index, currentWeek + Z.of_nat index)%Z <$> seq 0 6
  ∧ getDayName ∘ Some <$> getWeekDates (addDays getDate) currentWeek
    = ["Hétfő"; "Kedd"; "Szerda"; "Csütörtök"; "Péntek"; "Szombat"]
  ∧ Forall (λ date, getDay date ≠ 0%Z)
           (getWeekDates (addDays getDate) currentWeek).
Proof.
  cbv zeta.
  set (currentWeek := foldl _ _ directions).
  assert (getDay currentWeek = 1%Z) as Hmonday.
  { apply getDay_week.
    apply (getCurrentMonday_week getDate today dateInput). }
  assert (getWeekDates (addDays getDate) currentWeek
          = (λ index, currentWeek + Z.of_nat index)%Z <$> seq 0 6) as Hdates.
  { unfold getWeekDates. apply list_fmap_ext. intros i index _.
    apply addDays_eq. }
  rewrite Hdates.
  assert (∀ index : Z, (0 ≤ index < 6)%Z →
            getDay (currentWeek + index) = (1 + index)%Z) as Hday
    by (intros index Hindex; unfold getDay in *; days_lia).
  split; [done|]. split.
  - rewrite <- list_fmap_compose.
    transitivity ((λ index, default "" (days !! S index)) <$> seq 0 6);
      [|reflexivity].
    apply list_fmap_ext. intros i index Hindex.
    apply list_elem_of_lookup_2, elem_of_seq in Hindex.
    unfold compose, getDayName. rewrite Hday by lia.
    by replace (Z.to_nat (1 + Z.of_nat index)) with (S index) by lia.
  - apply Forall_forall. intros date (index & -> & Hindex)%list_elem_of_fmap.
    apply elem_of_seq in Hindex. rewrite Hday by lia. lia.
Qed.

(** X21. The week number belongs to the week, not to the day:
    [getWeekNumber] and [isEvenWeek] give the same result for a date and
    for the Monday of its week, hence for any two dates of one week
    (Monday to Sunday). When the year of the week's Thursday starts on or
    before that Thursday and has at most 366 days, the number is between
    1 and 53. *)
Theorem getWeekNumber_week (getUTCFullYear utcYearStart getDate : Z → Z)
    (today date : Z) :
  getWeekNumber getUTCFullYear utcYearStart
    (Some (getCurrentMonday getDate today (Some date)))
  = getWeekNumber getUTCFullYear utcYearStart (Some date)
  ∧ (∀ other,
       getCurrentMonday getDate today (Some other)
       = getCurrentMonday getDate today (Some date) →
       getWeekNumber getUTCFullYear utcYearStart (Some other)
       = getWeekNumber getUTCFullYear utcYearStart (Some date)
       ∧ isEvenWeek getUTCFullYear utcYearStart (Some other)
         = isEvenWeek getUTCFullYear utcYearStart (Some date))
  ∧ (yearHolds getUTCFullYear utcYearStart date →
     (1 ≤ getWeekNumber getUTCFullYear utcYearStart (Some date) ≤ 53)%Z).
Proof.
  assert (∀ other,
            getCurrentMonday getDate today (Some other)
            = getCurrentMonday getDate today (Some date) →
            thursdayOf other = thursdayOf date) as Hthursday.
  { intros other. rewrite !getCurrentMonday_eq, !thursdayOf_eq. simpl. lia. }
  assert (∀ other,
            getCurrentMonday getDate today (Some other)
            = getCurrentMonday getDate today (Some date) →
            getWeekNumber getUTCFullYear utcYearStart (Some other)
            = getWeekNumber getUTCFullYear utcYearStart (Some date)) as Hweek.
  { intros other Hother. unfold getWeekNumber. cbv zeta.
    by rewrite (Hthursday other Hother). }
  split; [|split].
  - apply Hweek.
    apply (getCurrentMonday_week getDate today (Some date)).
    rewrite getCurrentMonday_eq. simpl. pose proof (getDay_range date).
    days_lia.
  - intros other Hother. split; [by apply Hweek|].
    unfold isEvenWeek. cbv zeta. by rewrite (Hweek other Hother).
  - intros [Hstart Hend]. unfold getWeekNumber, ceilDiv. cbv zeta. days_lia.
Qed.

Lemma getWeekNumber_week_witness :
  getWeekNumber civilYear firstOfYear
    (Some (getCurrentMonday civilDayOfMonth 0 (Some 20088%Z)))
  = getWeekNumber civilYear firstOfYear (Some 20088%Z)
  ∧ (getWeekNumber civilYear firstOfYear (Some 20087%Z)
     = getWeekNumber civilYear firstOfYear (Some 20088%Z)
     ∧ isEvenWeek civilYear firstOfYear (Some 20087%Z)
       = isEvenWeek civilYear firstOfYear (Some 20088%Z))
  ∧ (1 ≤ getWeekNumber civilYear firstOfYear (Some 20088%Z) ≤ 53)%Z.
Proof.
  pose proof (getWeekNumber_week civilYear firstOfYear civilDayOfMonth 0 20088)
    as (H1 & H2 & H3).
  split; [exact H1|]. split.
  - apply (H2 20087%Z). reflexivity.
  - apply H3. vm_compute. split; [discriminate|reflexivity].
Defined.

(** X22. Within a year the parity of the week alternates: when the
    Thursdays of a week and of the next week are in the same year, the
    next week has the next number and the opposite [isEvenWeek]. *)
Theorem isEvenWeek_alternates (getUTCFullYear utcYearStart : Z → Z) (date : Z) :
  yearHolds getUTCFullYear utcYearStart date →
  getUTCFullYear (thursdayOf (date + 7)) = getUTCFullYear (thursdayOf date) →
  getWeekNumber getUTCFullYear utcYearStart (Some (date + 7)%Z)
  = (getWeekNumber getUTCFullYear utcYearStart (Some date) + 1)%Z
  ∧ isEvenWeek getUTCFullYear utcYearStart (Some (date + 7)%Z)
    = negb (isEvenWeek getUTCFullYear utcYearStart (Some date)).
Proof.
  intros [Hstart Hend] Hyear.
  assert (thursdayOf (date + 7) = (thursdayOf date + 7)%Z) as Hnext.
  { rewrite !thursdayOf_eq. unfold getDay. days_lia. }
  assert (getWeekNumber getUTCFullYear utcYearStart (Some (date + 7)%Z)
          = (getWeekNumber getUTCFullYear utcYearStart (Some date) + 1)%Z) as Hweek.
  { unfold getWeekNumber, ceilDiv. cbv zeta. rewrite Hyear, Hnext. days_lia. }
  split; [done|].
  unfold isEvenWeek. cbv zeta. rewrite Hweek.
  set (n := getWeekNumber getUTCFullYear utcYearStart (Some date)).
  assert (1 ≤ n)%Z as Hn
    by (unfold n, getWeekNumber, ceilDiv; cbv zeta; days_lia).
  rewrite (bool_decide_eq_true_2 (0 < n + 1)%Z),
    (bool_decide_eq_true_2 (0 < n)%Z) by lia.
  simpl.
  destruct (decide (Z.rem n 2 = 0%Z)) as [E|E].
  - rewrite (bool_decide_eq_true_2 _ E).
    apply bool_decide_eq_false_2. days_lia.
  - rewrite (bool_decide_eq_false_2 _ E).
    apply bool_decide_eq_true_2. days_lia.
Qed.

Lemma isEvenWeek_alternates_witness :
  getWeekNumber civilYear firstOfYear (Some (19723 + 7)%Z)
  = (getWeekNumber civilYear firstOfYear (Some 19723%Z) + 1)%Z
  ∧ isEvenWeek civilYear firstOfYear (Some (19723 + 7)%Z)
    = negb (isEvenWeek civilYear firstOfYear (Some 19723%Z)).
Proof.
  apply (isEvenWeek_alternates civilYear firstOfYear 19723).
  - vm_compute. split; [discriminate|reflexivity].
  - reflexivity.
Defined.

(** At the turn of a year with 53 weeks the rule does not apply: week 53
    of 2020 (28 December 2020) and week 1 of 2021 (4 January 2021) are
    both odd. *)
Example odd_weeks_in_a_row :
  getWeekNumber civilYear firstOfYear (Some (daysFromCivil 2020 12 28)) = 53%Z
  ∧ getWeekNumber civilYear firstOfYear (Some (daysFromCivil 2021 1 4)) = 1%Z
  ∧ isEvenWeek civilYear firstOfYear (Some (daysFromCivil 2020 12 28)) = false
  ∧ isEvenWeek civilYear firstOfYear (Some (daysFromCivil 2021 1 4)) = false.
Proof. by vm_compute. Qed.

(** The week numbers the tests of the repository expect. *)
Example week_numbers_of_the_tests :
  getWeekNumber civilYear firstOfYear
    <$> [ Some (daysFromCivil 2024 1 1); Some (daysFromCivil 2024 1 7);
          Some (daysFromCivil 2024 1 8); Some (daysFromCivil 2026 1 1);
          Some (daysFromCivil 2025 12 31); None ]
  = [1; 1; 2; 1; 1; 0]%Z.
Proof. reflexivity. Qed.
(** ** The weekly editor *)

Lemma orphanedByOverride_Some (valid : list string) (r : Weekly.t)
    (field : Weekly.t → option string) (v : string) :
  field r = Some v →
  orphanedByOverride valid (Some r) field ↔ v ≠ "" ∧ v ∉ valid.
Proof.
  intros Hfield. unfold orphanedByOverride. split.
  - intros (r' & v' & [= <-] & Hv & ? & ?). rewrite Hfield in Hv.
    by injection Hv as <-.
  - intros [? ?]. by exists r, v.
Qed.

(** X23. Saving the weekly editor without a change turns what it showed
    into overrides. When the editor is opened on the entry of a member
    and saved as it is, the week holds from then on the unit, group, job
    title, name and shifts the entry showed: under any later settings
    the entry of the member in that week shows these values, whatever
    the roster defaults have become, and a value that is not empty and
    is not in the category set is flagged, also when it came from a
    roster default, which was not flagged before. *)
Theorem edit_freezes_values (trim : string → string) (w : World)
    (gs gs' : Settings) (g g' : Staff.t) :
  Staff.id g ≠ "" →
  Js.truthy (trim <$> Entry.name (entryOf gs (currentWeeklySchedule w) g)) = true →
  NoDup (recordIds (staff (baseSchedule w))) →
  Staff.id g' = Staff.id g →
  let e := entryOf gs (currentWeeklySchedule w) g in
  let w' := (handleSaveStaffWeeklyData trim (handleEditStaff e) w).2 in
  let e' := entryOf gs' (currentWeeklySchedule w') g' in
  Entry.unit e' = Entry.unit e
  ∧ Entry.group e' = Entry.group e
  ∧ Entry.jobTitle e' = Entry.jobTitle e
  ∧ Entry.name e' = Entry.name e
  ∧ Entry.shifts e' = Entry.shifts e
  ∧ (Entry.isOrphanedUnit e' = true
     ↔ Entry.unit e ≠ "" ∧ Entry.unit e ∉ default [] (units gs'))
  ∧ (Entry.isOrphanedGroup e' = true
     ↔ Entry.group e ≠ "" ∧ Entry.group e ∉ default [] (groups gs'))
  ∧ (Entry.isOrphanedJobTitle e' = true
     ↔ Entry.jobTitle e ≠ "" ∧ Entry.jobTitle e ∉ default [] (jobTitles gs')).
Proof.
  intros Hid Hname Hnd Hg'. cbv zeta.
  set (e := entryOf gs (currentWeeklySchedule w) g) in *.
  assert (handleSaveStaffWeeklyData trim (handleEditStaff e) w
          = updateStaffInWeeklySchedule (handleEditStaff e) w) as ->.
  { unfold handleSaveStaffWeeklyData.
    change (Weekly.name (handleEditStaff e)) with (Entry.name e).
    by rewrite Hname. }
  pose proof (updateStaffInWeeklySchedule_override (handleEditStaff e) w Hid Hnd)
    as Hoverride.
  change (Weekly.staffId (handleEditStaff e)) with (Staff.id g) in Hoverride.
  rewrite <- Hg' in Hoverride. clearbody e.
  set (sched' := currentWeeklySchedule
                   (updateStaffInWeeklySchedule (handleEditStaff e) w).2) in *.
  destruct (entryOf_effective gs' sched' g') as (_ & Hu & Hgr & Hj & Hn & Hs);
    [left; rewrite Hoverride; by eexists|].
  destruct (entryOf_annotated gs' sched' g')
    as (_ & (Hfu & _) & (Hfg & _) & (Hfj & _) ).
  rewrite Hoverride in *.
  destruct (Entry.name e) as [n|] eqn:En; [|done].
  split_and!.
  - by rewrite Hu.
  - by rewrite Hgr.
  - by rewrite Hj.
  - rewrite Hn. simpl. by rewrite En.
  - by rewrite Hs.
  - rewrite Hfu. by apply orphanedByOverride_Some.
  - rewrite Hfg. by apply orphanedByOverride_Some.
  - rewrite Hfj. by apply orphanedByOverride_Some.
Qed.

Lemma edit_freezes_values_witness :
  let e := entryOf movedSettings (currentWeeklySchedule movedWorld) movedMember in
  let w' := (handleSaveStaffWeeklyData trimSpaces (handleEditStaff e) movedWorld).2 in
  let e' := entryOf movedSettings (currentWeeklySchedule w') movedMember in
  Entry.unit e' = Entry.unit e
  ∧ Entry.group e' = Entry.group e
  ∧ Entry.jobTitle e' = Entry.jobTitle e
  ∧ Entry.name e' = Entry.name e
  ∧ Entry.shifts e' = Entry.shifts e
  ∧ (Entry.isOrphanedUnit e' = true
     ↔ Entry.unit e ≠ "" ∧ Entry.unit e ∉ default [] (units movedSettings))
  ∧ (Entry.isOrphanedGroup e' = true
     ↔ Entry.group e ≠ "" ∧ Entry.group e ∉ default [] (groups movedSettings))
  ∧ (Entry.isOrphanedJobTitle e' = true
     ↔ Entry.jobTitle e ≠ ""
       ∧ Entry.jobTitle e ∉ default [] (jobTitles movedSettings)).
Proof.
  apply (edit_freezes_values trimSpaces movedWorld movedSettings movedSettings
           movedMember movedMember).
  - discriminate.
  - reflexivity.
  - apply NoDup_nil_2.
  - reflexivity.
Defined.

(** The member of the sample whose default unit was deleted is shown
    without a flag; after the editor is saved unchanged the unit is
    flagged. *)
Example edit_flags_deleted_default :
  let e := entryOf movedSettings (currentWeeklySchedule movedWorld) movedMember in
  let w' := (handleSaveStaffWeeklyData trimSpaces (handleEditStaff e) movedWorld).2 in
  let e' := entryOf movedSettings (currentWeeklySchedule w') movedMember in
  (Entry.unit e, Entry.isOrphanedUnit e, Entry.displayUnit e)
    = ("Old", false, "Old")
  ∧ (Entry.unit e', Entry.isOrphanedUnit e', Entry.displayUnit e')
    = ("Old", true, "Old (törölt)").
Proof. by vm_compute. Qed.
(** ** The settings dialog: reordering by drag and drop *)

Section ReorderFacts.

Context {A K : Type} `{EqDecision K} (idOf : A → K).

(** The list without the dragged item at [index], with the item put back
    at [final]. *)
Lemma reinsert_Permutation (l : list A) (index final : nat) (x : A) :
  l !! index = Some x →
  (take final (delete index l) ++ x :: drop final (delete index l))%list ≡ₚ l.
Proof.
  intros Hx. rewrite <- Permutation_middle, take_drop.
  rewrite delete_take_drop.
  rewrite <- (take_drop_middle l index x Hx) at 3.
  by rewrite <- Permutation_middle.
Qed.

Lemma reinsert_others (P : A → Prop) `{!∀ x, Decision (P x)}
    (l : list A) (index final : nat) (x : A) :
  l !! index = Some x → ¬ P x →
  filter P (take final (delete index l) ++ x :: drop final (delete index l))%list
  = filter P l.
Proof.
  intros Hx HP.
  rewrite filter_app, filter_cons_False, <- filter_app, take_drop by done.
  rewrite delete_take_drop.
  rewrite <- (take_drop_middle l index x Hx) at 3.
  by rewrite !filter_app, filter_cons_False.
Qed.

Lemma list_find_first (l : list A) (index : nat) (x dragged : A) :
  NoDup (idOf <$> l) → l !! index = Some x → idOf x = idOf dragged →
  list_find (λ item, idOf item = idOf dragged) l = Some (index, x).
Proof.
  intros Hnd Hx Hid. apply list_find_Some. split_and!; [done..|].
  intros j y Hy Hj Hidy.
  assert (j = index); [|lia].
  eapply NoDup_lookup; [exact Hnd| |].
  - by rewrite list_lookup_fmap, Hy.
  - rewrite list_lookup_fmap, Hx. simpl. congruence.
Qed.

(** Whatever is done to the reordered list, a drop either leaves the
    list alone or sets a reordering of it. *)
Lemma handleDrop_cases (renumber : list A → list A) (currentList : list A)
    (draggedItem : option A) (targetIndex : nat) :
  handleDrop idOf renumber currentList draggedItem targetIndex = currentList
  ∨ ∃ reordered,
      reordered ≡ₚ currentList
      ∧ handleDrop idOf renumber currentList draggedItem targetIndex
        = renumber reordered.
Proof.
  unfold handleDrop. destruct draggedItem as [draggedItem|]; [|by left].
  destruct (list_find _ currentList) as [[index x]|] eqn:E; [|by left].
  destruct (decide (index = targetIndex)); [by left|].
  right. eexists. split; [|reflexivity].
  apply list_find_Some in E as (Hx & _). by apply reinsert_Permutation.
Qed.

(** X24. A drop in a list of the settings dialog only moves the dragged
    item: the list keeps its items, the other items keep their order,
    and in a list without repeated items the dragged item lands at the
    target index, or one before it when it was dragged downwards. A drop
    on the item itself or on the item just after it leaves the list as
    it was, and a drop on the list puts the item last. *)
Theorem handleDrop_moves (currentList : list A) (draggedItem : A)
    (targetIndex : nat) :
  handleDrop idOf id currentList (Some draggedItem) targetIndex ≡ₚ currentList
  ∧ filter (λ item, idOf item ≠ idOf draggedItem)
           (handleDrop idOf id currentList (Some draggedItem) targetIndex)
    = filter (λ item, idOf item ≠ idOf draggedItem) currentList
  ∧ (∀ index movedItem,
       NoDup (idOf <$> currentList) →
       currentList !! index = Some movedItem →
       idOf movedItem = idOf draggedItem →
       (targetIndex ≤ length currentList)%nat →
       (handleDrop idOf id currentList (Some draggedItem) targetIndex
          !! (if decide (index < targetIndex)%nat
              then (targetIndex - 1)%nat else targetIndex)
        = Some movedItem)
       ∧ (targetIndex = index ∨ targetIndex = S index →
          handleDrop idOf id currentList (Some draggedItem) targetIndex
          = currentList)
       ∧ last (handleDropList idOf id currentList (Some draggedItem))
         = Some movedItem).
Proof.
  split_and!.
  - unfold handleDrop.
    destruct (list_find _ currentList) as [[index x]|] eqn:E; [|done].
    destruct (decide (index = targetIndex)); [done|].
    apply list_find_Some in E as (Hx & _). by apply reinsert_Permutation.
  - unfold handleDrop.
    destruct (list_find _ currentList) as [[index x]|] eqn:E; [|done].
    destruct (decide (index = targetIndex)); [done|].
    apply list_find_Some in E as (Hx & Hid & _).
    apply (reinsert_others _ _ _ _ _ Hx). by intros ?.
  - intros index movedItem Hnd Hx Hid Htarget.
    pose proof (list_find_first _ _ _ _ Hnd Hx Hid) as Hfind.
    pose proof (lookup_lt_Some _ _ _ Hx) as Hindex.
    assert (length (delete index currentList) = (length currentList - 1)%nat)
      as Hlen by (rewrite length_delete; [lia|by eexists]).
    assert (∀ target, (target ≤ length currentList)%nat → target ≠ index →
              handleDrop idOf id currentList (Some draggedItem) target
              = (take (if decide (index < target)%nat
                       then (target - 1)%nat else target)
                      (delete index currentList)
                 ++ movedItem
                    :: drop (if decide (index < target)%nat
                             then (target - 1)%nat else target)
                            (delete index currentList))%list) as Hdrop.
    { intros target Hle Hne. unfold handleDrop. rewrite Hfind.
      rewrite decide_False by done. cbv zeta. unfold id.
      assert ((0 `max` ((if decide (index < target)%nat
                         then (target - 1)%nat else target)
                        `min` length (delete index currentList)))%nat
              = if decide (index < target)%nat then (target - 1)%nat else target)
        as -> by (rewrite Hlen; destruct (decide (index < target)%nat); lia).
      done. }
    split_and!.
    + destruct (decide (targetIndex = index)) as [->|Hne].
      * unfold handleDrop. rewrite Hfind.
        destruct (decide (index = index)); [|done].
        by rewrite decide_False by lia.
      * rewrite Hdrop by done.
        apply list_lookup_middle. rewrite length_take, Hlen.
        destruct (decide (index < targetIndex)%nat); lia.
    + intros [->| ->].
      * unfold handleDrop. rewrite Hfind.
        by destruct (decide (index = index)).
      * rewrite Hdrop by lia. rewrite decide_True by lia.
        replace (S index - 1)%nat with index by lia.
        rewrite delete_take_drop, take_app_length', drop_app_length'
          by (rewrite length_take; lia).
        by apply take_drop_middle.
    + unfold handleDropList.
      destruct (decide (length currentList = index)) as [E|Hne]; [lia|].
      rewrite Hdrop by done. rewrite decide_True by lia.
      rewrite drop_ge by lia. by rewrite last_snoc.
Qed.

End ReorderFacts.
(** ** The settings dialog: the local staff list *)

Lemma uniqueIds_Permutation (l l' : list Staff.t) :
  Staff.id <$> l' ≡ₚ Staff.id <$> l → uniqueIds l → uniqueIds l'.
Proof. unfold uniqueIds. by intros ->. Qed.

Lemma filter_all {A : Type} (P : A → Prop) `{!∀ x, Decision (P x)}
    (l : list A) :
  (∀ x, x ∈ l → P x) → filter P l = l.
Proof.
  induction l as [|x l IH]; [done|]. intros Hl.
  rewrite filter_cons_True by (apply Hl, list_elem_of_here).
  f_equal. apply IH. intros y Hy. by apply Hl, list_elem_of_further.
Qed.

Lemma replaced_ids (l : list Staff.t) (saved : Staff.t) :
  Staff.id <$> ((λ staff, if decide (Staff.id staff = Staff.id saved)
                          then saved else staff) <$> l)
  = Staff.id <$> l.
Proof.
  rewrite <- list_fmap_compose. apply list_fmap_ext. intros i staff _. simpl.
  by destruct (decide (Staff.id staff = Staff.id saved)).
Qed.

(** X25. The staff handlers of the settings dialog keep the local staff
    list numbered: on a list whose [sortOrder] values are dense and whose
    ids are unique, a drop, a confirmed or declined deletion and the save
    of the member form each leave a list with dense [sortOrder] values
    and unique ids. A drop keeps the members; a deletion removes the
    member of the id and no other; the form replaces the member of its id
    or, for a new id, adds the member at the end, whatever [sortOrder]
    the saved data carry. *)
Theorem dialog_roster_invariant (staffList : list Staff.t) :
  dense staffList →
  uniqueIds staffList →
  (∀ draggedItem targetIndex,
     dense (handleDrop Staff.id reindex staffList draggedItem targetIndex)
     ∧ uniqueIds (handleDrop Staff.id reindex staffList draggedItem targetIndex)
     ∧ Staff.id <$> handleDrop Staff.id reindex staffList draggedItem targetIndex
       ≡ₚ Staff.id <$> staffList)
  ∧ (∀ staffId confirmed,
       dense (handleDeleteStaffMember staffList staffId confirmed)
       ∧ uniqueIds (handleDeleteStaffMember staffList staffId confirmed)
       ∧ Staff.id <$> handleDeleteStaffMember staffList staffId confirmed
         = if confirmed
           then filter (λ i, i ≠ staffId) (Staff.id <$> staffList)
           else Staff.id <$> staffList)
  ∧ (∀ savedStaffData,
       dense (handleSaveStaffSubModal staffList savedStaffData)
       ∧ uniqueIds (handleSaveStaffSubModal staffList savedStaffData)
       ∧ Staff.id <$> handleSaveStaffSubModal staffList savedStaffData
         = if decide (Staff.id savedStaffData ∈ Staff.id <$> staffList)
           then Staff.id <$> staffList
           else (Staff.id <$> staffList) ++ [Staff.id savedStaffData])%list.
Proof.
  intros Hdense Hunique. split_and!.
  - intros draggedItem targetIndex.
    destruct (handleDrop_cases Staff.id reindex staffList draggedItem targetIndex)
      as [->|(reordered & Hperm & ->)]; [done|].
    assert (Staff.id <$> reindex reordered ≡ₚ Staff.id <$> staffList) as Hids
      by (by rewrite reindex_ids, Hperm).
    split_and!; [apply reindex_dense|by eapply uniqueIds_Permutation|done].
  - intros staffId confirmed. unfold handleDeleteStaffMember.
    destruct (list_find _ staffList) as [[index staff]|] eqn:E.
    + destruct confirmed; [|done].
      split_and!; [apply reindex_dense| |by rewrite reindex_ids, filter_ids].
      unfold uniqueIds. rewrite reindex_ids, filter_ids.
      by apply NoDup_filter.
    + split_and!; [done..|]. destruct confirmed; [|done].
      symmetry. apply filter_all.
      intros i (staff & -> & Hin)%list_elem_of_fmap Hid.
      apply list_find_None in E.
      by apply (proj1 (Forall_forall _ _) E staff Hin).
  - intros savedStaffData. unfold handleSaveStaffSubModal. cbv zeta.
    destruct (decide (Staff.id savedStaffData ∈ Staff.id <$> staffList))
      as [Hin|Hin].
    + rewrite bool_decide_eq_true_2.
      * split_and!; [apply reindex_dense| |by rewrite reindex_ids, replaced_ids].
        unfold uniqueIds. by rewrite reindex_ids, replaced_ids.
      * apply list_elem_of_fmap in Hin as (staff & ? & ?).
        apply Exists_exists. by exists staff.
    + rewrite bool_decide_eq_false_2.
      * assert (Staff.id <$> reindex
                  (staffList
                   ++ [withSortOrder savedStaffData
                         (Some (Z.of_nat (length staffList)))])
                = (Staff.id <$> staffList) ++ [Staff.id savedStaffData])%list
          as Hids by (by rewrite reindex_ids, fmap_app).
        split_and!; [apply reindex_dense| |done].
        unfold uniqueIds. rewrite Hids. apply NoDup_app.
        split_and!; [done| |apply NoDup_singleton].
        by intros i Hi ->%list_elem_of_singleton.
      * intros (staff & ? & ?)%Exists_exists. apply Hin.
        apply list_elem_of_fmap. by exists staff.
Qed.

Lemma dialog_roster_invariant_witness :
  (dense (handleDrop Staff.id reindex pairRoster
            (Some (bareMember "a" (Some 0%Z))) 2)
   ∧ uniqueIds (handleDrop Staff.id reindex pairRoster
                  (Some (bareMember "a" (Some 0%Z))) 2)
   ∧ Staff.id <$> handleDrop Staff.id reindex pairRoster
                    (Some (bareMember "a" (Some 0%Z))) 2
     ≡ₚ Staff.id <$> pairRoster)
  ∧ (dense (handleDeleteStaffMember pairRoster "a" true)
     ∧ uniqueIds (handleDeleteStaffMember pairRoster "a" true)
     ∧ Staff.id <$> handleDeleteStaffMember pairRoster "a" true
       = filter (λ i, i ≠ "a") (Staff.id <$> pairRoster))
  ∧ (dense (handleSaveStaffSubModal pairRoster (bareMember "c" (Some 0%Z)))
     ∧ uniqueIds (handleSaveStaffSubModal pairRoster (bareMember "c" (Some 0%Z)))
     ∧ Staff.id <$> handleSaveStaffSubModal pairRoster (bareMember "c" (Some 0%Z))
       = if decide (Staff.id (bareMember "c" (Some 0%Z)) ∈ Staff.id <$> pairRoster)
         then Staff.id <$> pairRoster
         else (Staff.id <$> pairRoster) ++ [Staff.id (bareMember "c" (Some 0%Z))])%list.
Proof.
  assert (dense pairRoster) as Hdense by reflexivity.
  assert (uniqueIds pairRoster) as Hunique by by_compute.
  destruct (dialog_roster_invariant pairRoster Hdense Hunique) as (H1 & H2 & H3).
  split; [apply H1|]. split; [apply (H2 "a" true)|apply H3].
Defined.
(** ** Copying a week: what is left alone *)

(** X26. A copy changes at most the document of the target week. It never
    touches the settings, and the documents of all other weeks stay as
    they were; a copy that returns false changes no document at all. The
    loaded week changes only when the target is the current week, and
    after a successful copy onto the current week it is the stored
    target week. For a signed-in user with loaded settings the loading
    flag is cleared when the copy returns. *)
Theorem copyScheduleFromWeek_frame {Date : Type} (addDays : Date → nat → Date)
    (isoDate : Date → string) (sourceWeekDate targetWeekDate : Date)
    (w : World) :
  let result :=
    copyScheduleFromWeek addDays isoDate sourceWeekDate targetWeekDate w in
  settingsDoc result.2 = settingsDoc w
  ∧ globalSettings result.2 = globalSettings w
  ∧ (∀ week, week ≠ isoDate targetWeekDate →
       weeklyDocs result.2 !! week = weeklyDocs w !! week)
  ∧ (result.1 = false →
     weeklyDocs result.2 = weeklyDocs w
     ∧ currentWeeklySchedule result.2 = currentWeeklySchedule w)
  ∧ (isoDate targetWeekDate ≠ currentWeekStartDate w →
     currentWeeklySchedule result.2 = currentWeeklySchedule w)
  ∧ (result.1 = true → isoDate targetWeekDate = currentWeekStartDate w →
     currentWeeklySchedule result.2
     = weeklyDocs result.2 !! isoDate targetWeekDate)
  ∧ (is_Some (currentUser w) → is_Some (globalSettings w) →
     scheduleLoading result.2 = false).
Proof.
  cbv zeta.
  destruct w as [user week ogs osched sl schl err doc docs outcomes].
  unfold copyScheduleFromWeek, bind, getWorld. simpl.
  destruct user as [user|], ogs as [gs|]; simpl;
    try (split_and!; first [done|by intros [? ?]|by intros _ [? ?]]).
  destruct (docs !! isoDate sourceWeekDate) as [sourceData|]; simpl;
    [|by split_and!].
  destruct (default None (head outcomes)) as [message|]; simpl;
    [by split_and!|].
  destruct (decide (isoDate targetWeekDate = week)) as [E|E]; simpl.
  - split_and!; try done.
    + intros other Hother. by rewrite lookup_insert_ne.
    + intros _ _. by rewrite lookup_insert_eq.
  - split_and!; try done.
    intros other Hother. by rewrite lookup_insert_ne.
Qed.

(** ** A week without a stored schedule *)

(** The name of an entry without a record in the week: the roster
    name, unless the id of the member names a function of
    [Object.prototype], which the lookup of the record then finds. *)
Lemma entryOf_name_inherited gs sched g :
  overrideOf sched (Staff.id g) = None →
  (Staff.id g ∉ objectPrototypeNames ∨ Staff.id g = "__proto__" →
   Entry.name (entryOf gs sched g) = Staff.name g)
  ∧ (Staff.id g = "constructor" →
     Entry.name (entryOf gs sched g) = Some "Object")
  ∧ (Staff.id g ∈ objectPrototypeNames → Staff.id g ≠ "__proto__" →
     Staff.id g ≠ "constructor" →
     Entry.name (entryOf gs sched g) = Some (Staff.id g)).
Proof.
  intros Hnone. unfold entryOf, combineStaff. cbn [Entry.name].
  rewrite read_weeklyStaffDataMap, Hnone. split_and!.
  - intros [H| ->]; [|done].
    by rewrite (proj2 (inherited_false _) H).
  - by intros ->.
  - intros Hin Hproto Hconstructor.
    rewrite (proj2 (inherited_true _) Hin). simpl.
    unfold JsObject.inheritedName. rewrite decide_False by done.
    rewrite decide_True; [done|].
    unfold objectPrototypeNames in Hin. unfold JsObject.prototypeFunctions.
    rewrite !elem_of_cons, elem_of_nil in *. tauto.
Qed.

(** X27. A week that has no stored schedule is shown from the roster
    alone. The listener loads the default week for it and stores
    nothing; in the view that [getStaffByUnit] then returns every entry
    is that of an active member under the defaults of the roster: the
    unit, group and job title are the member's defaults (the empty
    string without one), there are no shifts, and nothing is flagged or
    marked as deleted. The name is the roster name, unless the id of the
    member is the name of a function of [Object.prototype]: the entry
    is then named after the function, "Object" for the id
    "constructor". *)
Theorem unsaved_week_view (localeCompare : string → string → comparison)
    (w : World) (gs : Settings) (view : JsObject.t (list Entry.t))
    (k : string) (es : list Entry.t) (e : Entry.t) :
  globalSettings w = Some gs →
  settingsLoading w = false →
  viewOf localeCompare (onWeeklyScheduleSnapshot None w).2 = Some view →
  JsObject.get view k = Some es →
  e ∈ es →
  weeklyDocs (onWeeklyScheduleSnapshot None w).2 = weeklyDocs w
  ∧ ∃ g, g ∈ default [] (staffList gs) ∧ Staff.isActive g = true
         ∧ Entry.staffId e = Staff.id g
         ∧ k = default "" (Staff.defaultUnit g)
         ∧ Entry.unit e = default "" (Staff.defaultUnit g)
         ∧ Entry.group e = default "" (Staff.defaultGroup g)
         ∧ Entry.jobTitle e = default "" (Staff.defaultJobTitle g)
         ∧ (Staff.id g ∉ objectPrototypeNames ∨ Staff.id g = "__proto__" →
            Entry.name e = Staff.name g)
         ∧ (Staff.id g = "constructor" → Entry.name e = Some "Object")
         ∧ (Staff.id g ∈ objectPrototypeNames → Staff.id g ≠ "__proto__" →
            Staff.id g ≠ "constructor" → Entry.name e = Some (Staff.id g))
         ∧ Entry.shifts e = ∅
         ∧ Entry.isOrphanedUnit e = false
         ∧ Entry.isOrphanedGroup e = false
         ∧ Entry.isOrphanedJobTitle e = false
         ∧ Entry.displayUnit e = Entry.unit e
         ∧ Entry.displayGroup e = Entry.group e
         ∧ Entry.displayJobTitle e = Entry.jobTitle e.
Proof.
  destruct w as [user week ogs osched sl schl err doc docs outcomes].
  simpl. intros -> ->. unfold viewOf. simpl. intros Hview Hget He.
  split; [done|].
  destruct (view_entry_inv _ _ _ _ _ _ _ Hview Hget He)
    as (Hk & g & Hg & Hactive & ->).
  exists g. subst k.
  pose proof (entryOf_fields gs (Some (defaultWeeklySchedule week)) g)
    as (_ & Hu & Hgr & Hj & Hs).
  pose proof (entryOf_annotated gs (Some (defaultWeeklySchedule week)) g)
    as (_ & (_ & Hfu & Hdu) & (_ & Hfg & Hdg) & (_ & Hfj & Hdj)).
  pose proof (entryOf_name_inherited gs (Some (defaultWeeklySchedule week)) g
                eq_refl) as (Hn1 & Hn2 & Hn3).
  rewrite Hdu, Hdg, Hdj, (Hfu eq_refl), (Hfg eq_refl), (Hfj eq_refl).
  by split_and!.
Qed.

Lemma unsaved_week_view_witness :
  weeklyDocs (onWeeklyScheduleSnapshot None scenarioWorld).2
    = weeklyDocs scenarioWorld
  ∧ ∃ g, g ∈ default [] (staffList scenarioSettings) ∧ Staff.isActive g = true
         ∧ Entry.staffId (entryOf scenarioSettings None scenarioMember) = Staff.id g
         ∧ "I" = default "" (Staff.defaultUnit g)
         ∧ Entry.unit (entryOf scenarioSettings None scenarioMember)
           = default "" (Staff.defaultUnit g)
         ∧ Entry.group (entryOf scenarioSettings None scenarioMember)
           = default "" (Staff.defaultGroup g)
         ∧ Entry.jobTitle (entryOf scenarioSettings None scenarioMember)
           = default "" (Staff.defaultJobTitle g)
         ∧ (Staff.id g ∉ objectPrototypeNames ∨ Staff.id g = "__proto__" →
            Entry.name (entryOf scenarioSettings None scenarioMember)
            = Staff.name g)
         ∧ (Staff.id g = "constructor" →
            Entry.name (entryOf scenarioSettings None scenarioMember)
            = Some "Object")
         ∧ (Staff.id g ∈ objectPrototypeNames → Staff.id g ≠ "__proto__" →
            Staff.id g ≠ "constructor" →
            Entry.name (entryOf scenarioSettings None scenarioMember)
            = Some (Staff.id g))
         ∧ Entry.shifts (entryOf scenarioSettings None scenarioMember) = ∅
         ∧ Entry.isOrphanedUnit (entryOf scenarioSettings None scenarioMember) = false
         ∧ Entry.isOrphanedGroup (entryOf scenarioSettings None scenarioMember) = false
         ∧ Entry.isOrphanedJobTitle (entryOf scenarioSettings None scenarioMember)
           = false
         ∧ Entry.displayUnit (entryOf scenarioSettings None scenarioMember)
           = Entry.unit (entryOf scenarioSettings None scenarioMember)
         ∧ Entry.displayGroup (entryOf scenarioSettings None scenarioMember)
           = Entry.group (entryOf scenarioSettings None scenarioMember)
         ∧ Entry.displayJobTitle (entryOf scenarioSettings None scenarioMember)
           = Entry.jobTitle (entryOf scenarioSettings None scenarioMember).
Proof.
  apply (unsaved_week_view String.compare scenarioWorld scenarioSettings
           [("I", [entryOf scenarioSettings None scenarioMember])] "I"
           [entryOf scenarioSettings None scenarioMember]).
  - reflexivity.
  - reflexivity.
  - vm_compute. reflexivity.
  - vm_compute. reflexivity.
  - apply list_elem_of_here.
Defined.
(** ** The shift type dialog *)

Lemma imap_pair_snd {A : Type} (l : list A) : (imap pair l).*2 = l.
Proof.
  apply list_eq. intros i.
  rewrite list_lookup_fmap, list_lookup_imap. by destruct (l !! i).
Qed.

Lemma elem_of_imap_pair {A : Type} (l : list A) (i : nat) (x : A) :
  (i, x) ∈ imap pair l ↔ l !! i = Some x.
Proof.
  rewrite list_elem_of_lookup. split.
  - intros (j & Hj). rewrite list_lookup_imap in Hj.
    destruct (l !! j) eqn:E; [|done]. simpl in Hj. by injection Hj as <- <-.
  - intros Hx. exists i. by rewrite list_lookup_imap, Hx.
Qed.

Lemma NoDup_insert {A : Type} (l : list A) (i : nat) (y : A) :
  NoDup l → (∀ j, j ≠ i → l !! j ≠ Some y) → NoDup (<[i := y]> l).
Proof.
  intros Hnd Hy. apply NoDup_alt. intros j1 j2 x H1 H2.
  destruct (decide (j1 = i)) as [->|N1], (decide (j2 = i)) as [->|N2]; [done|..].
  - rewrite list_lookup_insert_ne in H2 by done.
    apply list_lookup_insert_Some in H1 as [(_ & <- & _)|[? _]]; [|done].
    by destruct (Hy j2 N2).
  - rewrite list_lookup_insert_ne in H1 by done.
    apply list_lookup_insert_Some in H2 as [(_ & <- & _)|[? _]]; [|done].
    by destruct (Hy j1 N1).
  - rewrite list_lookup_insert_ne in H1, H2 by done.
    by eapply NoDup_lookup.
Qed.

(** X28. The shift type dialog keeps its two lists consistent. When no
    two shift types have the same code up to case and every time slot
    that is not empty belongs to a shift type, this still holds after a
    deletion and after the form is saved, whether the form adds a shift
    type, edits one, renames its code, or is refused. *)
Theorem shift_dialog_invariant (trim toUpperCase toLowerCase : string → string)
    (state : ShiftForm) :
  distinctCodes toLowerCase state →
  timesOfShifts state →
  (∀ indexToDelete confirmed state',
     handleDeleteShift state indexToDelete confirmed = Some state' →
     distinctCodes toLowerCase state' ∧ timesOfShifts state')
  ∧ (∀ editingShift editingIndex state',
       handleSaveShiftForm trim toUpperCase toLowerCase state editingShift
                           editingIndex = Some state' →
       distinctCodes toLowerCase state' ∧ timesOfShifts state').
Proof.
  intros Hcodes Htimes. split.
  - intros index confirmed state'. unfold handleDeleteShift.
    destruct confirmed; [|by intros [= <-]].
    destruct (localShifts state !! index) as [shift|] eqn:Hshift; [|done].
    intros [= <-]. split.
    + unfold distinctCodes. simpl.
      eapply sublist_NoDup; [exact Hcodes|].
      apply fmap_sublist.
      rewrite <- (imap_pair_snd (localShifts state)) at 2.
      apply fmap_sublist, sublist_filter.
    + intros k v. simpl. intros Hk Hv.
      assert (localTimes state !! k = Some v ∧ k ≠ code shift) as [Hold Hne].
      { destruct (Js.truthy (localTimes state !! code shift)) eqn:Htruthy.
        - apply lookup_delete_Some in Hk as [? ?]. done.
        - split; [done|]. intros ->. rewrite Hk in Htruthy. simpl in Htruthy.
          by apply bool_decide_eq_false in Htruthy. }
      destruct (Htimes k v Hold Hv) as (s & Hs & Hcode).
      exists s. split; [|done].
      apply list_elem_of_lookup in Hs as (j & Hj).
      apply list_elem_of_fmap. exists (j, s). split; [done|].
      apply list_elem_of_filter. split; [|by apply elem_of_imap_pair].
      simpl. intros ->. rewrite Hshift in Hj. injection Hj as <-. done.
  - intros form editingIndex state'. unfold handleSaveShiftForm.
    destruct (decide (trim (formCode form) = "")); [by intros [= <-]|].
    destruct (decide (trim (formName form) = "")); [by intros [= <-]|].
    cbv zeta.
    set (code' := toUpperCase (trim (formCode form))).
    set (saved := {| code := code'; shiftName := trim (formName form);
                     color := formColor form |}).
    destruct (bool_decide _) eqn:Hdup; [by intros [= <-]|].
    apply bool_decide_eq_false in Hdup.
    assert (∀ j s, localShifts state !! j = Some s → Some j ≠ editingIndex →
                   toLowerCase (code s) ≠ toLowerCase code') as Hfresh.
    { intros j s Hs Hj E. apply Hdup, Exists_exists. exists (j, s).
      split; [by apply elem_of_imap_pair|done]. }
    assert (∀ newShifts newTimes,
              (∀ k v, newTimes !! k = Some v → v ≠ "" → k ≠ code' →
                      ∃ s, s ∈ newShifts ∧ code s = k) →
              saved ∈ newShifts →
              timesOfShifts
                {| localShifts := newShifts;
                   localTimes :=
                     if decide (trim (formTimeSlot form) = "") then
                       if Js.truthy (newTimes !! code')
                       then delete code' newTimes else newTimes
                     else <[code' := trim (formTimeSlot form)]> newTimes |})
      as Hslots.
    { intros newShifts newTimes Hold Hsaved k v. simpl. intros Hk Hv.
      destruct (decide (k = code')) as [->|Hne]; [by exists saved|].
      apply (Hold k v); [|done..].
      destruct (decide (trim (formTimeSlot form) = "")).
      - destruct (Js.truthy (newTimes !! code')); [|done].
        by apply lookup_delete_Some in Hk as [_ ?].
      - by rewrite lookup_insert_ne in Hk. }
    destruct editingIndex as [index|].
    + destruct (localShifts state !! index) as [old|] eqn:Hold; [|done].
      intros [= <-]. split.
      * unfold distinctCodes. simpl.
        rewrite list_fmap_insert. apply NoDup_insert; [done|].
        intros j Hj. rewrite list_lookup_fmap.
        destruct (localShifts state !! j) as [s|] eqn:Hs; [|done]. simpl.
        intros [= E]. apply (Hfresh j s Hs); [congruence|done].
      * apply Hslots.
        -- intros k v Hk Hv Hne.
           assert (localTimes state !! k = Some v ∧ (k = code old → code old = code'))
             as [Hk' Hcode].
           { destruct (bool_decide (code old ≠ code')
                       && Js.truthy (localTimes state !! code old)) eqn:Hdel.
             - apply lookup_delete_Some in Hk as [? ?]. split; [done|]. congruence.
             - split; [done|]. intros ->.
               apply andb_false_iff in Hdel as [Hdel|Hdel].
               + apply bool_decide_eq_false in Hdel. by apply dec_stable.
               + rewrite Hk in Hdel. simpl in Hdel.
                 by apply bool_decide_eq_false in Hdel. }
           destruct (Htimes k v Hk' Hv) as (s & Hs & <-).
           exists s. split; [|done].
           apply list_elem_of_lookup in Hs as (j & Hj).
           apply list_elem_of_lookup. exists j.
           rewrite list_lookup_insert_ne; [done|].
           intros <-. rewrite Hold in Hj. injection Hj as <-.
           apply Hne. by apply Hcode.
        -- apply list_elem_of_lookup. exists index.
           apply list_lookup_insert_eq. by eapply lookup_lt_Some.
    + intros [= <-]. split.
      * unfold distinctCodes. simpl. rewrite fmap_app. apply NoDup_app.
        split_and!; [done| |apply NoDup_singleton].
        intros x (s & -> & Hs)%list_elem_of_fmap E%list_elem_of_singleton.
        apply list_elem_of_lookup in Hs as (j & Hj).
        by apply (Hfresh j s Hj).
      * apply Hslots.
        -- intros k v Hk Hv _. destruct (Htimes k v Hk Hv) as (s & Hs & <-).
           exists s. split; [|done]. apply elem_of_app. by left.
        -- apply elem_of_app. right. apply list_elem_of_here.
Qed.

Lemma shift_dialog_invariant_witness :
  (∃ state', handleDeleteShift sampleShiftForm 0 true = Some state'
             ∧ distinctCodes asciiLower state' ∧ timesOfShifts state')
  ∧ (∃ state', handleSaveShiftForm trimSpaces asciiUpper asciiLower
                 sampleShiftForm nightShift (Some 1) = Some state'
               ∧ distinctCodes asciiLower state' ∧ timesOfShifts state').
Proof.
  assert (distinctCodes asciiLower sampleShiftForm) as Hcodes by by_compute.
  assert (timesOfShifts sampleShiftForm) as Htimes.
  { intros k v Hk _. unfold sampleShiftForm in Hk. simpl in Hk.
    apply lookup_insert_Some in Hk as [[<- _]|[_ Hk]].
    - eexists. split; [apply list_elem_of_here|reflexivity].
    - apply lookup_singleton_Some in Hk as [<- _].
      eexists. split; [apply list_elem_of_further, list_elem_of_here|reflexivity]. }
  destruct (shift_dialog_invariant trimSpaces asciiUpper asciiLower
              sampleShiftForm Hcodes Htimes) as (Hdelete & Hsave).
  split.
  - eexists. split; [reflexivity|]. by apply (Hdelete 0 true).
  - eexists. split; [reflexivity|]. by apply (Hsave nightShift (Some 1)).
Defined.
(** ** A week that failed to load *)

(** X29. After an error of the weekly listener the week is shown as if
    it had no stored schedule: the error is reported, but the view is
    the one of an unsaved week. An update made then starts from the
    default week, so when its write is accepted the stored week is
    replaced by a week that holds the record of the update and no other,
    whatever records it held, and the error message is cleared. *)
Theorem load_error_then_update (localeCompare : string → string → comparison)
    (message : string) (data : Weekly.t) (w : World) :
  Weekly.staffId data ≠ "" →
  is_Some (currentUser w) →
  default None (head (setDocOutcomes w)) = None →
  let w1 := (onWeeklyScheduleError message w).2 in
  let w2 := (updateStaffInWeeklySchedule data w1).2 in
  viewOf localeCompare w1
    = viewOf localeCompare (onWeeklyScheduleSnapshot None w).2
  ∧ is_Some (saveError w1)
  ∧ weeklyDocs w1 = weeklyDocs w
  ∧ weeklyDocs w2
    = <[currentWeekStartDate w :=
          {| weekStartDate := currentWeekStartDate w;
             staff := [cleanRecord data] |}]> (weeklyDocs w)
  ∧ saveError w2 = None.
Proof.
  destruct w as [user week ogs osched sl schl err doc docs outcomes].
  simpl. intros Hid [u ->] Hout. split_and!.
  - reflexivity.
  - by eexists.
  - reflexivity.
  - unfold onWeeklyScheduleError, updateStaffInWeeklySchedule, bind, getWorld.
    simpl. rewrite decide_False by done. simpl.
    unfold saveWeeklySchedule, bind, getWorld. simpl. by rewrite Hout.
  - unfold onWeeklyScheduleError, updateStaffInWeeklySchedule, bind, getWorld.
    simpl. rewrite decide_False by done. simpl.
    unfold saveWeeklySchedule, bind, getWorld. simpl. by rewrite Hout.
Qed.

Lemma load_error_then_update_witness :
  viewOf String.compare (onWeeklyScheduleError "denied" loadedWorld).2
    = viewOf String.compare (onWeeklyScheduleSnapshot None loadedWorld).2
  ∧ is_Some (saveError (onWeeklyScheduleError "denied" loadedWorld).2)
  ∧ weeklyDocs (onWeeklyScheduleError "denied" loadedWorld).2
    = weeklyDocs loadedWorld
  ∧ weeklyDocs (updateStaffInWeeklySchedule (bareRecord "s3")
                  (onWeeklyScheduleError "denied" loadedWorld).2).2
    = <[currentWeekStartDate loadedWorld :=
          {| weekStartDate := currentWeekStartDate loadedWorld;
             staff := [cleanRecord (bareRecord "s3")] |}]>
        (weeklyDocs loadedWorld)
  ∧ saveError (updateStaffInWeeklySchedule (bareRecord "s3")
                 (onWeeklyScheduleError "denied" loadedWorld).2).2 = None.
Proof.
  apply (load_error_then_update String.compare "denied" (bareRecord "s3")
           loadedWorld).
  - discriminate.
  - by eexists.
  - reflexivity.
Defined.
(** ** Settings that are not loaded *)


